(** * TCP-to-UDP log bridge: a shallow embedding and its properties.

    The development follows the C sources of the repository:
    - [send_all.c]      : the reliable-send helper ([SendAll]);
    - [tcp_server.c]    : the threaded bridge ([Handler], [Acceptor],
                          [Bridge], [Startup]);
    - [epoll_server.c]  : the readiness-driven bridge ([Epoll], [Startup]);
    - [udp_server.c]    : the UDP log sink, in its plain and its threaded
                          version ([Sink]).

    System calls are the boundary of the model.  What a call returns is
    an input of the model (an oracle value, or a transport state passed
    along); the calls the properties speak about are the [event]s of a
    run, recorded in program order. *)

From Stdlib Require Import ZArith.
From Stdlib.Strings Require Import Byte Ascii String.
From stdpp Require Import base numbers list option.

Local Open Scope Z_scope.

(** ** C integers *)

(** [unsigned] is 32 bits wide on the platforms the sources build for. *)
Definition UINT_WIDTH : Z := 32.
Definition UINT_MOD : Z := 2 ^ UINT_WIDTH.

(** The conversion [(unsigned)n] of a wider signed value. *)
Definition to_unsigned (n : Z) : Z := n mod UINT_MOD.

(** [a + b] on [unsigned] operands. *)
Definition uadd (a b : Z) : Z := to_unsigned (a + b).

(** [a - b] on [unsigned] operands. *)
Definition usub (a b : Z) : Z := to_unsigned (a - b).

Definition is_unsigned (n : Z) : Prop := 0 <= n < UINT_MOD.

(** ** Events of a run *)

(** A socket address: the IPv4 host (as parsed by [inet_pton]) and the port
    in network byte order. *)
Record sockaddr_in := { sin_addr : Z; sin_port : Z }.

Inductive event :=
  | EvPrintf (msg : string)                      (* printf / fprintf(stderr) *)
  | EvPerror (msg : string)                      (* perror *)
  | EvSend (off size : Z)                        (* send(fd, ptr + off, size, 0) *)
  | EvRecv (fd : Z) (n : Z) (data : list byte)   (* recv(fd, buffer, cap, 0) = n *)
  | EvSendto (sock : Z) (payload : list byte) (dest : sockaddr_in)
  | EvSocket (fd : Z)                            (* socket(...) = fd *)
  | EvEpollCreate (fd : Z)                       (* epoll_create1(0) = fd *)
  | EvSetsockopt (fd : Z)
  | EvFcntl (fd : Z)
  | EvBind (fd : Z)
  | EvListen (fd : Z)
  | EvAccept (fd : Z)                            (* accept(listen_fd, ...) = fd *)
  | EvEpollAdd (fd : Z)
  | EvEpollDel (fd : Z)
  | EvSpawn (fd : Z)                             (* pthread_create(client_thread) *)
  | EvJoin                                       (* pthread_join(accept_thread) *)
  | EvClose (fd : Z)
  | EvFlagClear                                  (* running = 0 *)
  | EvFwrite (data : list byte)                  (* bytes handed to the log stream *)
  | EvFflush.

Definition is_flag_clear (e : event) : bool :=
  match e with EvFlagClear => true | _ => false end.

Definition no_flag_clear (evs : list event) : Prop :=
  Forall (fun e => is_flag_clear e = false) evs.

(** * send_all.c *)

Module SendAll.

Definition MSG_INVALID : string :=
  "send_all: invalid argument (NULL buffer with non-zero length)".
Definition MSG_SEND_FAILED : string := "send_all: send failed".

(** Outcome of a call: the returned [int], the transport afterwards and
    the events of the call. *)
Record outcome (T : Type) := Outcome { ret : Z; after : T; events : list event }.
Arguments Outcome {T} _ _ _.
Arguments ret {T} _.
Arguments after {T} _.
Arguments events {T} _.

Definition emit {T} (e : event) (o : outcome T) : outcome T :=
  Outcome (ret o) (after o) (e :: events o).

Section WithTransport.
Context {T : Type}.

(** [send t window size]: the socket's [send] primitive.  [window] is what
    the call may read (the bytes from the pointer it is given), [size] the
    length it is given; it answers with its [ssize_t] result and the
    transport's next state. *)
Variable send : T -> list byte -> Z -> Z * T.

(** The bytes [ptr + off] points at. *)
Definition window (buf : list byte) (off : Z) : list byte := drop (Z.to_nat off) buf.

(** The [while (sent < len)] loop.  [fuel] bounds the iterations the model
    follows; [None] means the bound was hit with the loop still running. *)
Fixpoint send_loop (fuel : nat) (buf : list byte) (len sent : Z) (t : T)
  : option (outcome T) :=
  if sent <? len then
    match fuel with
    | O => None
    | S fuel' =>
        let '(n, t') := send t (window buf sent) (usub len sent) in
        if n <=? 0 then
          Some (Outcome (-1) t' [EvSend sent (usub len sent); EvPerror MSG_SEND_FAILED])
        else
          emit (EvSend sent (usub len sent))
            <$> send_loop fuel' buf len (uadd sent (to_unsigned n)) t'
    end
  else Some (Outcome 0 t []).

(** [int send_all(int sockfd, const void *buf, unsigned len)];
    [buf = None] is the null pointer. *)
Definition send_all (fuel : nat) (buf : option (list byte)) (len : Z) (t : T)
  : option (outcome T) :=
  match buf, len =? 0 with
  | None, false => Some (Outcome (-1) t [EvPrintf MSG_INVALID])
  | _, true => Some (Outcome 0 t [])
  | Some b, false => send_loop fuel b len 0 t
  end.

(** send(2) never reports more bytes than it was asked to write. *)
Definition send_contract : Prop :=
  forall t w size, 0 <= size -> (send t w size).1 <= size.

(** The contract of section 4.1 in the spec's words, over unbounded
    integers: from [sent] bytes accepted, write the remaining suffix until
    all [len] bytes are accepted (result 0) or a write fails (result -1,
    at once). *)
Inductive SendRun (buf : list byte) (len : Z) : Z -> T -> outcome T -> Prop :=
  | run_complete sent t :
      sent = len -> SendRun buf len sent t (Outcome 0 t [])
  | run_failed sent t n t' :
      sent < len ->
      send t (window buf sent) (len - sent) = (n, t') ->
      n <= 0 ->
      SendRun buf len sent t
        (Outcome (-1) t' [EvSend sent (len - sent); EvPerror MSG_SEND_FAILED])
  | run_partial sent t n t' o :
      sent < len ->
      send t (window buf sent) (len - sent) = (n, t') ->
      0 < n ->
      SendRun buf len (sent + n) t' o ->
      SendRun buf len sent t (emit (EvSend sent (len - sent)) o).

End WithTransport.

(** Two transports to run the model on.  [send_upto k]: a socket that takes
    at most [k] bytes per call and counts its calls.  [send_reset]: a
    connection that is gone, every call fails. *)
Definition send_upto (k : Z) (calls : nat) (w : list byte) (size : Z) : Z * nat :=
  (Z.min k size, S calls).
Definition send_reset (calls : nat) (w : list byte) (size : Z) : Z * nat :=
  (-1, S calls).

Definition is_send (e : event) : bool :=
  match e with EvSend _ _ => true | _ => false end.

Definition count_sends (evs : list event) : nat := length (filter is_send evs).

End SendAll.

(** * The bridge: what both servers share *)

Definition BUFFER_SIZE : nat := 4096.

(** [errno] values the sources test for (Linux: EWOULDBLOCK is EAGAIN). *)
Definition EINTR : Z := 4.
Definition EAGAIN : Z := 11.
Definition EWOULDBLOCK : Z := 11.

Definition would_block (errno : Z) : bool :=
  (errno =? EAGAIN) || (errno =? EWOULDBLOCK).

(** The globals set once by [main]: the UDP socket and the destination
    every chunk goes to, and the listening socket. *)
Record globals := { udp_socket : Z; udp_addr : sockaddr_in; listen_fd : Z }.

(** What one [recv(fd, buffer, sizeof(buffer), 0)] answers: its result [n],
    the bytes the kernel copied out when [n > 0], and [errno] when [n < 0]. *)
Record recv_result := { rv_n : Z; rv_data : list byte; rv_errno : Z }.

(** A read the kernel can answer with a buffer of [cap] bytes. *)
Definition recv_contract (cap : nat) (r : recv_result) : Prop :=
  -1 <= rv_n r /\
  (0 < rv_n r -> rv_n r = Z.of_nat (length (rv_data r)) /\ (length (rv_data r) <= cap)%nat).

(** The effect of a read on [buffer]: the first [n] bytes are replaced. *)
Definition recv_into (buffer : list byte) (r : recv_result) : list byte :=
  if 0 <? rv_n r then rv_data r ++ drop (length (rv_data r)) buffer else buffer.

(** [sendto(udp_socket, buffer, n, 0, &udp_addr, sizeof(udp_addr))] with its
    result [sr]; a failure is reported and nothing else. *)
Definition forward (g : globals) (buffer : list byte) (n sr : Z) : list event :=
  EvSendto (udp_socket g) (take (Z.to_nat n) buffer) (udp_addr g)
    :: (if sr <? 0 then [EvPerror "sendto (UDP forward)"] else []).

(** [strncmp] on C strings without embedded NUL. *)
Fixpoint strncmp (a b : string) (n : nat) : Z :=
  match n with
  | O => 0
  | S n' =>
      match a, b with
      | EmptyString, EmptyString => 0
      | EmptyString, String d _ => - Z.of_nat (Ascii.nat_of_ascii d)
      | String c _, EmptyString => Z.of_nat (Ascii.nat_of_ascii c)
      | String c a', String d b' =>
          if Ascii.eqb c d then strncmp a' b' n'
          else Z.of_nat (Ascii.nat_of_ascii c) - Z.of_nat (Ascii.nat_of_ascii d)
      end
  end.

(** The test both servers apply to a console line. *)
Definition is_quit (input : string) : bool := strncmp input "quit" 4 =? 0.

(** * tcp_server.c: the connection handler *)

Module Handler.

(** The states of section 4.3; [Closed] is the thread having returned. *)
Inductive hstate := Reading | Closing | Closed.

(** What one turn of the read loop meets: the value of [running] at the loop
    test, the answer of [recv], and the result of [sendto]. *)
Record tick := { tk_running : bool; tk_recv : recv_result; tk_sendto : Z }.

(** One turn of [while (running) { ... }] in [client_thread]. *)
Definition iterate (g : globals) (fd : Z) (buffer : list byte) (tk : tick)
  : hstate * list byte * list event :=
  if negb (tk_running tk) then (Closing, buffer, [])
  else
    let r := tk_recv tk in
    let n := rv_n r in
    let buffer' := recv_into buffer r in
    let ev := EvRecv fd n (rv_data r) in
    if n <? 0 then
      if would_block (rv_errno r) then (Reading, buffer', [ev])
      else (Closing, buffer', [ev])
    else if n =? 0 then (Closing, buffer', [ev])
    else (Reading, buffer', ev :: forward g buffer' n (tk_sendto tk)).

(** The read loop over the turns of a script; the state is [Reading] when
    the script ends with the loop still running. *)
Fixpoint read_loop (g : globals) (fd : Z) (buffer : list byte) (script : list tick)
  : hstate * list event :=
  match script with
  | [] => (Reading, [])
  | tk :: script' =>
      let '(st, buffer', evs) := iterate g fd buffer tk in
      match st with
      | Reading =>
          let '(st', evs') := read_loop g fd buffer' script' in (st', evs ++ evs')
      | _ => (st, evs)
      end
  end.

(** The [setsockopt(SO_RCVTIMEO)] before the loop, with its result. *)
Definition prologue (fd : Z) (so : Z) : list event :=
  EvSetsockopt fd :: (if so <? 0 then [EvPerror "setsockopt failed in client thread"] else []).

(** Leaving the loop: [close(client_fd); return NULL]. *)
Definition epilogue (fd : Z) : list event := [EvClose fd].

(** [void* client_thread(void* arg)] for the connection [fd]. *)
Definition client_thread (g : globals) (fd so : Z) (buffer : list byte) (script : list tick)
  : hstate * list event :=
  let '(st, evs) := read_loop g fd buffer script in
  match st with
  | Reading => (Reading, prologue fd so ++ evs)
  | _ => (Closed, prologue fd so ++ evs ++ epilogue fd)
  end.

(** The chunks the reads of a trace delivered, and the chunks it forwarded. *)
Definition chunk_read (e : event) : option (list byte) :=
  match e with EvRecv _ n d => if 0 <? n then Some d else None | _ => None end.
Definition chunk_forwarded (e : event) : option (list byte) :=
  match e with EvSendto _ p _ => Some p | _ => None end.
Definition chunks_read (evs : list event) : list (list byte) := omap chunk_read evs.
Definition chunks_forwarded (evs : list event) : list (list byte) := omap chunk_forwarded evs.

(** [follows g pending evs]: in [evs], every read of data is followed at
    once by one [sendto] of the same bytes to [g]'s destination, and no
    [sendto] stands anywhere else; [pending] is the chunk read last and not
    forwarded yet. *)
Fixpoint follows (g : globals) (pending : option (list byte)) (evs : list event) : Prop :=
  match evs with
  | [] => pending = None
  | e :: rest =>
      match pending with
      | Some d =>
          match e with
          | EvSendto s p a =>
              s = udp_socket g /\ p = d /\ a = udp_addr g /\ follows g None rest
          | _ => False
          end
      | None =>
          match e with
          | EvRecv _ n d => follows g (if 0 <? n then Some d else None) rest
          | EvSendto _ _ _ => False
          | _ => follows g None rest
          end
      end
  end.

Definition forwards_each_read (g : globals) (evs : list event) : Prop := follows g None evs.

Definition is_sendto (e : event) : bool :=
  match e with EvSendto _ _ _ => true | _ => false end.
Definition is_perror (e : event) : bool :=
  match e with EvPerror _ => true | _ => false end.

Definition no_sendto (evs : list event) : Prop := Forall (fun e => is_sendto e = false) evs.

(** The events of a trace that are not [perror] reports. *)
Definition calls (evs : list event) : list event :=
  filter (fun e => negb (is_perror e)) evs.

(** The script with [sr] as the result of every [sendto]. *)
Definition with_sendto (sr : Z) (script : list tick) : list tick :=
  map (fun tk => {| tk_running := tk_running tk; tk_recv := tk_recv tk; tk_sendto := sr |})
    script.

End Handler.

(** * epoll_server.c *)

Module Epoll.

(** [int set_nonblocking(int fd)], given the results of its two [fcntl]s. *)
Definition set_nonblocking (fd getfl setfl : Z) : Z * list event :=
  if getfl =? -1 then (-1, [EvFcntl fd; EvPerror "fcntl F_GETFL"])
  else if setfl =? -1 then (-1, [EvFcntl fd; EvFcntl fd; EvPerror "fcntl F_SETFL"])
  else (0, [EvFcntl fd; EvFcntl fd]).

(** [int add_to_epoll(int fd)], given the result of [epoll_ctl]. *)
Definition add_to_epoll (fd ctl : Z) : Z * list event :=
  if ctl =? -1 then (-1, [EvEpollAdd fd; EvPerror "epoll_ctl: add fd"])
  else (0, [EvEpollAdd fd]).

(** [int remove_from_epoll(int fd)], given the result of [epoll_ctl]. *)
Definition remove_from_epoll (fd ctl : Z) : Z * list event :=
  if ctl =? -1 then (-1, [EvEpollDel fd; EvPerror "epoll_ctl: remove fd"])
  else (0, [EvEpollDel fd]).

(** [int handle_client_data(int client_fd)]: the script gives, turn by turn,
    the answer of [recv] and the result of [sendto]; [None] when the script
    ends before the function returns. *)
Fixpoint handle_client_data (g : globals) (fd : Z) (buffer : list byte)
    (script : list (recv_result * Z)) : option (Z * list event) :=
  match script with
  | [] => None
  | (r, sr) :: script' =>
      let n := rv_n r in
      let buffer' := recv_into buffer r in
      let ev := EvRecv fd n (rv_data r) in
      if n =? -1 then
        if would_block (rv_errno r) then Some (0, [ev])
        else Some (-1, [ev; EvPerror "recv from client"])
      else if n =? 0 then Some (-1, [ev; EvPrintf "Client disconnected (fd: %d)"])
      else
        '(res, evs) ← handle_client_data g fd buffer' script';
        Some (res, (ev :: forward g buffer' n sr) ++ evs)
  end.

(** The script with [sr0] as the result of every [sendto]. *)
Definition with_sendto (sr0 : Z) (script : list (recv_result * Z)) : list (recv_result * Z) :=
  map (fun '(r, _) => (r, sr0)) script.

(** One entry of [events[]] after [epoll_wait], with the answers of the
    calls its handling makes. *)
Record ready := {
  rd_fd : Z;
  rd_accept : Z;                          (* accept(listen_fd, ...) *)
  rd_getfl : Z; rd_setfl : Z;             (* the fcntls of set_nonblocking *)
  rd_ctl : Z;                             (* epoll_ctl, add or delete *)
  rd_reads : list (recv_result * Z)       (* the turns of handle_client_data *)
}.

(** The body of [for (int i = 0; i < nfds; i++)] for one entry. *)
Definition on_ready (g : globals) (buffer : list byte) (rd : ready) : option (list event) :=
  if rd_fd rd =? listen_fd g then
    let c := rd_accept rd in
    if c =? -1 then Some [EvAccept c; EvPerror "accept"]
    else
      let '(r1, e1) := set_nonblocking c (rd_getfl rd) (rd_setfl rd) in
      if r1 =? -1 then Some (EvAccept c :: e1 ++ [EvClose c])
      else
        let '(r2, e2) := add_to_epoll c (rd_ctl rd) in
        if r2 =? -1 then Some (EvAccept c :: e1 ++ e2 ++ [EvClose c])
        else Some (EvAccept c :: e1 ++ e2 ++ [EvPrintf "New client connected (fd: %d)"])
  else
    '(res, evs) ← handle_client_data g (rd_fd rd) buffer (rd_reads rd);
    if res =? -1 then
      Some (evs ++ (remove_from_epoll (rd_fd rd) (rd_ctl rd)).2 ++ [EvClose (rd_fd rd)])
    else Some evs.

Fixpoint for_each_ready (g : globals) (buffer : list byte) (rds : list ready)
  : option (list event) :=
  match rds with
  | [] => Some []
  | rd :: rds' =>
      e1 ← on_ready g buffer rd;
      e2 ← for_each_ready g buffer rds';
      Some (e1 ++ e2)
  end.

(** What one turn of [while (running)] in [main] meets. *)
Record etick := {
  et_select : Z;                 (* select() on stdin *)
  et_isset : bool;               (* FD_ISSET(STDIN_FILENO) *)
  et_fgets : option string;      (* fgets(input, 10, stdin), None for NULL *)
  et_nfds : Z;                   (* epoll_wait() *)
  et_errno : Z;
  et_ready : list ready          (* events[] *)
}.

(** The console check at the top of a turn: has ["quit"] been typed? *)
Definition console (tk : etick) : bool :=
  (0 <? et_select tk) && et_isset tk &&
  match et_fgets tk with Some input => is_quit input | None => false end.

(** [epoll_wait] failed, and not by a signal. *)
Definition wait_failed (tk : etick) : bool :=
  (et_nfds tk =? -1) && negb (et_errno tk =? EINTR).

(** The turns on which the loop is left by [break]. *)
Definition leaves (tk : etick) : bool := console tk || wait_failed tk.

Inductive lstate := Looping | Left.

(** The event loop from a value of [running]: the state of the loop when
    the script ends, the value of [running] then, and the events. *)
Fixpoint event_loop (g : globals) (buffer : list byte) (running : bool)
    (script : list etick) : option (lstate * bool * list event) :=
  if negb running then Some (Left, running, [])
  else
    match script with
    | [] => Some (Looping, running, [])
    | tk :: script' =>
        if console tk then
          Some (Left, false, [EvFlagClear; EvPrintf "Shutting down epoll TCP server..."])
        else if et_nfds tk =? -1 then
          if et_errno tk =? EINTR then event_loop g buffer running script'
          else Some (Left, running, [EvPerror "epoll_wait"])
        else
          evs ← for_each_ready g buffer (take (Z.to_nat (et_nfds tk)) (et_ready tk));
          '(st, r, evs') ← event_loop g buffer running script';
          Some (st, r, evs ++ evs')
    end.

(** An entry the model can follow to the end of its handling: the
    listening socket, or a connection whose reads respect the buffer and end
    with one that brings no data. *)
Definition ready_ok (g : globals) (rd : ready) : Prop :=
  rd_fd rd = listen_fd g
  \/ (Forall (fun x => recv_contract BUFFER_SIZE x.1) (rd_reads rd)
      /\ Exists (fun x => rv_n x.1 <= 0) (rd_reads rd)).

(** The cleanup after the loop. *)
Definition cleanup (g : globals) (epoll_fd : Z) : list event :=
  [EvClose (listen_fd g); EvClose (udp_socket g); EvClose epoll_fd;
   EvPrintf "Epoll-based TCP server stopped."].

(** [main] from its event loop on: the exit status when it returned, the
    final value of [running], and the events. *)
Definition serve (g : globals) (epoll_fd : Z) (buffer : list byte) (script : list etick)
  : option (option Z * bool * list event) :=
  '(st, r, evs) ← event_loop g buffer true script;
  match st with
  | Looping => Some (None, r, evs)
  | Left => Some (Some 0, r, evs ++ cleanup g epoll_fd)
  end.

End Epoll.

(** * tcp_server.c: the accept thread *)

Module Acceptor.

Inductive astate := Accepting | Exited.

(** What one turn of [while (running)] in [accept_thread_func] meets. *)
Record tick := {
  tk_running : bool;          (* running, at the loop test *)
  tk_setsockopt : Z;          (* setsockopt(listen_fd, SO_RCVTIMEO) *)
  tk_malloc : bool;           (* malloc() returned non-null *)
  tk_accept : Z;              (* accept(listen_fd, ...) *)
  tk_errno : Z;
  tk_running_again : bool;    (* running, at [if (running) perror("accept")] *)
  tk_create : Z               (* pthread_create(client_thread) *)
}.

(** One turn of the loop: the next state, the events, and the connection
    handed to a new [client_thread], if any. *)
Definition iterate (g : globals) (tk : tick) : astate * list event * option Z :=
  if negb (tk_running tk) then (Exited, [], None)
  else
    let pre :=
      EvSetsockopt (listen_fd g)
        :: (if tk_setsockopt tk <? 0 then [EvPerror "setsockopt failed in accept thread"] else []) in
    if negb (tk_malloc tk) then (Accepting, pre ++ [EvPerror "malloc"], None)
    else
      let c := tk_accept tk in
      if c <? 0 then
        if would_block (tk_errno tk) then (Accepting, pre ++ [EvAccept c], None)
        else
          (Accepting,
           pre ++ EvAccept c :: (if tk_running_again tk then [EvPerror "accept"] else []),
           None)
      else if negb (tk_create tk =? 0) then
        (Accepting,
         pre ++ [EvAccept c; EvClose c; EvPrintf "Failed to create client thread"],
         None)
      else (Accepting, pre ++ [EvAccept c; EvSpawn c], Some c).

(** [void* accept_thread_func(void* arg)] over the turns of a script: the
    state when the script ends, the events, the connections dispatched. *)
Fixpoint accept_thread_func (g : globals) (script : list tick)
  : astate * list event * list Z :=
  match script with
  | [] => (Accepting, [], [])
  | tk :: script' =>
      let '(st, evs, c) := iterate g tk in
      match st with
      | Accepting =>
          let '(st', evs', cs) := accept_thread_func g script' in
          (st', evs ++ evs', option_list c ++ cs)
      | Exited => (Exited, evs, option_list c)
      end
  end.

(** The turn [tk] with [running] read as [r]. *)
Definition seen (r : bool) (tk : tick) : tick :=
  {| tk_running := r; tk_setsockopt := tk_setsockopt tk; tk_malloc := tk_malloc tk;
     tk_accept := tk_accept tk; tk_errno := tk_errno tk; tk_running_again := r;
     tk_create := tk_create tk |}.

End Acceptor.

(** * tcp_server.c: the threads together *)

(** [main], the accept thread and the client threads share [running], a
    [volatile int] that only [main] writes.  The process is modelled by
    interleaving: a step is one turn of one thread's loop (or one of the
    calls [main] makes after its loop), [running] is read as it stands when
    the step is taken, and the answers of the step's system calls come with
    its label. *)

Module Bridge.

Inductive actor := Main | Accept | Worker (i : nat).

(** Where [main] stands, from "Step 4" on. *)
Inductive mstate := Waiting | Joining | ClosingListen | ClosingUdp | Exited (status : Z).

(** One turn of main's [while (running)] console loop, given [running] and
    the answer of [fgets] ([None] for NULL): the next place of [main], the
    value of [running] afterwards, the events. *)
Definition control (running : bool) (fgets : option string) : mstate * bool * list event :=
  if negb running then (Joining, running, [])
  else
    match fgets with
    | Some input =>
        if is_quit input then
          (Joining, false, [EvFlagClear; EvPrintf "Shutting down TCP server..."])
        else (Waiting, running, [])
    | None => (Waiting, running, [])
    end.

(** A [client_thread]: its connection, its state, its stack buffer. *)
Record worker := { wk_fd : Z; wk_state : Handler.hstate; wk_buffer : list byte }.

(** The process: the shared flag, the place of each thread, and the events
    so far, each with the thread it belongs to. *)
Record world := {
  running : bool;
  main_at : mstate;
  acceptor_at : Acceptor.astate;
  workers : list worker;
  trace : list (actor * event)
}.

Definition initial : world :=
  {| running := true; main_at := Waiting; acceptor_at := Acceptor.Accepting;
     workers := []; trace := [] |}.

(** A step of one thread, with the answers of the calls the step makes. *)
Inductive label :=
  | LMain (fgets : option string)
  | LAccept (tk : Acceptor.tick) (so : Z) (buffer : list byte)
  | LWorker (i : nat) (rx : recv_result) (sr : Z).

Definition tag (a : actor) (evs : list event) : list (actor * event) := map (pair a) evs.

Definition main_step (g : globals) (fgets : option string) (w : world) : option world :=
  match main_at w with
  | Waiting =>
      let '(m, r, evs) := control (running w) fgets in
      Some {| running := r; main_at := m; acceptor_at := acceptor_at w;
              workers := workers w; trace := trace w ++ tag Main evs |}
  | Joining =>
      (* pthread_join returns once the accept thread has returned *)
      match acceptor_at w with
      | Acceptor.Exited =>
          Some {| running := running w; main_at := ClosingListen; acceptor_at := acceptor_at w;
                  workers := workers w; trace := trace w ++ tag Main [EvJoin] |}
      | Acceptor.Accepting => None
      end
  | ClosingListen =>
      Some {| running := running w; main_at := ClosingUdp; acceptor_at := acceptor_at w;
              workers := workers w;
              trace := trace w ++
                tag Main (if 0 <=? listen_fd g then [EvClose (listen_fd g)] else []) |}
  | ClosingUdp =>
      Some {| running := running w; main_at := Exited 0; acceptor_at := acceptor_at w;
              workers := workers w;
              trace := trace w ++
                tag Main [EvClose (udp_socket g); EvPrintf "TCP server stopped."] |}
  | Exited _ => None
  end.

(** The thread started for a dispatched connection, and the events of its
    prologue. *)
Definition started (c : option Z) (buffer : list byte) : list worker :=
  match c with
  | Some fd => [{| wk_fd := fd; wk_state := Handler.Reading; wk_buffer := buffer |}]
  | None => []
  end.
Definition started_events (c : option Z) (i : nat) (so : Z) : list (actor * event) :=
  match c with
  | Some fd => tag (Worker i) (Handler.prologue fd so)
  | None => []
  end.

Definition accept_step (g : globals) (tk : Acceptor.tick) (so : Z) (buffer : list byte)
    (w : world) : option world :=
  match acceptor_at w with
  | Acceptor.Exited => None
  | Acceptor.Accepting =>
      let '(a, evs, c) := Acceptor.iterate g (Acceptor.seen (running w) tk) in
      Some {| running := running w; main_at := main_at w; acceptor_at := a;
              workers := workers w ++ started c buffer;
              trace := trace w ++ tag Accept evs
                         ++ started_events c (length (workers w)) so |}
  end.

Definition worker_step (g : globals) (i : nat) (rx : recv_result) (sr : Z) (w : world)
  : option world :=
  wk ← workers w !! i;
  match wk_state wk with
  | Handler.Reading =>
      let '(st, buffer', evs) :=
        Handler.iterate g (wk_fd wk) (wk_buffer wk)
          {| Handler.tk_running := running w; Handler.tk_recv := rx; Handler.tk_sendto := sr |} in
      Some {| running := running w; main_at := main_at w; acceptor_at := acceptor_at w;
              workers := <[i := {| wk_fd := wk_fd wk; wk_state := st; wk_buffer := buffer' |}]>
                           (workers w);
              trace := trace w ++ tag (Worker i) evs |}
  | Handler.Closing =>
      Some {| running := running w; main_at := main_at w; acceptor_at := acceptor_at w;
              workers := <[i := {| wk_fd := wk_fd wk; wk_state := Handler.Closed;
                                   wk_buffer := wk_buffer wk |}]> (workers w);
              trace := trace w ++ tag (Worker i) (Handler.epilogue (wk_fd wk)) |}
  | Handler.Closed => None
  end.

(** One step of the process; no thread moves once [main] has returned. *)
Definition step (g : globals) (l : label) (w : world) : option world :=
  match main_at w with
  | Exited _ => None
  | _ =>
      match l with
      | LMain fgets => main_step g fgets w
      | LAccept tk so buffer => accept_step g tk so buffer w
      | LWorker i rx sr => worker_step g i rx sr w
      end
  end.

Fixpoint run (g : globals) (ls : list label) (w : world) : option world :=
  match ls with
  | [] => Some w
  | l :: ls' => w' ← step g l w; run g ls' w'
  end.

(** The writes to [running] in a trace. *)
Definition flag_clears (tr : list (actor * event)) : nat :=
  length (filter (fun e => is_flag_clear e.2) tr).

(** The [sendto]s of worker [i] in a trace. *)
Definition is_forward_of (i : nat) (e : actor * event) : bool :=
  match e with
  | (Worker j, EvSendto _ _ _) => Nat.eqb i j
  | _ => false
  end.
Definition forwards_of (i : nat) (tr : list (actor * event)) : nat :=
  length (filter (is_forward_of i) tr).

(** What is left to do for [main] and the accept thread to be done. *)
Definition remaining (w : world) : nat :=
  (match acceptor_at w with Acceptor.Accepting => 1 | Acceptor.Exited => 0 end +
   match main_at w with
   | Waiting => 4 | Joining => 3 | ClosingListen => 2 | ClosingUdp => 1 | Exited _ => 0
   end)%nat.

Definition is_main_or_accept (l : label) : bool :=
  match l with LWorker _ _ _ => false | _ => true end.

(** The events of [main] in a trace. *)
Definition main_events (tr : list (actor * event)) : list event :=
  omap (fun x => match x.1 with Main => Some x.2 | _ => None end) tr.

(** What [main] has done from "Step 4" on when it stands at a place. *)
Definition main_script (g : globals) (m : mstate) : list event :=
  match m with
  | Waiting => []
  | Joining => [EvFlagClear; EvPrintf "Shutting down TCP server..."]
  | ClosingListen => [EvFlagClear; EvPrintf "Shutting down TCP server..."; EvJoin]
  | ClosingUdp =>
      [EvFlagClear; EvPrintf "Shutting down TCP server..."; EvJoin]
        ++ (if 0 <=? listen_fd g then [EvClose (listen_fd g)] else [])
  | Exited _ =>
      [EvFlagClear; EvPrintf "Shutting down TCP server..."; EvJoin]
        ++ (if 0 <=? listen_fd g then [EvClose (listen_fd g)] else [])
        ++ [EvClose (udp_socket g); EvPrintf "TCP server stopped."]
  end.

(** What holds of every world the process can be in. *)
Definition invariant (g : globals) (w : world) : Prop :=
  (running w = true <-> main_at w = Waiting)
  /\ (acceptor_at w = Acceptor.Exited -> running w = false)
  /\ match main_at w with
     | ClosingListen | ClosingUdp | Exited _ => acceptor_at w = Acceptor.Exited
     | _ => True
     end
  /\ (forall s, main_at w = Exited s -> s = 0)
  /\ main_events (trace w) = main_script g (main_at w)
  /\ flag_clears (trace w) = (if running w then 0 else 1)%nat.

(** A turn of the accept thread in which [accept] times out. *)
Definition idle_turn : Acceptor.tick :=
  {| Acceptor.tk_running := true; Acceptor.tk_setsockopt := 0; Acceptor.tk_malloc := true;
     Acceptor.tk_accept := -1; Acceptor.tk_errno := EAGAIN;
     Acceptor.tk_running_again := true; Acceptor.tk_create := 0 |}.

(** The steps of the accept thread and of [main] that are left once
    [running] is false. *)
Definition wind_down (w : world) : list label :=
  match acceptor_at w with
  | Acceptor.Accepting => [LAccept idle_turn 0 []]
  | Acceptor.Exited => []
  end
  ++ repeat (LMain None)
       match main_at w with
       | Waiting => 4 | Joining => 3 | ClosingListen => 2 | ClosingUdp => 1 | Exited _ => 0
       end.

(** The state of worker [i], if there is one. *)
Definition state_of (i : nat) (w : world) : option Handler.hstate :=
  wk_state <$> workers w !! i.

End Bridge.

(** * udp_server.c: the log sink *)

Module Sink.

(** [recvfrom] is given [sizeof(buffer) - 1]. *)
Definition RECV_CAP : nat := (BUFFER_SIZE - 1)%nat.

(** What one [recvfrom] meets: a datagram, or a failure with its [errno]. *)
Inductive arrival := Datagram (d : list byte) | Failure (errno : Z).

(** [recvfrom(sock_fd, buffer, sizeof(buffer) - 1, 0, NULL, NULL)] on a
    datagram: the result and the buffer afterwards.  What does not fit is
    discarded by the socket layer. *)
Definition recvfrom (buffer d : list byte) : Z * list byte :=
  let got := take RECV_CAP d in
  (Z.of_nat (length got), got ++ drop (length got) buffer).

(** The C string a buffer holds: its bytes before the first NUL. *)
Fixpoint c_string (bs : list byte) : list byte :=
  match bs with
  | [] => []
  | b :: bs' => if Byte.eqb b x00 then [] else b :: c_string bs'
  end.

(** [buffer[n] = 0; fprintf(fp, "%s", buffer); fflush(fp);] on the
    unbuffered append-mode stream whose file holds [file]. *)
Definition write_out (buffer file : list byte) (n : Z)
  : list byte * list byte * list event :=
  let buffer' := <[Z.to_nat n := x00]> buffer in
  let out := c_string buffer' in
  (buffer', file ++ out, [EvFwrite out; EvFflush]).

(** One turn of [while (1)] in the plain server. *)
Definition turn (buffer file : list byte) (a : arrival)
  : list byte * list byte * list event :=
  match a with
  | Failure _ => (buffer, file, [EvPerror "recvfrom"])
  | Datagram d =>
      let '(n, buffer') := recvfrom buffer d in
      write_out buffer' file n
  end.

(** The receive loop of the plain server over the arrivals of a script:
    the log file afterwards and the events. *)
Fixpoint udp_server (buffer file : list byte) (script : list arrival)
  : list byte * list event :=
  match script with
  | [] => (file, [])
  | a :: script' =>
      let '(buffer', file', evs) := turn buffer file a in
      let '(file'', evs') := udp_server buffer' file' script' in
      (file'', evs ++ evs')
  end.

Inductive sstate := Receiving | Stopped.

(** What one turn of the threaded server's loop meets: [running] at the two
    places it is tested, and the arrival in between. *)
Record tick := { tk_running : bool; tk_arrival : arrival; tk_running_again : bool }.

(** One turn of [while (1)] in [udp_receive_thread]. *)
Definition receive_turn (buffer file : list byte) (tk : tick)
  : sstate * list byte * list byte * list event :=
  if negb (tk_running tk) then (Stopped, buffer, file, [])
  else
    match tk_arrival tk with
    | Failure errno =>
        if would_block errno then (Receiving, buffer, file, [])
        else (Receiving, buffer, file, [EvPerror "recvfrom"])
    | Datagram d =>
        let '(n, buffer') := recvfrom buffer d in
        if negb (tk_running_again tk) then (Stopped, buffer', file, [])
        else
          let '(buffer'', file', evs) := write_out buffer' file n in
          (Receiving, buffer'', file', evs)
    end.

(** [udp_receive_thread] from its loop on. *)
Fixpoint udp_receive_thread (buffer file : list byte) (script : list tick)
  : sstate * list byte * list event :=
  match script with
  | [] => (Receiving, file, [])
  | tk :: script' =>
      let '(st, buffer', file', evs) := receive_turn buffer file tk in
      match st with
      | Receiving =>
          let '(st', file'', evs') := udp_receive_thread buffer' file' script' in
          (st', file'', evs ++ evs')
      | Stopped => (Stopped, file', evs)
      end
  end.

Definition has_no_nul (d : list byte) : Prop := Forall (fun b => b <> x00) d.

(** What the socket layer hands over of an arrival, and the arrivals
    without a zero byte. *)
Definition received (a : arrival) : list byte :=
  match a with Datagram d => take RECV_CAP d | Failure _ => [] end.
Definition clean (a : arrival) : Prop :=
  match a with Datagram d => has_no_nul d | Failure _ => True end.

End Sink.

(** * Startup of the two bridge servers *)

Module Startup.

Definition USAGE : string := "Usage: %s <tcp_port> <udp_host> <udp_port>".

(** [htons] on a little-endian host, applied to an [int]: the conversion to
    [uint16_t], then the byte swap. *)
Definition htons (x : Z) : Z :=
  let v := x mod 2 ^ 16 in
  Z.lor (Z.shiftl (Z.land v 255) 8) (Z.shiftr v 8).

(** [argv[i]]. *)
Definition arg (argv : list string) (i : nat) : string := default EmptyString (argv !! i).

(** A startup sequence: the events so far, and either the status [main]
    returned with or the value it goes on with. *)
Definition proc (A : Type) : Type := list event * (Z + A).

#[global] Instance proc_ret : MRet proc := fun A (a : A) => ([], inr a).
#[global] Instance proc_bind : MBind proc := fun A B (f : A -> proc B) (m : proc A) =>
  match m with
  | (evs, inl status) => (evs, inl status)
  | (evs, inr a) => let '(evs', r) := f a in (evs ++ evs', r)
  end.

(** The calls [evs], in order. *)
Definition call (evs : list event) : proc unit := (evs, inr tt).

(** The calls [evs], then [return status;] when [failed]. *)
Definition bail (failed : bool) (evs : list event) (status : Z) : proc unit :=
  if failed then (evs, inl status) else mret tt.

(** The answers of the calls [main] makes while it starts. *)
Record answers := {
  an_udp_socket : Z;      (* socket(AF_INET, SOCK_DGRAM, 0) *)
  an_inet_pton : Z;       (* inet_pton(AF_INET, argv[2], ...) *)
  an_addr : Z;            (* the address it parsed *)
  an_epoll_create : Z;    (* epoll_create1(0) *)
  an_listen_socket : Z;   (* socket(AF_INET, SOCK_STREAM, 0) *)
  an_setsockopt : Z;      (* setsockopt(SO_REUSEADDR) *)
  an_bind : Z;
  an_listen : Z;
  an_getfl : Z; an_setfl : Z;   (* the fcntls of set_nonblocking(listen_fd) *)
  an_ctl : Z;             (* epoll_ctl of add_to_epoll(listen_fd) *)
  an_create : Z           (* pthread_create(accept_thread_func) *)
}.

Section WithLibc.

(** The C library's [atoi]. *)
Variable atoi : string -> Z.

(** [main] of tcp_server.c up to the start of the accept thread. *)
Definition tcp_main (argc : Z) (argv : list string) (a : answers) : proc globals :=
  bail (negb (argc =? 4)) [EvPrintf USAGE] 1;;
  let u := an_udp_socket a in
  call [EvSocket u];;
  bail (u <? 0) [EvPerror "UDP socket"] 1;;
  let udp_port := htons (atoi (arg argv 3)) in
  bail (an_inet_pton a <=? 0) [EvPrintf "Invalid UDP host"; EvClose u] 1;;
  let l := an_listen_socket a in
  call [EvSocket l];;
  bail (l <? 0) [EvPerror "TCP socket"; EvClose u] 1;;
  let port := htons (atoi (arg argv 1)) in
  bail (port =? 0) [EvPrintf USAGE; EvClose u; EvClose l] 1;;
  call [EvSetsockopt l; EvBind l];;
  bail (an_bind a <? 0) [EvPerror "bind"; EvClose u; EvClose l] 1;;
  call [EvListen l];;
  bail (an_listen a <? 0) [EvPerror "listen"; EvClose u; EvClose l] 1;;
  call [EvPrintf "TCP server listening on port %s, forwarding to UDP %s:%s";
        EvPrintf "Type 'quit' and press Enter to exit the server gracefully."];;
  bail (negb (an_create a =? 0))
    [EvPerror "pthread_create for accept thread"; EvClose u; EvClose l] 1;;
  mret {| udp_socket := u;
          udp_addr := {| sin_addr := an_addr a; sin_port := udp_port |};
          listen_fd := l |}.

(** [main] of epoll_server.c up to its event loop; it goes on with the
    globals and the epoll descriptor. *)
Definition epoll_main (argc : Z) (argv : list string) (a : answers) : proc (globals * Z) :=
  bail (negb (argc =? 4)) [EvPrintf USAGE] 1;;
  let u := an_udp_socket a in
  call [EvSocket u];;
  bail (u <? 0) [EvPerror "UDP socket"] 1;;
  let udp_port := htons (atoi (arg argv 3)) in
  bail (an_inet_pton a <=? 0) [EvPrintf "Invalid UDP host"; EvClose u] 1;;
  let ep := an_epoll_create a in
  call [EvEpollCreate ep];;
  bail (ep =? -1) [EvPerror "epoll_create1"; EvClose u] 1;;
  let l := an_listen_socket a in
  call [EvSocket l];;
  bail (l <? 0) [EvPerror "TCP socket"; EvClose u; EvClose ep] 1;;
  call [EvSetsockopt l];;
  bail (an_setsockopt a <? 0)
    [EvPerror "setsockopt SO_REUSEADDR"; EvClose u; EvClose ep; EvClose l] 1;;
  let port := htons (atoi (arg argv 1)) in
  bail (port =? 0) [EvPrintf USAGE; EvClose u; EvClose ep; EvClose l] 1;;
  call [EvBind l];;
  bail (an_bind a <? 0) [EvPerror "bind"; EvClose u; EvClose ep; EvClose l] 1;;
  call [EvListen l];;
  bail (an_listen a <? 0) [EvPerror "listen"; EvClose u; EvClose ep; EvClose l] 1;;
  let '(r1, e1) := Epoll.set_nonblocking l (an_getfl a) (an_setfl a) in
  call e1;;
  bail (r1 =? -1) [EvClose u; EvClose ep; EvClose l] 1;;
  let '(r2, e2) := Epoll.add_to_epoll l (an_ctl a) in
  call e2;;
  bail (r2 =? -1) [EvClose u; EvClose ep; EvClose l] 1;;
  call [EvPrintf "Epoll-based TCP server listening on port %s, forwarding to UDP %s:%s";
        EvPrintf "Type 'quit' and press Enter to exit the server gracefully."];;
  mret ({| udp_socket := u;
           udp_addr := {| sin_addr := an_addr a; sin_port := udp_port |};
           listen_fd := l |}, ep).

End WithLibc.

(** [atoi] as the C library of the build has it, [(int) strtol(s, NULL, 10)]:
    leading white space is skipped, then comes an optional sign, then the
    digits; a value outside [long] is clamped to it, and the conversion to
    [int] keeps the low 32 bits. *)
Fixpoint digits (s : string) (acc : Z) : Z :=
  match s with
  | String c s' =>
      let d := Z.of_nat (Ascii.nat_of_ascii c) - 48 in
      if (0 <=? d) && (d <=? 9) then digits s' (10 * acc + d) else acc
  | EmptyString => acc
  end.

(** [isspace] in the C locale: space, and the controls from tab to
    carriage return. *)
Definition is_space (c : ascii) : bool :=
  let n := Z.of_nat (Ascii.nat_of_ascii c) in
  (n =? 32) || ((9 <=? n) && (n <=? 13)).

Fixpoint skip_space (s : string) : string :=
  match s with
  | String c s' => if is_space c then skip_space s' else s
  | EmptyString => s
  end.

Definition LONG_MAX : Z := 2 ^ 63 - 1.
Definition LONG_MIN : Z := - 2 ^ 63.

(** The conversion of a [long] to [int]. *)
Definition to_int (x : Z) : Z := (x + 2 ^ 31) mod 2 ^ 32 - 2 ^ 31.

Definition strtol (s : string) : Z :=
  let v :=
    match skip_space s with
    | String "-"%char s' => - digits s' 0
    | String "+"%char s' => digits s' 0
    | s' => digits s' 0
    end in
  Z.max LONG_MIN (Z.min LONG_MAX v).

Definition atoi_dec (s : string) : Z := to_int (strtol s).

End Startup.

(** * Sample runs *)

Module Samples.

(** The bridge of the README's example: [tcp_server 9999 127.0.0.1 5140]. *)
Definition g0 : globals :=
  {| udp_socket := 3;
     udp_addr := {| sin_addr := 2130706433; sin_port := Startup.htons 5140 |};
     listen_fd := 4 |}.

Definition blank : list byte := repeat x00 BUFFER_SIZE.

Definition data (bs : list byte) : recv_result :=
  {| rv_n := Z.of_nat (length bs); rv_data := bs; rv_errno := 0 |}.
Definition eof : recv_result := {| rv_n := 0; rv_data := []; rv_errno := 0 |}.
Definition failed (errno : Z) : recv_result := {| rv_n := -1; rv_data := []; rv_errno := errno |}.

Definition hel : list byte := [x68; x65; x6c].
Definition lo : list byte := [x6c; x6f].

(** A client sends "hello", which arrives as "hel" and "lo" around a read
    timeout; the first forward fails; then the client disconnects. *)
Definition hello_script : list Handler.tick :=
  [ {| Handler.tk_running := true; Handler.tk_recv := data hel; Handler.tk_sendto := -1 |};
    {| Handler.tk_running := true; Handler.tk_recv := failed EAGAIN; Handler.tk_sendto := 0 |};
    {| Handler.tk_running := true; Handler.tk_recv := data lo; Handler.tk_sendto := 2 |};
    {| Handler.tk_running := true; Handler.tk_recv := eof; Handler.tk_sendto := 0 |} ].

(** The same arrival at the event loop's handler: two chunks, then nothing
    more to read. *)
Definition hello_reads : list (recv_result * Z) :=
  [ (data hel, -1); (data lo, 2); (failed EAGAIN, 0) ].

(** Turns of the accept thread, all with [running] read as true: a timeout,
    an aborted connection, no memory, no thread, and a client. *)
Definition accept_turn (ok : bool) (c errno cr : Z) : Acceptor.tick :=
  {| Acceptor.tk_running := true; Acceptor.tk_setsockopt := 0; Acceptor.tk_malloc := ok;
     Acceptor.tk_accept := c; Acceptor.tk_errno := errno;
     Acceptor.tk_running_again := true; Acceptor.tk_create := cr |}.
Definition ECONNABORTED : Z := 103.
Definition EBADF : Z := 9.
Definition accept_script : list Acceptor.tick :=
  [ accept_turn true (-1) EAGAIN 0;
    accept_turn true (-1) ECONNABORTED 0;
    accept_turn false 0 0 0;
    accept_turn true 7 0 EAGAIN;
    accept_turn true 8 0 0 ].

(** A turn of the event loop with nothing typed, on which [epoll_wait]
    answers [nfds] with [errno] and the entries [rds]. *)
Definition wait_turn (nfds errno : Z) (rds : list Epoll.ready) : Epoll.etick :=
  {| Epoll.et_select := 0; Epoll.et_isset := false; Epoll.et_fgets := None;
     Epoll.et_nfds := nfds; Epoll.et_errno := errno; Epoll.et_ready := rds |}.

(** A turn on which the operator has typed [line]. *)
Definition typed_turn (line : string) : Epoll.etick :=
  {| Epoll.et_select := 1; Epoll.et_isset := true; Epoll.et_fgets := Some line;
     Epoll.et_nfds := 0; Epoll.et_errno := 0; Epoll.et_ready := [] |}.

(** The listening socket is ready and [accept] answers [c]. *)
Definition incoming (c : Z) : Epoll.ready :=
  {| Epoll.rd_fd := 4; Epoll.rd_accept := c; Epoll.rd_getfl := 2; Epoll.rd_setfl := 0;
     Epoll.rd_ctl := 0; Epoll.rd_reads := [] |}.

(** The connection [fd] is ready and its reads are [reads]. *)
Definition readable (fd : Z) (reads : list (recv_result * Z)) : Epoll.ready :=
  {| Epoll.rd_fd := fd; Epoll.rd_accept := 0; Epoll.rd_getfl := 0; Epoll.rd_setfl := 0;
     Epoll.rd_ctl := 0; Epoll.rd_reads := reads |}.

(** A buffer of [n] copies of the letter a. *)
Definition letters (n : nat) : list byte := repeat x61 n.

(** The answers of a startup in which every call succeeds. *)
Definition all_well : Startup.answers :=
  {| Startup.an_udp_socket := 3; Startup.an_inet_pton := 1; Startup.an_addr := 2130706433;
     Startup.an_epoll_create := 5; Startup.an_listen_socket := 4;
     Startup.an_setsockopt := 0; Startup.an_bind := 0; Startup.an_listen := 0;
     Startup.an_getfl := 2; Startup.an_setfl := 0; Startup.an_ctl := 0;
     Startup.an_create := 0 |}.

Definition newline : string := String (Ascii.ascii_of_nat 10) EmptyString.

(** A run of the threaded bridge: a client connects and sends "hel"; the
    operator types a line that is not a command, then "quit"; the worker
    and the accept thread each come round to their loop test; [main] joins,
    the worker closes, [main] closes both sockets and returns. *)
Definition quit_schedule : list Bridge.label :=
  [ Bridge.LAccept (accept_turn true 7 0 0) 0 blank;
    Bridge.LWorker 0 (data hel) 3;
    Bridge.LMain (Some ("status" ++ newline)%string);
    Bridge.LMain (Some ("quit" ++ newline)%string);
    Bridge.LWorker 0 (data lo) 2;
    Bridge.LAccept (accept_turn true 8 0 0) 0 blank;
    Bridge.LMain (Some ("quit" ++ newline)%string);
    Bridge.LWorker 0 (data lo) 2;
    Bridge.LMain None;
    Bridge.LMain None ].

Definition after_quit : Bridge.world :=
  Eval vm_compute in default Bridge.initial (Bridge.run g0 quit_schedule Bridge.initial).

(** A run of the event loop: a client connects and sends "hello", then
    "quit" is typed. *)
Definition quit_turns : list Epoll.etick :=
  [ wait_turn 1 0 [incoming 7];
    wait_turn 1 0 [readable 7 hello_reads];
    typed_turn ("quit" ++ newline)%string ].

End Samples.

(** * What the handlers are to forward *)

Module Expected.

(** From the spec's words (sections 4.2 and 4.3), on the turns of a
    connection alone: every read that returns [n > 0] bytes is one forward
    of those bytes; a read that times out is followed by the next read; the
    first turn that reads the shutdown flag as false, meets the end of the
    stream or a read error that is no timeout ends the connection. *)
Fixpoint forwards (script : list Handler.tick) : list (list byte) :=
  match script with
  | [] => []
  | tk :: rest =>
      let r := Handler.tk_recv tk in
      if negb (Handler.tk_running tk) then []
      else if 0 <? rv_n r then rv_data r :: forwards rest
      else if (rv_n r <? 0) && would_block (rv_errno r) then forwards rest
      else []
  end.

(** The same for one readiness of a connection in the event loop, which
    reads until a read brings no data. *)
Fixpoint forwards_ready (reads : list (recv_result * Z)) : list (list byte) :=
  match reads with
  | [] => []
  | (r, _) :: rest => if 0 <? rv_n r then rv_data r :: forwards_ready rest else []
  end.

End Expected.

(** * A rough day at the event loop *)

Module Rough.

Definition ECONNRESET : Z := 104.

(** Turns of the event loop: an [accept] that fails, a client that
    connects, an [epoll_wait] interrupted by a signal, the client's
    connection reset, and then "quit". *)
Definition turns : list Epoll.etick :=
  [ Samples.wait_turn 1 0 [Samples.incoming (-1)];
    Samples.wait_turn 1 0 [Samples.incoming 7];
    Samples.wait_turn (-1) EINTR [];
    Samples.wait_turn 1 0 [Samples.readable 7 [(Samples.failed ECONNRESET, 0)]];
    Samples.typed_turn ("quit" ++ Samples.newline)%string ].

End Rough.

(** * More of the sources *)

(** ** A stream socket that keeps what it is given *)

Module Delivery.

(** The peer's side of a connection: how many [send] calls it has seen and
    the bytes it has taken so far. *)
Record wire := { calls : nat; taken : list byte }.

(** [send] on such a socket: at its [k]-th call it takes [policy k size] of
    the [size] bytes it is offered, from the front; an answer [<= 0] is a
    failed call that took nothing. *)
Definition send_wire (policy : nat -> Z -> Z) (t : wire) (w : list byte) (size : Z)
  : Z * wire :=
  let n := policy (calls t) size in
  (n, {| calls := S (calls t);
         taken := taken t ++ (if 0 <? n then take (Z.to_nat n) w else []) |}).

(** The policy never takes more than it is offered. *)
Definition policy_contract (policy : nat -> Z -> Z) : Prop :=
  forall k size, 0 <= size -> policy k size <= size.

(** Four bytes at the first call and every second call after it, one byte
    at the others. *)
Definition four_then_one (k : nat) (size : Z) : Z :=
  Z.min size (if Nat.even k then 4 else 1).

(** Three bytes once, then the connection is reset. *)
Definition three_then_reset (k : nat) (size : Z) : Z :=
  match k with O => Z.min size 3 | _ => -1 end.

Definition fresh : wire := {| calls := 0; taken := [] |}.

End Delivery.

(** ** The log sink: what reaches the file *)

Module SinkLog.
Import Sink.

(** The bytes a turn of the sink writes for an arrival. *)
Definition logged (a : arrival) : list byte :=
  match a with
  | Datagram d => c_string (take RECV_CAP d)
  | Failure _ => []
  end.

(** The events of a turn of the plain sink. *)
Definition reported (a : arrival) : list event :=
  match a with
  | Datagram _ => [EvFwrite (logged a); EvFflush]
  | Failure _ => [EvPerror "recvfrom"]
  end.

(** The turns of the threaded sink in which [running] is read as true at
    both places. *)
Definition always_running (script : list arrival) : list tick :=
  map (fun a => {| tk_running := true; tk_arrival := a; tk_running_again := true |}) script.

(** The turns in which the receive thread leaves its loop: [running] is
    false at the top, or a datagram has come and [running] is false at the
    test before the write. *)
Definition stops (tk : tick) : bool :=
  negb (tk_running tk)
  || match tk_arrival tk with
     | Datagram _ => negb (tk_running_again tk)
     | Failure _ => false
     end.

(** The arrivals of the turns before the thread leaves its loop. *)
Fixpoint before_stop (script : list tick) : list arrival :=
  match script with
  | [] => []
  | tk :: script' => if stops tk then [] else tk_arrival tk :: before_stop script'
  end.

End SinkLog.

(** ** The console: reading the operator's input *)

Module Console.

(** [char input[10]]. *)
Definition INPUT_SIZE : nat := 10.

Definition newline_char : ascii := Ascii.ascii_of_nat 10.

(** Up to [k] characters of [s], stopping behind the first newline, and
    what is left of [s]. *)
Fixpoint read_line (k : nat) (s : string) : string * string :=
  match k, s with
  | S k', String c s' =>
      if Ascii.eqb c newline_char then (String c EmptyString, s')
      else let '(l, r) := read_line k' s' in (String c l, r)
  | _, _ => (EmptyString, s)
  end.

(** [fgets(input, size, stdin)] on what is left of the input: at most
    [size - 1] characters, [None] (NULL) at the end of the input. *)
Definition fgets (size : nat) (stdin : string) : option (string * string) :=
  match stdin with
  | EmptyString => None
  | _ => Some (read_line (size - 1) stdin)
  end.

(** How the console loop of [main] stands: left by ["quit"], with the
    input not read yet, or still waiting. *)
Inductive outcome := Quit (unread : string) | Waiting (unread : string).

(** [while (running) { if (fgets(input, sizeof(input), stdin)) { if
    (strncmp(input, "quit", 4) == 0) { running = 0; ...; break; } } }]
    followed for [fuel] turns.  At the end of the input [fgets] answers
    NULL and the loop takes its next turn. *)
Fixpoint console_loop (fuel : nat) (stdin : string) : outcome :=
  match fuel with
  | O => Waiting stdin
  | S fuel' =>
      match fgets INPUT_SIZE stdin with
      | Some (input, rest) =>
          if is_quit input then Quit rest else console_loop fuel' rest
      | None => console_loop fuel' stdin
      end
  end.

(** The pieces [fgets] cuts an input into, call after call. *)
Fixpoint pieces_upto (fuel : nat) (stdin : string) : list string :=
  match fuel with
  | O => []
  | S fuel' =>
      match fgets INPUT_SIZE stdin with
      | Some (input, rest) => input :: pieces_upto fuel' rest
      | None => []
      end
  end.
Definition pieces (stdin : string) : list string :=
  pieces_upto (String.length stdin) stdin.

Definition join (ls : list string) : string := fold_right String.append EmptyString ls.

(** The pieces before the first one that is the quit command. *)
Fixpoint until_quit (ls : list string) : option (list string * list string) :=
  match ls with
  | [] => None
  | l :: ls' =>
      if is_quit l then Some ([], ls')
      else
        match until_quit ls' with
        | Some (pre, post) => Some (l :: pre, post)
        | None => None
        end
  end.

(** The console loop on the pieces it is going to read. *)
Fixpoint loop_on (fuel : nat) (ls : list string) : outcome :=
  match fuel with
  | O => Waiting (join ls)
  | S fuel' =>
      match ls with
      | [] => loop_on fuel' []
      | l :: ls' => if is_quit l then Quit (join ls') else loop_on fuel' ls'
      end
  end.

Fixpoint has_newline (s : string) : bool :=
  match s with
  | EmptyString => false
  | String c s' => Ascii.eqb c newline_char || has_newline s'
  end.

End Console.

(** ** Descriptors held while starting *)

Module Descriptors.

(** The descriptors the calls of [evs] handed out, in order: the answers
    of [socket] and [epoll_create1] that are not failures. *)
Definition opened (evs : list event) : list Z :=
  omap (fun e =>
          match e with
          | EvSocket fd | EvEpollCreate fd => if 0 <=? fd then Some fd else None
          | _ => None
          end) evs.

(** The descriptors [evs] gave back with [close], in order. *)
Definition closed (evs : list event) : list Z :=
  omap (fun e => match e with EvClose fd => Some fd | _ => None end) evs.

End Descriptors.
(** ** Connections and who closes them *)

Module Connections.

(** The connections [accept] handed out in [evs], in order. *)
Definition accepted (evs : list event) : list Z :=
  omap (fun e => match e with EvAccept c => if 0 <=? c then Some c else None | _ => None end)
    evs.

(** The connections given to a new thread in [evs]. *)
Definition spawned (evs : list event) : list Z :=
  omap (fun e => match e with EvSpawn c => Some c | _ => None end) evs.

(** The connections given to a new thread or closed in [evs]. *)
Definition settled (evs : list event) : list Z :=
  omap (fun e => match e with EvSpawn c | EvClose c => Some c | _ => None end) evs.

(** [at_once pending evs]: in [evs], every [accept] that hands out a
    connection is followed at once by the start of a thread for that
    connection or by its close, and no thread is started and nothing is
    closed anywhere else; [pending] is the connection accepted last and not
    yet settled. *)
Fixpoint at_once (pending : option Z) (evs : list event) : Prop :=
  match evs with
  | [] => pending = None
  | e :: rest =>
      match pending with
      | Some c =>
          match e with
          | EvSpawn c' | EvClose c' => c' = c /\ at_once None rest
          | _ => False
          end
      | None =>
          match e with
          | EvAccept c => at_once (if 0 <=? c then Some c else None) rest
          | EvSpawn _ | EvClose _ => False
          | _ => at_once None rest
          end
      end
  end.

Definition actor_eqb (a b : Bridge.actor) : bool :=
  match a, b with
  | Bridge.Main, Bridge.Main | Bridge.Accept, Bridge.Accept => true
  | Bridge.Worker i, Bridge.Worker j => Nat.eqb i j
  | _, _ => false
  end.

(** The events of one thread in a trace. *)
Definition events_of (a : Bridge.actor) (tr : list (Bridge.actor * event)) : list event :=
  omap (fun x => if actor_eqb x.1 a then Some x.2 else None) tr.

(** What worker [i] has closed if it did what it should: its connection
    once it has returned, nothing before. *)
Definition closed_by (i : nat) (w : Bridge.world) : list Z :=
  match Bridge.workers w !! i with
  | Some wk =>
      match Bridge.wk_state wk with
      | Handler.Closed => [Bridge.wk_fd wk]
      | _ => []
      end
  | None => []
  end.

(** What is kept of the connections along a run. *)
Definition accounted (w : Bridge.world) : Prop :=
  Bridge.wk_fd <$> Bridge.workers w = spawned (events_of Bridge.Accept (Bridge.trace w))
  /\ accepted (events_of Bridge.Accept (Bridge.trace w))
     = settled (events_of Bridge.Accept (Bridge.trace w))
  /\ forall i, Descriptors.closed (events_of (Bridge.Worker i) (Bridge.trace w)) = closed_by i w.

End Connections.

(** ** The test client *)

Module Client.
Import SendAll Delivery.

(** [char buf[10000]]. *)
Definition BUF_SIZE : nat := (100 * 100)%nat.

Definition USAGE : string := "Usage:  %s tcp <host> <port> <message>  %s udp <host> <port> <message>".
Definition USAGE_PORT : string := "Usage: %s <udp_port> <log_file>".
Definition MSG_MODE : string := "Invalid mode: %s (must be 'tcp' or 'udp')".

(** The calls of the client: those the servers make too, and [connect]. *)
Inductive call :=
  | Sys (e : event)
  | Connect (fd : Z) (dest : sockaddr_in).

(** The calls of a trace that the servers make too. *)
Definition sys (cs : list call) : list event :=
  omap (fun c => match c with Sys e => Some e | Connect _ _ => None end) cs.

(** The answers of the calls [main] makes. *)
Record answers := {
  an_inet_pton : Z;
  an_addr : Z;        (* the address it parsed *)
  an_socket : Z;
  an_connect : Z;
  an_sendto : Z
}.

(** What [snprintf(buf, sizeof(buf), ...)] leaves in [buf] of the line its
    format yields: at most [sizeof(buf) - 1] characters of it. *)
Definition snprintf (line : list byte) : list byte := take (BUF_SIZE - 1) line.

(** [strlen]. *)
Definition strlen (buf : list byte) : Z := Z.of_nat (length (Sink.c_string buf)).

Section WithLibc.

(** The C library's [atoi]. *)
Variable atoi : string -> Z.

(** How the peer takes the bytes of a stream, call by call. *)
Variable policy : nat -> Z -> Z.

(** [main] of test_client.c; [line] is the formatted log line, [t] the
    peer's side of the connection; the result is the exit status, the
    calls, and the peer's side afterwards. *)
Definition main (fuel : nat) (argc : Z) (argv : list string) (line : list byte)
    (a : answers) (t : wire) : option (Z * list call * wire) :=
  if argc <? 5 then Some (1, [Sys (EvPrintf USAGE)], t)
  else
    let mode := Startup.arg argv 1 in
    let port := atoi (Startup.arg argv 3) in
    let buf := snprintf line in
    let msg_len := strlen buf in
    let addr := {| sin_addr := an_addr a; sin_port := Startup.htons port |} in
    if sin_port addr =? 0 then Some (1, [Sys (EvPrintf USAGE_PORT)], t)
    else if an_inet_pton a <=? 0 then Some (1, [Sys (EvPrintf "Invalid host")], t)
    else if String.eqb mode "tcp" then
      let fd := an_socket a in
      if fd <? 0 then Some (1, [Sys (EvSocket fd); Sys (EvPerror "TCP socket")], t)
      else if an_connect a <? 0 then
        Some (1, [Sys (EvSocket fd); Connect fd addr; Sys (EvPerror "connect");
                  Sys (EvClose fd)], t)
      else
        o ← send_all (send_wire policy) fuel (Some buf) (to_unsigned msg_len) t;
        if negb (ret o =? 0) then
          Some (1,
                [Sys (EvSocket fd); Connect fd addr] ++ map Sys (events o)
                  ++ [Sys (EvPrintf "Failed to send TCP message"); Sys (EvClose fd)],
                after o)
        else
          Some (0,
                [Sys (EvSocket fd); Connect fd addr] ++ map Sys (events o)
                  ++ [Sys (EvClose fd); Sys (EvPrintf "TCP message sent to %s:%d")],
                after o)
    else if String.eqb mode "udp" then
      let fd := an_socket a in
      let datagram := EvSendto fd (take (Z.to_nat msg_len) buf) addr in
      if fd <? 0 then Some (1, [Sys (EvSocket fd); Sys (EvPerror "UDP socket")], t)
      else if an_sendto a <? 0 then
        Some (1, [Sys (EvSocket fd); Sys datagram; Sys (EvPerror "sendto");
                  Sys (EvClose fd)], t)
      else
        Some (0, [Sys (EvSocket fd); Sys datagram; Sys (EvClose fd);
                  Sys (EvPrintf "UDP message sent to %s:%d")], t)
    else Some (1, [Sys (EvPrintf MSG_MODE)], t).

End WithLibc.

(** The datagrams of a trace. *)
Definition datagrams (evs : list event) : list (list byte) :=
  omap (fun e => match e with EvSendto _ p _ => Some p | _ => None end) evs.

(** A log line as the client formats it, here for the message "hi". *)
Definition sample_line : list byte :=
  [x5b; x32; x30; x32; x34; x5d; x5b; x68; x69; x5d; x0a].

Definition sample_answers : answers :=
  {| an_inet_pton := 1; an_addr := 2130706433; an_socket := 3; an_connect := 0;
     an_sendto := 11 |}.

End Client.

(** ** The log sink: startup and shutdown *)

Module SinkMain.

Definition USAGE : string := "Usage: %s <udp_port> <log_file>".

(** The calls of the sink's [main]: those the bridge makes too, and those
    on the log stream and on the thread's argument. *)
Inductive call :=
  | Sys (e : event)
  | Fopen (path : string)
  | Setbuf
  | Fclose
  | Malloc
  | Free.

(** The calls of a trace that the bridge makes too. *)
Definition sys (cs : list call) : list event :=
  omap (fun c => match c with Sys e => Some e | _ => None end) cs.

Definition count (p : call -> bool) (cs : list call) : nat := length (List.filter p cs).
Definition is_fopen (c : call) : bool := match c with Fopen _ => true | _ => false end.
Definition is_fclose (c : call) : bool := match c with Fclose => true | _ => false end.
Definition is_malloc (c : call) : bool := match c with Malloc => true | _ => false end.
Definition is_free (c : call) : bool := match c with Free => true | _ => false end.

(** The answers of the calls [main] makes while it starts. *)
Record answers := {
  an_socket : Z;
  an_bind : Z;
  an_fopen : bool;     (* fopen() returned non-null *)
  an_malloc : bool;    (* malloc() returned non-null *)
  an_create : Z        (* pthread_create(udp_receive_thread) *)
}.

Section WithLibc.

(** The C library's [atoi]. *)
Variable atoi : string -> Z.

(** [main] of udp_server.c, the plain server, up to its receive loop: the
    calls, and the status it returned with, or [None] when it went into
    the loop. *)
Definition plain_main (argc : Z) (argv : list string) (a : answers)
  : list call * option Z :=
  let fd := an_socket a in
  if negb (argc =? 3) then ([Sys (EvPrintf USAGE)], Some 1)
  else if fd <? 0 then ([Sys (EvSocket fd); Sys (EvPerror "socket")], Some 1)
  else if Startup.htons (atoi (Startup.arg argv 1)) =? 0 then
    ([Sys (EvSocket fd); Sys (EvPrintf USAGE)], Some 1)
  else if an_bind a <? 0 then
    ([Sys (EvSocket fd); Sys (EvBind fd); Sys (EvPerror "bind"); Sys (EvClose fd)], Some 1)
  else if negb (an_fopen a) then
    ([Sys (EvSocket fd); Sys (EvBind fd); Fopen (Startup.arg argv 2);
      Sys (EvPerror "fopen"); Sys (EvClose fd)], Some 1)
  else
    ([Sys (EvSocket fd); Sys (EvBind fd); Fopen (Startup.arg argv 2); Setbuf;
      Sys (EvPrintf "UDP server listening on port %s, writing to %s")], None).

(** [main] of the threaded udp_server.c up to the start of its receive
    thread. *)
Definition threaded_main (argc : Z) (argv : list string) (a : answers)
  : list call * option Z :=
  let fd := an_socket a in
  if negb (argc =? 3) then ([Sys (EvPrintf USAGE)], Some 1)
  else if fd <? 0 then ([Sys (EvSocket fd); Sys (EvPerror "socket")], Some 1)
  else if Startup.htons (atoi (Startup.arg argv 1)) =? 0 then
    ([Sys (EvSocket fd); Sys (EvPrintf USAGE); Sys (EvClose fd)], Some 1)
  else if an_bind a <? 0 then
    ([Sys (EvSocket fd); Sys (EvBind fd); Sys (EvPerror "bind"); Sys (EvClose fd)], Some 1)
  else if negb (an_fopen a) then
    ([Sys (EvSocket fd); Sys (EvBind fd); Fopen (Startup.arg argv 2);
      Sys (EvPerror "fopen"); Sys (EvClose fd)], Some 1)
  else
    let opened :=
      [Sys (EvSocket fd); Sys (EvBind fd); Fopen (Startup.arg argv 2); Setbuf;
       Sys (EvPrintf "UDP server listening on port %s, writing to %s");
       Sys (EvPrintf "Type 'quit' and press Enter to exit the server gracefully.")] in
    if negb (an_malloc a) then
      (opened ++ [Malloc; Sys (EvPerror "malloc"); Fclose; Sys (EvClose fd)], Some 1)
    else if negb (an_create a =? 0) then
      (opened ++ [Malloc; Sys (EvPerror "pthread_create"); Fclose; Sys (EvClose fd); Free],
       Some 1)
    else (opened ++ [Malloc; Sys (EvSpawn fd)], None).

End WithLibc.

(** A failed [fopen] opens nothing, a failed [malloc] allocates nothing. *)
Definition streams_opened (a : answers) (cs : list call) : nat :=
  if an_fopen a then count is_fopen cs else 0%nat.
Definition blocks_allocated (a : answers) (cs : list call) : nat :=
  if an_malloc a then count is_malloc cs else 0%nat.

Definition all_well : answers :=
  {| an_socket := 3; an_bind := 0; an_fopen := true; an_malloc := true; an_create := 0 |}.

End SinkMain.
(** ** The threaded sink as a process of two threads *)

Module SinkWorld.
Import SinkMain.

Inductive actor := Main | Receiver.

(** Where [main] stands once the receive thread is started. *)
Inductive mstate := Waiting | Joining | ClosingFile | ClosingSocket | Exited (status : Z).

(** Where [udp_receive_thread] stands: before its [setsockopt], at the
    test at the top of its loop, at the test before the write with a
    datagram of [n] bytes in its buffer, past that test and before
    [buffer[n] = 0; fprintf; fflush], or returned. *)
Inductive tstate := Starting | Testing | Holding (n : Z) | Writing (n : Z) | Returned.

(** The process: the shared flag, the place of each thread, the thread's
    buffer, the content of the log file, and the calls so far. *)
Record world := {
  running : bool;
  main_at : mstate;
  thread_at : tstate;
  buffer : list byte;
  file : list byte;
  trace : list (actor * call)
}.

Definition initial (buffer file : list byte) : world :=
  {| running := true; main_at := Waiting; thread_at := Starting;
     buffer := buffer; file := file; trace := [] |}.

(** A step of one thread, with the answers of the calls the step may make:
    for [main] that of [fgets], for the receive thread those of
    [setsockopt] and [recvfrom]. *)
Inductive label :=
  | LMain (fgets : option string)
  | LReceiver (so : Z) (a : Sink.arrival).

Definition tag (a : actor) (cs : list call) : list (actor * call) := map (pair a) cs.

(** One turn of main's [while (running)] console loop. *)
Definition control (running : bool) (fgets : option string) : mstate * bool * list call :=
  if negb running then (Joining, running, [])
  else
    match fgets with
    | Some input =>
        if is_quit input then
          (Joining, false, [Sys EvFlagClear; Sys (EvPrintf "Shutting down UDP server...")])
        else (Waiting, running, [])
    | None => (Waiting, running, [])
    end.

Definition main_step (fd : Z) (fgets : option string) (w : world) : option world :=
  match main_at w with
  | Waiting =>
      let '(m, r, cs) := control (running w) fgets in
      Some {| running := r; main_at := m; thread_at := thread_at w; buffer := buffer w;
              file := file w; trace := trace w ++ tag Main cs |}
  | Joining =>
      (* pthread_join returns once the receive thread has returned *)
      match thread_at w with
      | Returned =>
          Some {| running := running w; main_at := ClosingFile; thread_at := thread_at w;
                  buffer := buffer w; file := file w;
                  trace := trace w ++ tag Main [Sys EvJoin] |}
      | _ => None
      end
  | ClosingFile =>
      Some {| running := running w; main_at := ClosingSocket; thread_at := thread_at w;
              buffer := buffer w; file := file w; trace := trace w ++ tag Main [Fclose] |}
  | ClosingSocket =>
      Some {| running := running w; main_at := Exited 0; thread_at := thread_at w;
              buffer := buffer w; file := file w;
              trace := trace w ++ tag Main [Sys (EvClose fd);
                                            Sys (EvPrintf "UDP server stopped.")] |}
  | Exited _ => None
  end.

Definition receiver_step (fd so : Z) (a : Sink.arrival) (w : world) : option world :=
  match thread_at w with
  | Starting =>
      Some {| running := running w; main_at := main_at w;
              thread_at := if so <? 0 then Returned else Testing;
              buffer := buffer w; file := file w;
              trace := trace w ++ tag Receiver
                         ([Free; Sys (EvSetsockopt fd)]
                            ++ if so <? 0 then [Sys (EvPerror "setsockopt failed")] else []) |}
  | Testing =>
      if negb (running w) then
        Some {| running := running w; main_at := main_at w; thread_at := Returned;
                buffer := buffer w; file := file w; trace := trace w |}
      else
        match a with
        | Sink.Failure errno =>
            Some {| running := running w; main_at := main_at w; thread_at := Testing;
                    buffer := buffer w; file := file w;
                    trace := trace w ++ tag Receiver
                               (if would_block errno then []
                                else [Sys (EvPerror "recvfrom")]) |}
        | Sink.Datagram d =>
            let '(n, buffer') := Sink.recvfrom (buffer w) d in
            Some {| running := running w; main_at := main_at w; thread_at := Holding n;
                    buffer := buffer'; file := file w; trace := trace w |}
        end
  | Holding n =>
      (* the second test of the flag; [main] may clear it before the write *)
      Some {| running := running w; main_at := main_at w;
              thread_at := if negb (running w) then Returned else Writing n;
              buffer := buffer w; file := file w; trace := trace w |}
  | Writing n =>
      let '(buffer', file', evs) := Sink.write_out (buffer w) (file w) n in
      Some {| running := running w; main_at := main_at w; thread_at := Testing;
              buffer := buffer'; file := file';
              trace := trace w ++ tag Receiver (map Sys evs) |}
  | Returned => None
  end.

(** What the receive thread is about to write: the datagram it holds once
    it is past the second test of the flag. *)
Definition pending (w : world) : list byte :=
  match thread_at w with
  | Writing n => Sink.c_string (<[Z.to_nat n := x00]> (buffer w))
  | _ => []
  end.

(** One step of the process; no thread moves once [main] has returned. *)
Definition step (fd : Z) (l : label) (w : world) : option world :=
  match main_at w with
  | Exited _ => None
  | _ =>
      match l with
      | LMain fgets => main_step fd fgets w
      | LReceiver so a => receiver_step fd so a w
      end
  end.

Fixpoint run (fd : Z) (ls : list label) (w : world) : option world :=
  match ls with
  | [] => Some w
  | l :: ls' => w' ← step fd l w; run fd ls' w'
  end.

(** Is the log stream written to, or flushed, after [fclose]?  [closed]
    tells whether it has been closed before the calls [cs]. *)
Fixpoint use_after_close (closed : bool) (cs : list call) : bool :=
  match cs with
  | [] => false
  | Fclose :: cs' => use_after_close true cs'
  | Sys (EvFwrite _) :: cs' | Sys EvFflush :: cs' => closed || use_after_close closed cs'
  | _ :: cs' => use_after_close closed cs'
  end.

(** The calls of [main] in a trace. *)
Definition main_calls (tr : list (actor * call)) : list call :=
  omap (fun x => match x.1 with Main => Some x.2 | Receiver => None end) tr.

(** The bytes handed to the log stream in a trace. *)
Definition written (tr : list (actor * call)) : list byte :=
  concat (omap (fun x => match x.2 with Sys (EvFwrite d) => Some d | _ => None end) tr).

(** What [main] has done since the thread started when it stands at a
    place. *)
Definition main_script (fd : Z) (m : mstate) : list call :=
  match m with
  | Waiting => []
  | Joining => [Sys EvFlagClear; Sys (EvPrintf "Shutting down UDP server...")]
  | ClosingFile =>
      [Sys EvFlagClear; Sys (EvPrintf "Shutting down UDP server..."); Sys EvJoin]
  | ClosingSocket =>
      [Sys EvFlagClear; Sys (EvPrintf "Shutting down UDP server..."); Sys EvJoin; Fclose]
  | Exited _ =>
      [Sys EvFlagClear; Sys (EvPrintf "Shutting down UDP server..."); Sys EvJoin; Fclose;
       Sys (EvClose fd); Sys (EvPrintf "UDP server stopped.")]
  end.

Definition stream_closed (m : mstate) : bool :=
  match m with ClosingSocket | Exited _ => true | _ => false end.

(** What holds of every world the process can be in. *)
Definition invariant (fd : Z) (file0 : list byte) (w : world) : Prop :=
  (running w = true <-> main_at w = Waiting)
  /\ match main_at w with
     | ClosingFile | ClosingSocket | Exited _ => thread_at w = Returned
     | _ => True
     end
  /\ (forall s, main_at w = Exited s -> s = 0)
  /\ main_calls (trace w) = main_script fd (main_at w)
  /\ existsb is_fclose (snd <$> trace w) = stream_closed (main_at w)
  /\ use_after_close false (snd <$> trace w) = false
  /\ file w = file0 ++ written (trace w).

(** The steps that are left once [running] is false: the receive thread
    comes to its next test, after the write if it was about to write,
    [main] joins it, closes and returns. *)
Definition wind_down (w : world) : list label :=
  match thread_at w with
  | Starting | Writing _ =>
      [LReceiver 0 (Sink.Failure EAGAIN); LReceiver 0 (Sink.Failure EAGAIN)]
  | Testing | Holding _ => [LReceiver 0 (Sink.Failure EAGAIN)]
  | Returned => []
  end
  ++ repeat (LMain None)
       match main_at w with
       | Waiting => 4 | Joining => 3 | ClosingFile => 2 | ClosingSocket => 1 | Exited _ => 0
       end.

(** A run of the sink: the thread starts, a datagram is logged, a second
    one has been received when the operator types "quit", and is dropped
    at the second test of the flag. *)
Definition quit_schedule : list label :=
  [ LReceiver 0 (Sink.Failure EAGAIN);
    LReceiver 0 (Sink.Datagram Samples.hel);
    LReceiver 0 (Sink.Failure EAGAIN);
    LReceiver 0 (Sink.Failure EAGAIN);
    LReceiver 0 (Sink.Datagram Samples.lo);
    LMain (Some ("quit" ++ Samples.newline)%string);
    LReceiver 0 (Sink.Failure EAGAIN);
    LMain None; LMain None; LMain None ].

Definition after_quit : world :=
  Eval vm_compute in
    default (initial Samples.blank []) (run 3 quit_schedule (initial Samples.blank [])).

(** Another run: "quit" is typed when the thread is past its second test
    with a datagram; the datagram is logged all the same. *)
Definition late_quit_schedule : list label :=
  [ LReceiver 0 (Sink.Failure EAGAIN);
    LReceiver 0 (Sink.Datagram Samples.hel);
    LReceiver 0 (Sink.Failure EAGAIN);
    LMain (Some ("quit" ++ Samples.newline)%string);
    LReceiver 0 (Sink.Failure EAGAIN);
    LReceiver 0 (Sink.Failure EAGAIN);
    LMain None; LMain None; LMain None ].

(** That run at the moment "quit" has been typed, and at its end. *)
Definition at_late_quit : world :=
  Eval vm_compute in
    default (initial Samples.blank [])
      (run 3 (take 4 late_quit_schedule) (initial Samples.blank [])).
Definition after_late_quit : world :=
  Eval vm_compute in
    default (initial Samples.blank [])
      (run 3 late_quit_schedule (initial Samples.blank [])).

End SinkWorld.

(** ** The first tcp_server.c: no flag, no timeouts *)

Module Legacy.

(** The read loop of the first [client_thread]: [while (1)], left when
    [recv] answers zero or less.  The script gives, turn by turn, the
    answer of [recv] and the result of [sendto]; the state is [Reading]
    when the script ends with the loop still running. *)
Fixpoint read_loop (g : globals) (fd : Z) (buffer : list byte)
    (script : list (recv_result * Z)) : Handler.hstate * list event :=
  match script with
  | [] => (Handler.Reading, [])
  | (r, sr) :: script' =>
      let n := rv_n r in
      let buffer' := recv_into buffer r in
      let ev := EvRecv fd n (rv_data r) in
      if n <=? 0 then (Handler.Closing, [ev])
      else
        let '(st, evs) := read_loop g fd buffer' script' in
        (st, (ev :: forward g buffer' n sr) ++ evs)
  end.

(** The first [void* client_thread(void* arg)]. *)
Definition client_thread (g : globals) (fd : Z) (buffer : list byte)
    (script : list (recv_result * Z)) : Handler.hstate * list event :=
  let '(st, evs) := read_loop g fd buffer script in
  match st with
  | Handler.Reading => (Handler.Reading, evs)
  | _ => (Handler.Closed, evs ++ Handler.epilogue fd)
  end.

(** What one turn of the accept loop in the first [main] meets. *)
Record tick := {
  tk_malloc : bool;    (* malloc() returned non-null *)
  tk_accept : Z;       (* accept(listen_fd, ...) *)
  tk_create : Z        (* pthread_create(client_thread) *)
}.

(** One turn of [while (1)] in the first [main]: the events, and the
    connection handed to a new [client_thread], if any. *)
Definition iterate (tk : tick) : list event * option Z :=
  if negb (tk_malloc tk) then ([EvPerror "malloc"], None)
  else
    let c := tk_accept tk in
    if c <? 0 then ([EvAccept c; EvPerror "accept"], None)
    else if negb (tk_create tk =? 0) then
      ([EvAccept c; EvClose c; EvPrintf "Failed to create client thread"], None)
    else ([EvAccept c; EvSpawn c], Some c).

(** The accept loop over the turns of a script; it has no way out. *)
Fixpoint accept_loop (script : list tick) : list event * list Z :=
  match script with
  | [] => ([], [])
  | tk :: script' =>
      let '(evs, c) := iterate tk in
      let '(evs', cs) := accept_loop script' in
      (evs ++ evs', option_list c ++ cs)
  end.

(** A turn of the later handler as the first one sees it. *)
Definition of_handler (tk : Handler.tick) : recv_result * Z :=
  (Handler.tk_recv tk, Handler.tk_sendto tk).

(** A turn of the later accept thread as the first one sees it. *)
Definition of_acceptor (tk : Acceptor.tick) : tick :=
  {| tk_malloc := Acceptor.tk_malloc tk; tk_accept := Acceptor.tk_accept tk;
     tk_create := Acceptor.tk_create tk |}.

(** The turns the first handler could meet too: [running] is read as
    true and the read did not time out. *)
Definition plain_turn (tk : Handler.tick) : Prop :=
  Handler.tk_running tk = true
  /\ (rv_n (Handler.tk_recv tk) < 0 -> would_block (rv_errno (Handler.tk_recv tk)) = false).

(** The events that are neither a [setsockopt] nor a report. *)
Definition core (evs : list event) : list event :=
  List.filter (fun e => match e with EvSetsockopt _ | EvPerror _ => false | _ => true end) evs.

(** "hello" arrives as "hel" and "lo", the first forward fails, then the
    client disconnects; no read times out. *)
Definition hello_script : list Handler.tick :=
  [ {| Handler.tk_running := true; Handler.tk_recv := Samples.data Samples.hel;
       Handler.tk_sendto := -1 |};
    {| Handler.tk_running := true; Handler.tk_recv := Samples.data Samples.lo;
       Handler.tk_sendto := 2 |};
    {| Handler.tk_running := true; Handler.tk_recv := Samples.eof;
       Handler.tk_sendto := 0 |} ].

End Legacy.

(** * Properties *)

(** ** C integers *)

Lemma to_unsigned_range n : is_unsigned (to_unsigned n).
Proof.
  unfold is_unsigned, to_unsigned, UINT_MOD, UINT_WIDTH.
  apply Z.mod_pos_bound. lia.
Qed.

Lemma to_unsigned_small n : is_unsigned n -> to_unsigned n = n.
Proof. unfold is_unsigned, to_unsigned. intros H. by apply Z.mod_small. Qed.

Lemma usub_exact a b : is_unsigned a -> 0 <= b <= a -> usub a b = a - b.
Proof. unfold usub, is_unsigned. intros Ha Hb. apply to_unsigned_small. unfold is_unsigned. lia. Qed.

Lemma uadd_exact a b : 0 <= a -> 0 <= b -> a + b < UINT_MOD -> uadd a b = a + b.
Proof. unfold uadd. intros Ha Hb Hab. apply to_unsigned_small. unfold is_unsigned. lia. Qed.

(** ** send_all.c *)

Module SendAllFacts.
Import SendAll.

Section WithTransport.
Context {T : Type}.
Variable send : T -> list byte -> Z -> Z * T.

Lemma count_sends_emit_send off size (o : outcome T) :
  count_sends (events (emit (EvSend off size) o)) = S (count_sends (events o)).
Proof. reflexivity. Qed.

(** One turn of the loop with a failing write. *)
Lemma send_loop_failed fuel buf len sent t n t' :
  sent < len ->
  send t (window buf sent) (usub len sent) = (n, t') ->
  n <= 0 ->
  send_loop send (S fuel) buf len sent t
  = Some (Outcome (-1) t' [EvSend sent (usub len sent); EvPerror MSG_SEND_FAILED]).
Proof.
  intros Hlt Hs Hn. simpl.
  destruct (Z.ltb_spec sent len); [|lia].
  rewrite Hs. destruct (Z.leb_spec n 0); [done|lia].
Qed.

(** One turn of the loop with a write that took bytes. *)
Lemma send_loop_partial fuel buf len sent t n t' :
  sent < len ->
  send t (window buf sent) (usub len sent) = (n, t') ->
  0 < n ->
  send_loop send (S fuel) buf len sent t
  = emit (EvSend sent (usub len sent))
      <$> send_loop send fuel buf len (uadd sent (to_unsigned n)) t'.
Proof.
  intros Hlt Hs Hn. simpl.
  destruct (Z.ltb_spec sent len); [|lia].
  rewrite Hs. destruct (Z.leb_spec n 0); [lia|done].
Qed.

(** Under the contract of [send], an accepted count moves [sent] strictly
    forward and never past [len]. *)
Lemma sent_advances len sent t w n t' :
  send_contract send ->
  is_unsigned len -> 0 <= sent < len ->
  send t w (usub len sent) = (n, t') ->
  0 < n ->
  uadd sent (to_unsigned n) = sent + n /\ sent < sent + n <= len.
Proof.
  intros Hc Hlen Hsent Hs Hn.
  rewrite usub_exact in Hs by (done || lia).
  pose proof (Hc t w (len - sent) ltac:(lia)) as Hle. rewrite Hs in Hle. simpl in Hle.
  unfold is_unsigned in Hlen.
  rewrite (to_unsigned_small n) by (unfold is_unsigned; lia).
  rewrite uadd_exact by lia. lia.
Qed.

(** With fuel for the bytes left, the loop returns, as the contract of
    section 4.1 says, after at most that many writes. *)
Lemma send_loop_run buf len :
  send_contract send ->
  is_unsigned len ->
  forall fuel sent t,
    0 <= sent <= len ->
    (Z.to_nat (len - sent) <= fuel)%nat ->
    exists o,
      send_loop send fuel buf len sent t = Some o
      /\ SendRun send buf len sent t o
      /\ (count_sends (events o) <= Z.to_nat (len - sent))%nat
      /\ (ret o = 0 \/ ret o = -1).
Proof.
  intros Hc Hlen fuel. induction fuel as [|fuel IH]; intros sent t Hsent Hfuel.
  - assert (sent = len) as -> by lia.
    exists (Outcome 0 t []). simpl. rewrite Z.ltb_irrefl.
    repeat split; [by constructor | unfold count_sends; simpl; lia | by left].
  - destruct (Z.eq_dec sent len) as [->|Hne].
    + exists (Outcome 0 t []). simpl. rewrite Z.ltb_irrefl.
      repeat split; [by constructor | unfold count_sends; simpl; lia | by left].
    + assert (sent < len) as Hlt by lia.
      destruct (send t (window buf sent) (usub len sent)) as [n t'] eqn:Hs.
      destruct (Z_le_gt_dec n 0) as [Hn|Hn].
      * eexists. split; [by eapply send_loop_failed|].
        rewrite usub_exact by (done || lia).
        rewrite usub_exact in Hs by (done || lia).
        repeat split; [by eapply run_failed | unfold count_sends; simpl; lia | by right].
      * destruct (sent_advances len sent t (window buf sent) n t' Hc Hlen) as [Hadd Hrange];
          [lia | done | lia |].
        destruct (IH (sent + n) t') as (o & Ho & Hrun & Hcount & Hret); [lia | lia |].
        exists (emit (EvSend sent (len - sent)) o).
        rewrite (send_loop_partial fuel buf len sent t n t') by (done || lia).
        rewrite Hadd, Ho. rewrite usub_exact by (done || lia).
        rewrite usub_exact in Hs by (done || lia).
        repeat split.
        -- eapply run_partial; eauto; lia.
        -- rewrite count_sends_emit_send. lia.
        -- done.
Qed.

(** Whatever the fuel, a returned run made at most one write per byte left. *)
Lemma send_loop_count buf len :
  send_contract send ->
  is_unsigned len ->
  forall fuel sent t o,
    0 <= sent <= len ->
    send_loop send fuel buf len sent t = Some o ->
    (count_sends (events o) <= Z.to_nat (len - sent))%nat.
Proof.
  intros Hc Hlen fuel. induction fuel as [|fuel IH]; intros sent t o Hsent Ho.
  - simpl in Ho. destruct (Z.ltb_spec sent len); [done|].
    injection Ho as <-. unfold count_sends. simpl. lia.
  - destruct (Z.eq_dec sent len) as [->|Hne].
    + simpl in Ho. rewrite Z.ltb_irrefl in Ho. injection Ho as <-.
      unfold count_sends. simpl. lia.
    + assert (sent < len) as Hlt by lia.
      destruct (send t (window buf sent) (usub len sent)) as [n t'] eqn:Hs.
      destruct (Z_le_gt_dec n 0) as [Hn|Hn].
      * rewrite (send_loop_failed fuel buf len sent t n t') in Ho by done.
        injection Ho as <-. unfold count_sends. simpl. lia.
      * destruct (sent_advances len sent t (window buf sent) n t' Hc Hlen) as [Hadd Hrange];
          [lia | done | lia |].
        rewrite (send_loop_partial fuel buf len sent t n t') in Ho by (done || lia).
        rewrite Hadd in Ho.
        destruct (send_loop send fuel buf len (sent + n) t') as [o'|] eqn:Ho'; [|done].
        simpl in Ho. injection Ho as <-.
        rewrite count_sends_emit_send.
        specialize (IH (sent + n) t' o' ltac:(lia) Ho'). lia.
Qed.

(** A run that returns [-1] from the loop ends with the report of the
    failed write, and made a write. *)
Lemma send_loop_error_shape buf len fuel :
  forall sent t o,
    send_loop send fuel buf len sent t = Some o ->
    ret o = -1 ->
    list.last (events o) = Some (EvPerror MSG_SEND_FAILED)
    /\ (1 <= count_sends (events o))%nat.
Proof.
  induction fuel as [|fuel IH]; intros sent t o Ho Hret; simpl in Ho.
  - destruct (sent <? len); [done|]. injection Ho as <-. done.
  - destruct (sent <? len); [|injection Ho as <-; done].
    destruct (send t (window buf sent) (usub len sent)) as [n t'].
    destruct (n <=? 0).
    + injection Ho as <-. unfold count_sends. simpl. split; [done|lia].
    + destruct (send_loop send fuel buf len (uadd sent (to_unsigned n)) t')
        as [o'|] eqn:Ho'; [|done].
      simpl in Ho. injection Ho as <-.
      destruct (IH _ _ _ Ho' Hret) as [Hlast Hcount].
      rewrite count_sends_emit_send. split; [|lia].
      simpl. destruct (events o'); [done|]. exact Hlast.
Qed.

End WithTransport.

(** A run on the socket that takes three bytes per call. *)
Example send_all_in_three_writes :
  send_all (send_upto 3) 8 (Some [x41; x42; x43; x44; x45; x46; x47; x48]) 8 0%nat
  = Some (Outcome 0 3%nat [EvSend 0 8; EvSend 3 5; EvSend 6 2]).
Proof. reflexivity. Qed.

Lemma send_upto_contract k : send_contract (send_upto k).
Proof. intros t w size Hsize. simpl. lia. Qed.

Lemma send_reset_contract : send_contract send_reset.
Proof. intros t w size Hsize. simpl. lia. Qed.

(** C3 (as amended).  With a null buffer and a length that is not zero,
    [send_all] returns [-1] at once: the transport is left as it was and the
    only event is the "invalid argument" line, no [send].  The code [-1] is
    also what a failed write returns; such a return differs in its events
    only: it made at least one [send] and ends with the [perror] report. *)
Theorem send_all_null_buffer {T} (send : T -> list byte -> Z -> Z * T)
    (fuel : nat) (len : Z) (t : T) :
  0 < len ->
  send_all send fuel None len t = Some (Outcome (-1) t [EvPrintf MSG_INVALID])
  /\ count_sends [EvPrintf MSG_INVALID] = 0%nat
  /\ forall fuel' b len' t' o,
       send_all send fuel' (Some b) len' t' = Some o ->
       ret o = -1 ->
       list.last (events o) = Some (EvPerror MSG_SEND_FAILED)
       /\ (1 <= count_sends (events o))%nat.
Proof.
  intros Hlen. split; [|split].
  - unfold send_all. destruct (Z.eqb_spec len 0); [lia|done].
  - reflexivity.
  - intros fuel' b len' t' o Ho Hret. unfold send_all in Ho.
    destruct (len' =? 0).
    + injection Ho as <-. done.
    + by eapply send_loop_error_shape.
Qed.

Lemma send_all_null_buffer_witness :
  0 < 5
  /\ send_all send_reset 0 None 5 0%nat = Some (Outcome (-1) 0%nat [EvPrintf MSG_INVALID]).
Proof.
  split; [lia|].
  apply (send_all_null_buffer send_reset 0 5 0%nat). lia.
Defined.

(** C3, as stated, fails: the null-buffer failure and a transport failure
    return the same [int], so the caller cannot tell them apart by the
    result of the call. *)
Lemma send_all_null_buffer_same_code :
  ret <$> send_all send_reset 1 None 1 0%nat
  = ret <$> send_all send_reset 1 (Some [x41]) 1 0%nat
  /\ events <$> send_all send_reset 1 (Some [x41]) 1 0%nat
    = Some [EvSend 0 1; EvPerror MSG_SEND_FAILED].
Proof. split; reflexivity. Qed.

(** C4.  For a non-null buffer: a length of zero returns 0 with no write;
    otherwise the call writes the unsent suffix (offset = bytes accepted so
    far, size = what is left) again and again until all [len] bytes are
    accepted, returning 0, or a write fails, returning -1 at once. *)
Theorem send_all_contract {T} (send : T -> list byte -> Z -> Z * T)
    (fuel : nat) (buf : list byte) (len : Z) (t : T) :
  send_contract send ->
  is_unsigned len ->
  (Z.to_nat len <= fuel)%nat ->
  (len = 0 -> send_all send fuel (Some buf) len t = Some (Outcome 0 t []))
  /\ exists o,
       send_all send fuel (Some buf) len t = Some o
       /\ SendRun send buf len 0 t o.
Proof.
  intros Hc Hlen Hfuel. split.
  - intros ->. reflexivity.
  - unfold send_all. destruct (Z.eqb_spec len 0) as [->|Hne].
    + exists (Outcome 0 t []). split; [done|]. by constructor.
    + destruct (send_loop_run send buf len Hc Hlen fuel 0 t) as (o & Ho & Hrun & _).
      * unfold is_unsigned in Hlen. lia.
      * by rewrite Z.sub_0_r.
      * eauto.
Qed.

Lemma send_all_contract_witness :
  send_contract (send_upto 3)
  /\ is_unsigned 8
  /\ exists o,
       send_all (send_upto 3) 8 (Some [x41; x42; x43; x44; x45; x46; x47; x48]) 8 0%nat = Some o
       /\ SendRun (send_upto 3) [x41; x42; x43; x44; x45; x46; x47; x48] 8 0 0%nat o.
Proof.
  split; [apply send_upto_contract|].
  split; [unfold is_unsigned, UINT_MOD, UINT_WIDTH; lia|].
  apply (send_all_contract (send_upto 3) 8 [x41; x42; x43; x44; x45; x46; x47; x48] 8 0%nat).
  - apply send_upto_contract.
  - unfold is_unsigned, UINT_MOD, UINT_WIDTH. lia.
  - simpl. lia.
Defined.

(** C10.  [send_all] returns: with fuel for [len] turns the model never
    runs out, and whatever the fuel a returned call made at most [len]
    writes.  A write that answers [n <= 0] ends the call at once with -1; a
    write that answers [n >= 1] moves [sent] strictly forward, never past
    [len]. *)
Theorem send_all_terminates {T} (send : T -> list byte -> Z -> Z * T)
    (buf : option (list byte)) (len : Z) (t : T) :
  send_contract send ->
  is_unsigned len ->
  (forall fuel, (Z.to_nat len <= fuel)%nat ->
     exists o, send_all send fuel buf len t = Some o /\ (ret o = 0 \/ ret o = -1))
  /\ (forall fuel o, send_all send fuel buf len t = Some o ->
       (count_sends (events o) <= Z.to_nat len)%nat)
  /\ (forall fuel b sent t0 n t',
       0 <= sent < len ->
       send t0 (window b sent) (usub len sent) = (n, t') ->
       (n <= 0 ->
        send_loop send (S fuel) b len sent t0
        = Some (Outcome (-1) t' [EvSend sent (usub len sent); EvPerror MSG_SEND_FAILED]))
       /\ (1 <= n ->
           sent < uadd sent (to_unsigned n) <= len
           /\ send_loop send (S fuel) b len sent t0
             = emit (EvSend sent (usub len sent))
                 <$> send_loop send fuel b len (uadd sent (to_unsigned n)) t')).
Proof.
  intros Hc Hlen. assert (0 <= len) as Hpos by (unfold is_unsigned in Hlen; lia).
  split; [|split].
  - intros fuel Hfuel. unfold send_all.
    destruct buf as [b|], (Z.eqb_spec len 0) as [->|Hne]; try (eexists; split; [done|]; auto).
    destruct (send_loop_run send b len Hc Hlen fuel 0 t) as (o & Ho & _ & _ & Hret);
      [lia | by rewrite Z.sub_0_r | eauto].
  - intros fuel o Ho. unfold send_all in Ho.
    destruct buf as [b|], (Z.eqb_spec len 0) as [->|Hne];
      try (injection Ho as <-; unfold count_sends; simpl; lia).
    pose proof (send_loop_count send b len Hc Hlen fuel 0 t o ltac:(lia) Ho) as Hcount.
    by rewrite Z.sub_0_r in Hcount.
  - intros fuel b sent t0 n t' Hsent Hs. split; intros Hn.
    + apply (send_loop_failed send fuel b len sent t0 n t'); (done || lia).
    + destruct (sent_advances send len sent t0 (window b sent) n t' Hc Hlen) as [Hadd Hrange];
        [lia | done | lia |].
      split; [lia|]. apply (send_loop_partial send fuel b len sent t0 n t'); (done || lia).
Qed.

Lemma send_all_terminates_witness :
  send_contract (send_upto 3)
  /\ is_unsigned 8
  /\ forall fuel o,
       send_all (send_upto 3) fuel (Some [x41; x42; x43; x44; x45; x46; x47; x48]) 8 0%nat = Some o ->
       (count_sends (events o) <= Z.to_nat 8)%nat.
Proof.
  split; [apply send_upto_contract|].
  split; [unfold is_unsigned, UINT_MOD, UINT_WIDTH; lia|].
  apply (send_all_terminates (send_upto 3) (Some [x41; x42; x43; x44; x45; x46; x47; x48]) 8 0%nat).
  - apply send_upto_contract.
  - unfold is_unsigned, UINT_MOD, UINT_WIDTH. lia.
Defined.

End SendAllFacts.

(** ** The connection handler *)

Module HandlerFacts.
Import Handler.

Lemma follows_app g q a b :
  follows g q a -> follows g None b -> follows g q (a ++ b).
Proof.
  revert q. induction a as [|e a IH]; intros q Ha Hb; simpl in *.
  - by subst q.
  - destruct q as [d|].
    + destruct e; try done. destruct Ha as (? & ? & ? & Ha). eauto.
    + destruct e; try done; eauto.
Qed.

(** A trace that [follows] forwarded the chunks it read, and the pending one. *)
Lemma follows_chunks g q evs :
  follows g q evs -> chunks_forwarded evs = option_list q ++ chunks_read evs.
Proof.
  unfold chunks_forwarded, chunks_read.
  revert q. induction evs as [|e evs IH]; intros q H; simpl in *.
  - by subst q.
  - destruct q as [d|].
    + destruct e; try done. destruct H as (_ & -> & _ & H).
      cbn. f_equal. exact (IH None H).
    + destruct e; try done; try exact (IH None H).
      specialize (IH _ H). cbn. destruct (0 <? n); exact IH.
Qed.

(** What [sendto] is given after a read of data is what the read delivered. *)
Lemma take_recv_into buffer r :
  recv_contract BUFFER_SIZE r -> 0 < rv_n r ->
  take (Z.to_nat (rv_n r)) (recv_into buffer r) = rv_data r.
Proof.
  intros [_ Hc] Hn. destruct (Hc Hn) as [Hlen _].
  unfold recv_into. destruct (Z.ltb_spec 0 (rv_n r)); [|lia].
  rewrite Hlen, Nat2Z.id. by rewrite take_app_length.
Qed.

(** The buffer keeps its size. *)
Lemma length_recv_into buffer r :
  recv_contract BUFFER_SIZE r -> length buffer = BUFFER_SIZE ->
  length (recv_into buffer r) = BUFFER_SIZE.
Proof.
  intros [_ Hc] Hb. unfold recv_into. destruct (Z.ltb_spec 0 (rv_n r)); [|done].
  destruct (Hc ltac:(done)) as [_ Hle].
  rewrite length_app, length_drop. lia.
Qed.

Lemma follows_forward g buffer r sr :
  recv_contract BUFFER_SIZE r -> 0 < rv_n r ->
  follows g (Some (rv_data r)) (forward g (recv_into buffer r) (rv_n r) sr).
Proof.
  intros Hc Hn. unfold forward. simpl.
  rewrite take_recv_into by done.
  repeat split. by destruct (sr <? 0).
Qed.

Lemma iterate_follows g fd buffer tk :
  recv_contract BUFFER_SIZE (tk_recv tk) ->
  follows g None (iterate g fd buffer tk).2.
Proof.
  intros Hc. unfold iterate.
  destruct (tk_running tk); simpl; [|done].
  destruct (Z.ltb_spec (rv_n (tk_recv tk)) 0) as [Hneg|Hnn].
  - destruct (would_block _); simpl; by destruct (Z.ltb_spec 0 (rv_n (tk_recv tk))); [lia|].
  - destruct (Z.eqb_spec (rv_n (tk_recv tk)) 0) as [Hz|Hnz].
    + simpl. by rewrite Hz.
    + change (follows g (if 0 <? rv_n (tk_recv tk) then Some (rv_data (tk_recv tk)) else None)
                (forward g (recv_into buffer (tk_recv tk)) (rv_n (tk_recv tk)) (tk_sendto tk))).
      destruct (Z.ltb_spec 0 (rv_n (tk_recv tk))); [|lia].
      by apply follows_forward.
Qed.

Lemma read_loop_follows g fd script :
  Forall (fun tk => recv_contract BUFFER_SIZE (tk_recv tk)) script ->
  forall buffer, follows g None (read_loop g fd buffer script).2.
Proof.
  induction 1 as [|tk script Htk _ IH]; intros buffer; simpl; [done|].
  pose proof (iterate_follows g fd buffer tk Htk) as Hit.
  destruct (iterate g fd buffer tk) as [[st buffer'] evs]. simpl in Hit.
  destruct st; try done.
  specialize (IH buffer'). destruct (read_loop g fd buffer' script) as [st' evs'].
  simpl in *. by apply follows_app.
Qed.

Lemma follows_prologue g fd so : follows g None (prologue fd so).
Proof. unfold prologue. simpl. by destruct (so <? 0). Qed.

Lemma client_thread_follows g fd so buffer script :
  Forall (fun tk => recv_contract BUFFER_SIZE (tk_recv tk)) script ->
  follows g None (client_thread g fd so buffer script).2.
Proof.
  intros Hs. unfold client_thread.
  pose proof (read_loop_follows g fd script Hs buffer) as Hl.
  destruct (read_loop g fd buffer script) as [st evs]. simpl in Hl.
  destruct st; simpl.
  all: apply follows_app; [apply follows_prologue|]; try done.
  all: by apply follows_app.
Qed.

Lemma handle_client_data_follows g fd script :
  Forall (fun x => recv_contract BUFFER_SIZE x.1) script ->
  forall buffer res evs,
    Epoll.handle_client_data g fd buffer script = Some (res, evs) ->
    follows g None evs.
Proof.
  induction 1 as [|[r sr] script Hr _ IH]; intros buffer res evs Hh; simpl in *; [done|].
  destruct (Z.eqb_spec (rv_n r) (-1)) as [Hm|Hm].
  - destruct (would_block _); injection Hh as <- <-; simpl; rewrite Hm; done.
  - destruct (Z.eqb_spec (rv_n r) 0) as [Hz|Hz].
    + injection Hh as <- <-. simpl. by rewrite Hz.
    + destruct (Epoll.handle_client_data g fd (recv_into buffer r) script)
        as [[res' evs']|] eqn:Hrec; [|done].
      simpl in Hh. injection Hh as <- <-.
      assert (0 < rv_n r) as Hpos by (destruct Hr as [? _]; lia).
      change (follows g (if 0 <? rv_n r then Some (rv_data r) else None)
                (forward g (recv_into buffer r) (rv_n r) sr ++ evs')).
      destruct (Z.ltb_spec 0 (rv_n r)); [|lia].
      apply follows_app; [by apply follows_forward | by eapply IH].
Qed.

(** The event loop's handler returns once a read brings no data. *)
Lemma handle_client_data_returns g fd script :
  Forall (fun x => recv_contract BUFFER_SIZE x.1) script ->
  Exists (fun x => rv_n x.1 <= 0) script ->
  forall buffer, is_Some (Epoll.handle_client_data g fd buffer script).
Proof.
  intros Hc Hex. induction Hex as [[r sr] script Hn|[r sr] script _ IH];
    intros buffer; simpl in *.
  - inversion_clear Hc as [|? ? [Hlo _] _]. simpl in *.
    destruct (Z.eqb_spec (rv_n r) (-1)); [by destruct (would_block _)|].
    destruct (Z.eqb_spec (rv_n r) 0); [done|lia].
  - inversion_clear Hc as [|? ? _ Htl].
    destruct (rv_n r =? -1); [by destruct (would_block _)|].
    destruct (rv_n r =? 0); [done|].
    destruct (IH Htl (recv_into buffer r)) as [[res evs] ->]. done.
Qed.

(** *** The result of [sendto] decides nothing but a report *)

Lemma calls_app a b : calls (a ++ b) = calls a ++ calls b.
Proof. apply list.filter_app. Qed.






(** *** The states of the read loop *)










(** The reads of a trace are the reads the script supplies. *)
Lemma chunks_read_app a b : chunks_read (a ++ b) = chunks_read a ++ chunks_read b.
Proof. apply omap_app. Qed.

Lemma chunks_read_forward g buffer n sr : chunks_read (forward g buffer n sr) = [].
Proof. unfold forward. by destruct (sr <? 0). Qed.

Lemma read_loop_reads g fd script :
  forall buffer, chunks_read (read_loop g fd buffer script).2 = Expected.forwards script.
Proof.
  induction script as [|tk script IH]; intros buffer; [done|].
  cbn [read_loop Expected.forwards]. unfold iterate.
  destruct (tk_running tk); cbn [negb]; [|done].
  cbv zeta.
  destruct (Z.ltb_spec (rv_n (tk_recv tk)) 0) as [Hneg|Hnn].
  - destruct (Z.ltb_spec 0 (rv_n (tk_recv tk))) as [|_]; [lia|]. cbn [andb].
    destruct (would_block (rv_errno (tk_recv tk))).
    + specialize (IH (recv_into buffer (tk_recv tk))).
      destruct (read_loop g fd (recv_into buffer (tk_recv tk)) script) as [st evs].
      cbn [fst snd] in *. rewrite chunks_read_app, IH.
      unfold chunks_read. cbn. by destruct (Z.ltb_spec 0 (rv_n (tk_recv tk))); [lia|].
    + unfold chunks_read. cbn. by destruct (Z.ltb_spec 0 (rv_n (tk_recv tk))); [lia|].
  - cbn [andb]. destruct (Z.eqb_spec (rv_n (tk_recv tk)) 0) as [Hz|Hnz].
    + rewrite Hz. done.
    + destruct (Z.ltb_spec 0 (rv_n (tk_recv tk))) as [Hpos|]; [|lia].
      specialize (IH (recv_into buffer (tk_recv tk))).
      destruct (read_loop g fd (recv_into buffer (tk_recv tk)) script) as [st evs].
      cbn [fst snd] in *.
      rewrite chunks_read_app, IH.
      change (chunks_read (?e :: ?l)) with (chunks_read ([e] ++ l)).
      rewrite chunks_read_app, chunks_read_forward, app_nil_r.
      unfold chunks_read at 1. cbn.
      by destruct (Z.ltb_spec 0 (rv_n (tk_recv tk))); [|lia].
Qed.

Lemma client_thread_reads g fd so buffer script :
  chunks_read (client_thread g fd so buffer script).2 = Expected.forwards script.
Proof.
  unfold client_thread. pose proof (read_loop_reads g fd script buffer) as H.
  destruct (read_loop g fd buffer script) as [st evs]. cbn [snd] in H.
  assert (chunks_read (prologue fd so) = []) as Hp
    by (unfold prologue; by destruct (so <? 0)).
  destruct st; cbn [snd]; rewrite !chunks_read_app, Hp, H; [done| |];
    by rewrite app_nil_r.
Qed.

Lemma handle_client_data_reads g fd reads :
  Forall (fun x => recv_contract BUFFER_SIZE x.1) reads ->
  forall buffer res evs,
    Epoll.handle_client_data g fd buffer reads = Some (res, evs) ->
    chunks_read evs = Expected.forwards_ready reads.
Proof.
  induction 1 as [|[r sr] reads [Hlo Hc] _ IH]; intros buffer res evs Hh; [done|].
  cbn [Epoll.handle_client_data Expected.forwards_ready] in *. cbv zeta in Hh.
  cbn [fst] in Hlo.
  destruct (Z.eqb_spec (rv_n r) (-1)) as [Hm|Hm].
  { destruct (Z.ltb_spec 0 (rv_n r)); [lia|].
    destruct (would_block _); apply (inj Some) in Hh; apply pair_equal_spec in Hh as [_ <-];
      unfold chunks_read; cbn; by destruct (Z.ltb_spec 0 (rv_n r)); [lia|]. }
  destruct (Z.eqb_spec (rv_n r) 0) as [Hz|Hz].
  { apply (inj Some) in Hh. apply pair_equal_spec in Hh as [_ <-].
    unfold chunks_read. cbn. rewrite Hz. done. }
  destruct (Z.ltb_spec 0 (rv_n r)) as [Hpos|]; [|lia].
  destruct (Epoll.handle_client_data g fd (recv_into buffer r) reads) as [[res' evs']|] eqn:Hrec;
    [|done].
  cbn [mbind option_bind] in Hh.
  apply (inj Some) in Hh. apply pair_equal_spec in Hh as [_ <-].
  rewrite chunks_read_app, (IH _ _ _ Hrec).
  change (chunks_read (?e :: ?l)) with (chunks_read ([e] ++ l)).
  rewrite chunks_read_app, chunks_read_forward, app_nil_r.
  unfold chunks_read at 1. cbn. by destruct (Z.ltb_spec 0 (rv_n r)); [|lia].
Qed.



End HandlerFacts.

(** *** The event loop, turn after turn *)

Module LoopFacts.
Import Epoll.

(** Turns the loop came through, followed by more turns. *)
Lemma event_loop_app g buffer pre :
  forall r evs0 rest,
    event_loop g buffer true pre = Some (Looping, r, evs0) ->
    r = true
    /\ event_loop g buffer true (pre ++ rest)
       = ('(st, r', evs') ← event_loop g buffer true rest; Some (st, r', evs0 ++ evs')).
Proof.
  induction pre as [|tk pre IH]; intros r evs0 rest Hl.
  - cbn in Hl. apply (inj Some) in Hl.
    apply pair_equal_spec in Hl as [Hl <-]. apply pair_equal_spec in Hl as [_ <-].
    split; [done|]. cbn [app].
    destruct (event_loop g buffer true rest) as [[[st r'] evs']|]; done.
  - cbn [app event_loop negb] in *.
    destruct (console tk); [done|].
    destruct (et_nfds tk =? -1).
    { destruct (et_errno tk =? EINTR); [by apply IH|done]. }
    destruct (for_each_ready g buffer (take (Z.to_nat (et_nfds tk)) (et_ready tk)))
      as [evs|]; [|done].
    cbn [mbind option_bind] in *.
    destruct (event_loop g buffer true pre) as [[[st1 r1] evs1]|] eqn:Hpre; [|done].
    cbn [mbind option_bind] in Hl.
    apply (inj Some) in Hl.
    apply pair_equal_spec in Hl as [Hl <-]. apply pair_equal_spec in Hl as [-> ->].
    destruct (IH r evs1 rest eq_refl) as [-> ->]. split; [done|].
    destruct (event_loop g buffer true rest) as [[[st r'] evs']|]; [|done].
    cbn [mbind option_bind]. by rewrite app_assoc.
Qed.

(** Reading ["quit"] after turns the loop came through: the flag is
    cleared, the three descriptors of the server are closed, the status
    is 0. *)
Lemma serve_quit g ep buffer pre evs0 tk rest :
  event_loop g buffer true pre = Some (Looping, true, evs0) ->
  console tk = true ->
  serve g ep buffer (pre ++ tk :: rest)
  = Some (Some 0, false,
          evs0 ++ [EvFlagClear; EvPrintf "Shutting down epoll TCP server...";
                   EvClose (listen_fd g); EvClose (udp_socket g); EvClose ep;
                   EvPrintf "Epoll-based TCP server stopped."]).
Proof.
  intros Hpre Hq. unfold serve.
  destruct (event_loop_app g buffer pre true evs0 (tk :: rest) Hpre) as [_ ->].
  cbn [event_loop negb]. rewrite Hq. cbn [mbind option_bind].
  unfold cleanup. by rewrite <- app_assoc.
Qed.

End LoopFacts.

Module HandlerClaims.
Import Handler HandlerFacts.

(** The sample connection: both chunks are forwarded, the failed forward
    is reported, the socket is closed at the end. *)
Example hello_run :
  client_thread Samples.g0 7 0 Samples.blank Samples.hello_script
  = (Closed,
     [EvSetsockopt 7;
      EvRecv 7 3 Samples.hel; EvSendto 3 Samples.hel (udp_addr Samples.g0);
      EvPerror "sendto (UDP forward)";
      EvRecv 7 (-1) [];
      EvRecv 7 2 Samples.lo; EvSendto 3 Samples.lo (udp_addr Samples.g0);
      EvRecv 7 0 [];
      EvClose 7]).
Proof. vm_compute. reflexivity. Qed.

Example hello_reads_run :
  Epoll.handle_client_data Samples.g0 7 Samples.blank Samples.hello_reads
  = Some (0,
     [EvRecv 7 3 Samples.hel; EvSendto 3 Samples.hel (udp_addr Samples.g0);
      EvPerror "sendto (UDP forward)";
      EvRecv 7 2 Samples.lo; EvSendto 3 Samples.lo (udp_addr Samples.g0);
      EvRecv 7 (-1) []]).
Proof. vm_compute. reflexivity. Qed.

(** C1.  In both servers the chunks forwarded are the chunks the
    connection's reads bring, one [sendto] for each read that returns
    [n > 0] bytes, with exactly those bytes, in order, up to the turn that
    ends the connection: every such read is followed at once by one
    [sendto] of its bytes to the fixed destination, and there is no other
    [sendto]. *)
Theorem forwards_every_chunk (g : globals) (fd so : Z) (buffer : list byte)
    (script : list tick) (reads : list (recv_result * Z)) :
  Forall (fun tk => recv_contract BUFFER_SIZE (tk_recv tk)) script ->
  Forall (fun x => recv_contract BUFFER_SIZE x.1) reads ->
  (forwards_each_read g (client_thread g fd so buffer script).2
   /\ chunks_forwarded (client_thread g fd so buffer script).2 = Expected.forwards script
   /\ chunks_read (client_thread g fd so buffer script).2 = Expected.forwards script)
  /\ (forall res evs,
        Epoll.handle_client_data g fd buffer reads = Some (res, evs) ->
        forwards_each_read g evs
        /\ chunks_forwarded evs = Expected.forwards_ready reads
        /\ chunks_read evs = Expected.forwards_ready reads)
  /\ (Exists (fun x => rv_n x.1 <= 0) reads ->
      is_Some (Epoll.handle_client_data g fd buffer reads)).
Proof.
  intros Hs Hr. split; [|split].
  - pose proof (client_thread_follows g fd so buffer script Hs) as Hf.
    pose proof (client_thread_reads g fd so buffer script) as Hreads.
    split; [exact Hf|]. split; [|exact Hreads].
    by rewrite (follows_chunks g None _ Hf), Hreads.
  - intros res evs Hh.
    pose proof (handle_client_data_follows g fd reads Hr buffer res evs Hh) as Hf.
    pose proof (handle_client_data_reads g fd reads Hr buffer res evs Hh) as Hreads.
    split; [exact Hf|]. split; [|exact Hreads].
    by rewrite (follows_chunks g None _ Hf), Hreads.
  - intros Hex. by apply handle_client_data_returns.
Qed.

Lemma data_contract bs :
  (length bs <= BUFFER_SIZE)%nat -> recv_contract BUFFER_SIZE (Samples.data bs).
Proof. intros Hle. split; simpl; [lia|done]. Qed.

Lemma nodata_contract n errno :
  -1 <= n <= 0 -> recv_contract BUFFER_SIZE {| rv_n := n; rv_data := []; rv_errno := errno |}.
Proof. intros Hn. split; simpl; lia. Qed.

Lemma hello_script_contract :
  Forall (fun tk => recv_contract BUFFER_SIZE (tk_recv tk)) Samples.hello_script.
Proof.
  repeat (apply List.Forall_cons); try apply List.Forall_nil; simpl;
    first [ apply data_contract; unfold BUFFER_SIZE; simpl; lia
          | apply nodata_contract; lia ].
Qed.

Lemma hello_reads_contract :
  Forall (fun x => recv_contract BUFFER_SIZE x.1) Samples.hello_reads.
Proof.
  repeat (apply List.Forall_cons); try apply List.Forall_nil; simpl;
    first [ apply data_contract; unfold BUFFER_SIZE; simpl; lia
          | apply nodata_contract; lia ].
Qed.

Lemma forwards_every_chunk_witness :
  Forall (fun tk => recv_contract BUFFER_SIZE (tk_recv tk)) Samples.hello_script
  /\ Forall (fun x => recv_contract BUFFER_SIZE x.1) Samples.hello_reads
  /\ chunks_forwarded (client_thread Samples.g0 7 0 Samples.blank Samples.hello_script).2
     = [Samples.hel; Samples.lo]
  /\ exists res evs,
       Epoll.handle_client_data Samples.g0 7 Samples.blank Samples.hello_reads
       = Some (res, evs)
       /\ chunks_forwarded evs = [Samples.hel; Samples.lo].
Proof.
  split; [apply hello_script_contract|].
  split; [apply hello_reads_contract|].
  destruct (forwards_every_chunk Samples.g0 7 0 Samples.blank
              Samples.hello_script Samples.hello_reads
              hello_script_contract hello_reads_contract)
    as ((_ & Hthread & _) & Hready & Hsome).
  split; [rewrite Hthread; reflexivity|].
  destruct Hsome as [[res evs] Hh].
  { apply List.Exists_cons_tl, List.Exists_cons_tl, List.Exists_cons_hd. simpl. lia. }
  exists res, evs. split; [exact Hh|].
  destruct (Hready res evs Hh) as (_ & -> & _). reflexivity.
Defined.




End HandlerClaims.

(** ** The acceptor *)

Module AcceptorFacts.
Import Acceptor.

Lemma iterate_state g tk :
  (iterate g tk).1.1 = if tk_running tk then Accepting else Exited.
Proof.
  unfold iterate. destruct (tk_running tk); simpl; [|done].
  destruct (tk_malloc tk); simpl; [|done].
  destruct (tk_accept tk <? 0).
  - by destruct (would_block _).
  - by destruct (tk_create tk =? 0).
Qed.

(** A turn dispatches a connection only when everything succeeded. *)
Lemma iterate_dispatch g tk c :
  (iterate g tk).2 = Some c ->
  tk_running tk = true /\ tk_malloc tk = true /\ c = tk_accept tk
  /\ 0 <= c /\ tk_create tk = 0.
Proof.
  unfold iterate. destruct (tk_running tk); simpl; [|done].
  destruct (tk_malloc tk); simpl; [|done].
  destruct (Z.ltb_spec (tk_accept tk) 0).
  - by destruct (would_block _).
  - destruct (Z.eqb_spec (tk_create tk) 0); simpl; [|done].
    intros [= <-]. done.
Qed.

Lemma accept_thread_func_state g script :
  (accept_thread_func g script).1.1 = Exited
  <-> Exists (fun tk => tk_running tk = false) script.
Proof.
  induction script as [|tk script IH]; simpl.
  - split; [done | by intros ?%Exists_nil].
  - rewrite Exists_cons.
    pose proof (iterate_state g tk) as Hst.
    destruct (iterate g tk) as [[st evs] c]. simpl in Hst. subst st.
    destruct (tk_running tk).
    + destruct (accept_thread_func g script) as [[st' evs'] cs]. simpl in *.
      rewrite IH. split; [by right | by intros [?|?]].
    + simpl. split; [by left | done].
Qed.

Lemma iterate_no_flag g tk : no_flag_clear (iterate g tk).1.2.
Proof.
  unfold iterate, no_flag_clear. destruct (tk_running tk); simpl; [|done].
  destruct (tk_setsockopt tk <? 0), (tk_malloc tk); simpl; try by repeat constructor.
  all: destruct (tk_accept tk <? 0);
    [destruct (would_block _); [|destruct (tk_running_again tk)]
    |destruct (tk_create tk =? 0)]; simpl; by repeat constructor.
Qed.

End AcceptorFacts.

Module EpollFacts.
Import Epoll.

Lemma handle_client_data_no_flag g fd reads :
  forall buffer res evs,
    handle_client_data g fd buffer reads = Some (res, evs) -> no_flag_clear evs.
Proof.
  unfold no_flag_clear.
  induction reads as [|[r sr] reads IH]; intros buffer res evs Hh; simpl in Hh; [done|].
  destruct (rv_n r =? -1).
  { destruct (would_block _); injection Hh as <- <-; by repeat constructor. }
  destruct (rv_n r =? 0).
  { injection Hh as <- <-. by repeat constructor. }
  destruct (handle_client_data g fd (recv_into buffer r) reads) as [[res' evs']|] eqn:Hrec;
    [|done].
  simpl in Hh. injection Hh as <- <-.
  do 2 (constructor; [done|]).
  apply list.Forall_app. split; [|by eapply IH].
  destruct (sr <? 0); by repeat constructor.
Qed.

Lemma on_ready_no_flag g buffer rd evs :
  on_ready g buffer rd = Some evs -> no_flag_clear evs.
Proof.
  unfold on_ready, no_flag_clear, set_nonblocking, add_to_epoll, remove_from_epoll.
  destruct (rd_fd rd =? listen_fd g).
  - destruct (rd_accept rd =? -1); [intros [= <-]; by repeat constructor|].
    destruct (rd_getfl rd =? -1); simpl; [intros [= <-]; by repeat constructor|].
    destruct (rd_setfl rd =? -1); simpl; [intros [= <-]; by repeat constructor|].
    destruct (rd_ctl rd =? -1); simpl; intros [= <-]; by repeat constructor.
  - destruct (handle_client_data g (rd_fd rd) buffer (rd_reads rd)) as [[res evs']|] eqn:Hh;
      [|done].
    apply handle_client_data_no_flag in Hh. simpl.
    destruct (res =? -1); intros [= <-]; [|done].
    apply list.Forall_app. split; [done|].
    destruct (rd_ctl rd =? -1); by repeat constructor.
Qed.

Lemma for_each_ready_no_flag g buffer rds :
  forall evs, for_each_ready g buffer rds = Some evs -> no_flag_clear evs.
Proof.
  induction rds as [|rd rds IH]; intros evs; simpl.
  - intros [= <-]. constructor.
  - destruct (on_ready g buffer rd) as [e1|] eqn:H1; [|done]. simpl.
    destruct (for_each_ready g buffer rds) as [e2|] eqn:H2; [|done]. simpl.
    intros [= <-]. apply list.Forall_app. split; [by eapply on_ready_no_flag | by apply IH].
Qed.

Lemma on_ready_total g buffer rd : ready_ok g rd -> is_Some (on_ready g buffer rd).
Proof.
  intros Hok. unfold on_ready.
  destruct (Z.eqb_spec (rd_fd rd) (listen_fd g)) as [Heq|Hne].
  - destruct (rd_accept rd =? -1); [done|].
    destruct (set_nonblocking _ _ _) as [r1 e1]. destruct (r1 =? -1); [done|].
    destruct (add_to_epoll _ _) as [r2 e2]. by destruct (r2 =? -1).
  - destruct Hok as [?|[Hc Hex]]; [done|].
    destruct (HandlerFacts.handle_client_data_returns g (rd_fd rd) _ Hc Hex buffer)
      as [[res evs] ->].
    simpl. by destruct (res =? -1).
Qed.

Lemma for_each_ready_total g buffer rds :
  Forall (ready_ok g) rds -> is_Some (for_each_ready g buffer rds).
Proof.
  induction 1 as [|rd rds Hrd _ IH]; simpl; [done|].
  destruct (on_ready_total g buffer rd Hrd) as [e1 ->].
  destruct IH as [e2 ->]. done.
Qed.

(** The model follows the loop to the end of any script of such turns. *)
Lemma event_loop_total g buffer script :
  Forall (fun tk => Forall (ready_ok g) (et_ready tk)) script ->
  is_Some (event_loop g buffer true script).
Proof.
  induction 1 as [|tk script Htk _ IH]; simpl; [done|].
  destruct (console tk); [done|].
  destruct (et_nfds tk =? -1); [by destruct (et_errno tk =? EINTR)|].
  destruct (for_each_ready_total g buffer (take (Z.to_nat (et_nfds tk)) (et_ready tk)))
    as [evs ->]; [by apply Forall_take|].
  destruct IH as [[[st r] evs'] ->]. done.
Qed.

(** How the loop is left, and what that says about [running]. *)
Lemma event_loop_state g buffer script :
  forall st r evs,
    event_loop g buffer true script = Some (st, r, evs) ->
    (st = Left <-> Exists (fun tk => leaves tk = true) script)
    /\ (r = false -> Exists (fun tk => console tk = true) script)
    /\ (st = Looping -> r = true).
Proof.
  induction script as [|tk script IH]; intros st r evs; simpl.
  - intros [= <- <- <-]. repeat split; try done. by intros ?%Exists_nil.
  - rewrite !Exists_cons. unfold leaves, wait_failed.
    destruct (console tk); simpl.
    { intros [= <- <- <-]. repeat split; auto. done. }
    destruct (et_nfds tk =? -1); simpl.
    + destruct (et_errno tk =? EINTR); simpl.
      * intros H. destruct (IH _ _ _ H) as (H1 & H2 & H3).
        rewrite H1. repeat split; auto; try tauto. intros [?|?]; [done|tauto].
      * intros [= <- <- <-]. repeat split; auto; done.
    + destruct (for_each_ready g buffer _) as [e1|]; [|done]. simpl.
      destruct (event_loop g buffer true script) as [[[st' r'] e2]|] eqn:Hl; [|done].
      simpl. intros [= <- <- <-]. destruct (IH _ _ _ eq_refl) as (H1 & H2 & H3).
      rewrite H1. repeat split; auto; try tauto. intros [?|?]; [done|tauto].
Qed.

(** When [epoll_wait] fails only by being interrupted, the loop is left by
    ["quit"] alone, and then the flag is false. *)
Lemma event_loop_quit_only g buffer script :
  Forall (fun tk => et_nfds tk = -1 -> et_errno tk = EINTR) script ->
  forall st r evs,
    event_loop g buffer true script = Some (st, r, evs) ->
    (st = Left <-> Exists (fun tk => console tk = true) script)
    /\ (st = Left <-> r = false).
Proof.
  intros Hwait st r evs Hl.
  destruct (event_loop_state g buffer script st r evs Hl) as (H1 & H2 & H3).
  assert (Exists (fun tk => leaves tk = true) script
          -> Exists (fun tk => console tk = true) script) as Hq.
  { clear -Hwait. induction Hwait as [|tk script Htk _ IH]; [by intros ?%Exists_nil|].
    rewrite !Exists_cons. intros [Hleave|Hrest]; [left|right; by apply IH].
    unfold leaves, wait_failed in Hleave.
    destruct (console tk); [done|]. cbn in Hleave.
    destruct (Z.eqb_spec (et_nfds tk) (-1)) as [Hn|]; [|done].
    rewrite (Htk Hn) in Hleave. done. }
  assert (Exists (fun tk => console tk = true) script
          -> Exists (fun tk => leaves tk = true) script) as Hq'.
  { apply List.Exists_impl. intros tk Hc. unfold leaves. by rewrite Hc. }
  assert (st = Left -> r = false) as Hr.
  { intros Hst. apply H1, Hq in Hst. clear -Hst Hl Hwait.
    revert st r evs Hl. induction Hwait as [|tk script Htk _ IH]; intros st r evs Hl.
    - by apply Exists_nil in Hst.
    - cbn [event_loop negb] in Hl.
      destruct (console tk) eqn:Hc.
      { apply (inj Some) in Hl. apply pair_equal_spec in Hl as [Hl _].
        by apply pair_equal_spec in Hl as [_ <-]. }
      apply Exists_cons in Hst as [Hst|Hst]; [congruence|].
      destruct (Z.eqb_spec (et_nfds tk) (-1)) as [Hn|].
      { rewrite (Htk Hn) in Hl. cbn in Hl. by eapply IH. }
      destruct (for_each_ready g buffer _) as [e1|]; [|done].
      cbn [mbind option_bind] in Hl.
      destruct (event_loop g buffer true script) as [[[st' r'] e2]|] eqn:Hl'; [|done].
      cbn [mbind option_bind] in Hl. apply (inj Some) in Hl.
      apply pair_equal_spec in Hl as [Hl _]. apply pair_equal_spec in Hl as [_ <-].
      by eapply IH. }
  split; [split; [by intros ?%H1%Hq | by intros ?%Hq'%H1]|].
  split; [done|]. intros Hf. by apply H1, Hq', H2.
Qed.

(** The other way out: a failure of [epoll_wait] that is no interruption
    ends the loop with the flag still true. *)
Lemma event_loop_wait_failed g buffer pre evs0 tk rest :
  event_loop g buffer true pre = Some (Looping, true, evs0) ->
  console tk = false -> wait_failed tk = true ->
  event_loop g buffer true (pre ++ tk :: rest)
  = Some (Left, true, evs0 ++ [EvPerror "epoll_wait"]).
Proof.
  intros Hpre Hc Hw.
  destruct (LoopFacts.event_loop_app g buffer pre true evs0 (tk :: rest) Hpre) as [_ ->].
  cbn [event_loop negb]. rewrite Hc. unfold wait_failed in Hw.
  destruct (et_nfds tk =? -1); [|done].
  destruct (et_errno tk =? EINTR); [done|]. done.
Qed.

(** The flag is written when ["quit"] is read, once, and that ends the loop. *)
Lemma event_loop_flag g buffer script :
  forall st r evs,
    event_loop g buffer true script = Some (st, r, evs) ->
    if r then no_flag_clear evs
    else exists evs0,
        evs = evs0 ++ [EvFlagClear; EvPrintf "Shutting down epoll TCP server..."]
        /\ no_flag_clear evs0 /\ st = Left.
Proof.
  induction script as [|tk script IH]; intros st r evs; simpl.
  - intros [= <- <- <-]. constructor.
  - destruct (console tk); simpl.
    { intros [= <- <- <-]. exists []. repeat split. constructor. }
    destruct (et_nfds tk =? -1); simpl.
    + destruct (et_errno tk =? EINTR); simpl; [apply IH|].
      intros [= <- <- <-]. by repeat constructor.
    + destruct (for_each_ready g buffer _) as [e1|] eqn:H1; [|done]. simpl.
      destruct (event_loop g buffer true script) as [[[st' r'] e2]|] eqn:Hl; [|done].
      simpl. intros [= <- <- <-]. specialize (IH _ _ _ eq_refl).
      apply for_each_ready_no_flag in H1.
      destruct r'.
      * by apply list.Forall_app.
      * destruct IH as (evs0 & -> & Hno & ->). exists (e1 ++ evs0).
        split; [by rewrite app_assoc|]. split; [by apply list.Forall_app|done].
Qed.

Lemma cleanup_no_flag g ep : no_flag_clear (cleanup g ep).
Proof. by repeat constructor. Qed.

(** What [main] of the event-loop server does once its loop is left. *)
Lemma serve_shutdown g ep buffer script code r evs :
  serve g ep buffer script = Some (code, r, evs) ->
  (forall s, code = Some s -> s = 0)
  /\ (code = None -> r = true)
  /\ if r then no_flag_clear evs
     else code = Some 0
          /\ exists evs0,
               evs = evs0 ++ [EvFlagClear; EvPrintf "Shutting down epoll TCP server..."]
                          ++ cleanup g ep
               /\ no_flag_clear evs0.
Proof.
  unfold serve.
  destruct (event_loop g buffer true script) as [[[st r0] e0]|] eqn:Hl; [|done]. simpl.
  pose proof (event_loop_flag g buffer script st r0 e0 Hl) as Hflag.
  destruct (event_loop_state g buffer script st r0 e0 Hl) as (_ & _ & Hloop).
  destruct st; intros [= <- <- <-].
  - split; [done|]. split; [by intros _; apply Hloop|].
    destruct r0; [done|]. by destruct Hflag as (? & _ & _ & ?).
  - split; [by intros s [= <-]|]. split; [done|].
    destruct r0.
    + apply list.Forall_app. split; [done|apply cleanup_no_flag].
    + destruct Hflag as (evs0 & -> & Hno & _). split; [done|].
      exists evs0. by rewrite <- app_assoc.
Qed.

End EpollFacts.

(** ** The threads together *)

Module BridgeFacts.
Import Bridge.

(** *** Traces *)

Lemma main_events_app tr tr' : main_events (tr ++ tr') = main_events tr ++ main_events tr'.
Proof. apply omap_app. Qed.

Lemma main_events_main evs : main_events (tag Main evs) = evs.
Proof. induction evs as [|e evs IH]; [done|]. cbn. by f_equal. Qed.

Lemma main_events_other a evs : a <> Main -> main_events (tag a evs) = [].
Proof. intros Ha. induction evs as [|e evs IH]; [done|]. destruct a; done. Qed.

Lemma flag_clears_app tr tr' : flag_clears (tr ++ tr') = (flag_clears tr + flag_clears tr')%nat.
Proof. unfold flag_clears. by rewrite list.filter_app, length_app. Qed.

Lemma flag_clears_none a evs : no_flag_clear evs -> flag_clears (tag a evs) = 0%nat.
Proof.
  unfold flag_clears. induction 1 as [|e evs He _ IH]; [done|].
  cbn [tag map]. rewrite filter_cons_False; [done|]. simpl. rewrite He. exact id.
Qed.

Lemma forwards_of_app i tr tr' :
  forwards_of i (tr ++ tr') = (forwards_of i tr + forwards_of i tr')%nat.
Proof. unfold forwards_of. by rewrite list.filter_app, length_app. Qed.

Lemma forwards_of_none i a evs :
  Handler.no_sendto evs \/ a <> Worker i -> forwards_of i (tag a evs) = 0%nat.
Proof.
  intros H. unfold forwards_of. induction evs as [|e evs IH]; [done|].
  cbn [tag map]. rewrite filter_cons_False.
  - apply IH. destruct H as [H|H]; [left; by inversion H | by right].
  - destruct H as [H|H].
    + inversion H as [|? ? He _]; subst. destruct a, e; simpl in *; try exact id. done.
    + destruct a as [| |j]; simpl; try exact id. destruct e; try exact id.
      destruct (Nat.eqb_spec i j); [by subst|exact id].
Qed.

Lemma prologue_no_flag fd so : no_flag_clear (Handler.prologue fd so).
Proof. unfold Handler.prologue. destruct (so <? 0); by repeat constructor. Qed.

Lemma prologue_no_sendto fd so : Handler.no_sendto (Handler.prologue fd so).
Proof. unfold Handler.prologue. destruct (so <? 0); by repeat constructor. Qed.

Lemma handler_iterate_no_flag g fd buffer tk : no_flag_clear (Handler.iterate g fd buffer tk).2.
Proof.
  unfold Handler.iterate, forward. destruct (Handler.tk_running tk); simpl; [|constructor].
  destruct (rv_n (Handler.tk_recv tk) <? 0); [destruct (would_block _); by repeat constructor|].
  destruct (rv_n (Handler.tk_recv tk) =? 0); [by repeat constructor|].
  destruct (Handler.tk_sendto tk <? 0); by repeat constructor.
Qed.

(** *** One step *)

(** The shapes a step can take. *)
Ltac step_inv H :=
  unfold step, main_step, accept_step, worker_step in H;
  repeat (match type of H with
    | context [workers ?w !! ?i] =>
        let wk := fresh "wk" in let E := fresh "Hwk" in
        destruct (workers w !! i) as [wk|] eqn:E;
        cbn [mbind option_bind] in H; try discriminate H
    | context [Acceptor.iterate ?g ?tk] =>
        let a := fresh "a" in let evs := fresh "evs" in let c := fresh "c" in
        let E := fresh "Hacc" in
        destruct (Acceptor.iterate g tk) as [[a evs] c] eqn:E
    | context [Handler.iterate ?g ?fd ?b ?tk] =>
        let st := fresh "st" in let b' := fresh "b" in let evs := fresh "evs" in
        let E := fresh "Hit" in
        destruct (Handler.iterate g fd b tk) as [[st b'] evs] eqn:E
    | context [control ?r ?fg] =>
        let m := fresh "m" in let r' := fresh "r" in let evs := fresh "evs" in
        let E := fresh "Hctl" in
        destruct (control r fg) as [[m r'] evs] eqn:E
    | context [match main_at ?w with _ => _ end] =>
        let E := fresh "Hmain" in destruct (main_at w) eqn:E; try discriminate H
    | context [match acceptor_at ?w with _ => _ end] =>
        let E := fresh "Hacceptor" in destruct (acceptor_at w) eqn:E; try discriminate H
    | context [match wk_state ?wk with _ => _ end] =>
        let E := fresh "Hstate" in destruct (wk_state wk) eqn:E; try discriminate H
    | context [match ?l with LMain _ => _ | _ => _ end] => is_var l; destruct l
    end; cbv beta iota zeta in H);
  try (injection H as <-).

Lemma control_running r fg m r' evs :
  control r fg = (m, r', evs) ->
  (r = false -> r' = false /\ m = Joining /\ evs = [])
  /\ (r = true ->
      (r' = true /\ m = Waiting /\ evs = [])
      \/ (r' = false /\ m = Joining
          /\ evs = [EvFlagClear; EvPrintf "Shutting down TCP server..."]
          /\ exists input, fg = Some input /\ is_quit input = true)).
Proof.
  unfold control. destruct r; simpl.
  - destruct fg as [input|]; [destruct (is_quit input) eqn:Hq|];
      intros [= <- <- <-]; (split; [intros [=]|intros _]).
    + right. repeat split. by exists input.
    + by left.
    + by left.
  - intros [= <- <- <-]. split; [done|intros [=]].
Qed.

(** [running] never goes back to true. *)
Lemma step_running_mono g l w w' :
  step g l w = Some w' -> running w = false -> running w' = false.
Proof.
  intros Hstep Hr. step_inv Hstep; simpl; try done.
  all: apply control_running in Hctl as [Hctl _]; by destruct (Hctl Hr).
Qed.

Lemma trace_extend_other tr a evs :
  a <> Main -> no_flag_clear evs ->
  main_events (tr ++ tag a evs) = main_events tr
  /\ flag_clears (tr ++ tag a evs) = flag_clears tr.
Proof.
  intros Ha Hno. rewrite main_events_app, flag_clears_app.
  rewrite main_events_other by done. rewrite flag_clears_none by done.
  by rewrite app_nil_r, Nat.add_0_r.
Qed.

Lemma started_events_quiet c i so :
  main_events (started_events c i so) = []
  /\ flag_clears (started_events c i so) = 0%nat
  /\ forall j, forwards_of j (started_events c i so) = 0%nat.
Proof.
  destruct c as [fd|]; [|done]. cbn [started_events]. split; [|split].
  - by apply main_events_other.
  - apply flag_clears_none, prologue_no_flag.
  - intros j. apply forwards_of_none. left. apply prologue_no_sendto.
Qed.

Lemma acceptor_seen_state g r tk :
  (Acceptor.iterate g (Acceptor.seen r tk)).1.1
  = if r then Acceptor.Accepting else Acceptor.Exited.
Proof. by rewrite AcceptorFacts.iterate_state. Qed.

Lemma main_step_invariant g fg w w' :
  invariant g w -> main_step g fg w = Some w' -> invariant g w'.
Proof.
  intros (I1 & I2 & I3 & I4 & I5 & I6) Hstep. unfold main_step in Hstep.
  destruct (main_at w) eqn:Hmain.
  - (* the console loop *)
    assert (running w = true) as Hr by by apply I1.
    destruct (control (running w) fg) as [[m r] evs] eqn:Hctl.
    apply (inj Some) in Hstep as <-.
    apply control_running in Hctl as [_ Hctl].
    rewrite Hr in I6.
    destruct (Hctl Hr) as [(-> & -> & ->)|(-> & -> & -> & _)];
      unfold invariant; cbn [running main_at acceptor_at workers trace];
      rewrite main_events_app, flag_clears_app, main_events_main, I5, I6.
    + repeat split; try done. intros Hacc. rewrite (I2 Hacc) in Hr. done.
    + repeat split; try done.
  - destruct (acceptor_at w) eqn:Hacc; [done|]. apply (inj Some) in Hstep as <-.
    assert (running w = false) as Hr by by apply I2.
    unfold invariant; cbn [running main_at acceptor_at workers trace].
    rewrite main_events_app, flag_clears_app, main_events_main, I5, I6, Hr.
    repeat split; try done.
  - apply (inj Some) in Hstep as <-.
    assert (running w = false) as Hr by by apply I2.
    unfold invariant; cbn [running main_at acceptor_at workers trace].
    rewrite main_events_app, flag_clears_app, main_events_main, I5, I6, Hr.
    repeat split; try done.
    rewrite flag_clears_none; [done|]. destruct (0 <=? listen_fd g); by repeat constructor.
  - apply (inj Some) in Hstep as <-.
    assert (running w = false) as Hr by by apply I2.
    unfold invariant; cbn [running main_at acceptor_at workers trace].
    rewrite main_events_app, flag_clears_app, main_events_main, I5, I6, Hr.
    repeat split; try done.
    all: try (by intros s [= <-]).
    all: try (simpl; by rewrite <- ?app_assoc).
  - done.
Qed.

Lemma accept_step_invariant g tk so buffer w w' :
  invariant g w -> accept_step g tk so buffer w = Some w' -> invariant g w'.
Proof.
  intros (I1 & I2 & I3 & I4 & I5 & I6) Hstep. unfold accept_step in Hstep.
  destruct (acceptor_at w) eqn:Hacc; [|done].
  pose proof (acceptor_seen_state g (running w) tk) as Hst.
  pose proof (AcceptorFacts.iterate_no_flag g (Acceptor.seen (running w) tk)) as Hno.
  destruct (Acceptor.iterate g (Acceptor.seen (running w) tk)) as [[a evs] c].
  simpl in Hst, Hno. apply (inj Some) in Hstep as <-.
  destruct (started_events_quiet c (length (workers w)) so) as (S1 & S2 & _).
  destruct (trace_extend_other (trace w) Accept evs ltac:(done) Hno) as [T1 T2].
  unfold invariant; cbn [running main_at acceptor_at workers trace].
  rewrite app_assoc, main_events_app, flag_clears_app, S1, S2, T1, T2, app_nil_r, Nat.add_0_r.
  repeat split; try done; try apply I1.
  - intros ->. by destruct (running w).
  - by destruct (main_at w).
Qed.

Lemma worker_step_invariant g i rx sr w w' :
  invariant g w -> worker_step g i rx sr w = Some w' -> invariant g w'.
Proof.
  intros (I1 & I2 & I3 & I4 & I5 & I6) Hstep. unfold worker_step in Hstep.
  destruct (workers w !! i) as [wk|]; [|done]. cbn [mbind option_bind] in Hstep.
  destruct (wk_state wk); [| |done].
  - match type of Hstep with context [Handler.iterate ?g ?fd ?b ?tk] =>
      pose proof (handler_iterate_no_flag g fd b tk) as Hno;
      destruct (Handler.iterate g fd b tk) as [[st b'] evs]
    end.
    simpl in Hno. apply (inj Some) in Hstep as <-.
    destruct (trace_extend_other (trace w) (Worker i) evs ltac:(done) Hno) as [T1 T2].
    unfold invariant; cbn [running main_at acceptor_at workers trace].
    rewrite T1, T2. repeat split; try done; apply I1.
  - apply (inj Some) in Hstep as <-.
    destruct (trace_extend_other (trace w) (Worker i) (Handler.epilogue (wk_fd wk))
                ltac:(done) ltac:(by repeat constructor)) as [T1 T2].
    unfold invariant; cbn [running main_at acceptor_at workers trace].
    rewrite T1, T2. repeat split; try done; apply I1.
Qed.

Lemma step_invariant g l w w' :
  invariant g w -> step g l w = Some w' -> invariant g w'.
Proof.
  intros Hinv Hstep. unfold step in Hstep.
  destruct (main_at w); destruct l;
    eauto using main_step_invariant, accept_step_invariant, worker_step_invariant.
  all: done.
Qed.

Lemma initial_invariant g : invariant g initial.
Proof. unfold invariant. simpl. repeat split; try done. Qed.

Lemma run_invariant g ls :
  forall w w', invariant g w -> run g ls w = Some w' -> invariant g w'.
Proof.
  induction ls as [|l ls IH]; intros w w' Hinv; simpl.
  - by intros [= <-].
  - destruct (step g l w) as [w1|] eqn:Hstep; [|done]. simpl.
    apply IH. by eapply step_invariant.
Qed.

(** *** Workers *)

Lemma state_of_lookup i w st :
  state_of i w = Some st <-> exists wk, workers w !! i = Some wk /\ wk_state wk = st.
Proof.
  unfold state_of. destruct (workers w !! i) as [wk|]; simpl.
  - split; [intros [= <-]; eauto | by intros (? & [= <-] & <-)].
  - split; [done | by intros (? & ? & _)].
Qed.

Lemma main_step_worker_left g fg w w' i st :
  main_step g fg w = Some w' ->
  state_of i w = Some st ->
  state_of i w' = Some st /\ forwards_of i (trace w') = forwards_of i (trace w).
Proof.
  intros Hstep Hst. unfold main_step in Hstep.
  destruct (main_at w); try done.
  - destruct (control (running w) fg) as [[m r] evs].
    apply (inj Some) in Hstep as <-. unfold state_of in *. cbn [workers trace].
    rewrite forwards_of_app, forwards_of_none by (by right). by rewrite Nat.add_0_r.
  - destruct (acceptor_at w); try done.
    apply (inj Some) in Hstep as <-. unfold state_of in *. cbn [workers trace].
    rewrite forwards_of_app, forwards_of_none by (by right). by rewrite Nat.add_0_r.
  - apply (inj Some) in Hstep as <-. unfold state_of in *. cbn [workers trace].
    rewrite forwards_of_app, forwards_of_none by (by right). by rewrite Nat.add_0_r.
  - apply (inj Some) in Hstep as <-. unfold state_of in *. cbn [workers trace].
    rewrite forwards_of_app, forwards_of_none by (by right). by rewrite Nat.add_0_r.
Qed.

Lemma accept_step_worker_left g tk so buffer w w' i st :
  accept_step g tk so buffer w = Some w' ->
  state_of i w = Some st ->
  state_of i w' = Some st /\ forwards_of i (trace w') = forwards_of i (trace w).
Proof.
  intros Hstep Hst. unfold accept_step in Hstep.
  destruct (acceptor_at w); try done.
  destruct (Acceptor.iterate g (Acceptor.seen (running w) tk)) as [[a evs] c].
  apply (inj Some) in Hstep as <-.
  apply state_of_lookup in Hst as (wk & Hwk & Hwst).
  unfold state_of. cbn [workers trace]. split.
  - rewrite (lookup_app_l_Some _ _ _ _ Hwk). simpl. by rewrite Hwst.
  - rewrite !forwards_of_app, forwards_of_none by (by right).
    rewrite (proj2 (proj2 (started_events_quiet c (length (workers w)) so))). lia.
Qed.

Lemma worker_step_worker_left g j rx sr w w' i st :
  worker_step g j rx sr w = Some w' ->
  state_of i w = Some st -> st <> Handler.Reading ->
  (exists st', state_of i w' = Some st' /\ st' <> Handler.Reading)
  /\ forwards_of i (trace w') = forwards_of i (trace w).
Proof.
  intros Hstep Hst Hne. apply state_of_lookup in Hst as (wk & Hwk & Hwst).
  unfold worker_step in Hstep.
  destruct (decide (j = i)) as [->|Hij].
  - rewrite Hwk in Hstep. cbn [mbind option_bind] in Hstep. rewrite Hwst in Hstep.
    destruct st; try done.
    apply (inj Some) in Hstep as <-. unfold state_of. cbn [workers trace].
    rewrite forwards_of_app, forwards_of_none by (left; by repeat constructor).
    rewrite list_lookup_insert_eq by (by eapply lookup_lt_Some).
    split; [by eexists|lia].
  - destruct (workers w !! j) as [wk0|]; try done. cbn [mbind option_bind] in Hstep.
    assert (forall st0 b evs,
      state_of i {| running := running w; main_at := main_at w; acceptor_at := acceptor_at w;
                    workers := <[j := {| wk_fd := wk_fd wk0; wk_state := st0; wk_buffer := b |}]>
                                 (workers w);
                    trace := trace w ++ tag (Worker j) evs |} = Some st
      /\ forwards_of i (trace w ++ tag (Worker j) evs) = forwards_of i (trace w)) as Hgen.
    { intros st0 b evs. unfold state_of. cbn [workers].
      rewrite list_lookup_insert_ne by done. rewrite Hwk. simpl. rewrite Hwst.
      split; [done|].
      rewrite forwards_of_app, forwards_of_none by (right; congruence). lia. }
    destruct (wk_state wk0); try done.
    + destruct (Handler.iterate g (wk_fd wk0) (wk_buffer wk0) _) as [[st0 b] evs].
      apply (inj Some) in Hstep as <-. cbn [trace].
      destruct (Hgen st0 b evs) as [H1 H2]. split; [by eexists|done].
    + apply (inj Some) in Hstep as <-. cbn [trace].
      destruct (Hgen Handler.Closed (wk_buffer wk0) (Handler.epilogue (wk_fd wk0))) as [H1 H2].
      split; [by eexists|done].
Qed.

(** A worker that has left [Reading] never reads or forwards again. *)
Lemma step_worker_left g l w w' i st :
  step g l w = Some w' ->
  state_of i w = Some st -> st <> Handler.Reading ->
  (exists st', state_of i w' = Some st' /\ st' <> Handler.Reading)
  /\ forwards_of i (trace w') = forwards_of i (trace w).
Proof.
  intros Hstep Hst Hne. unfold step in Hstep.
  assert (match l with
          | LMain fgets => main_step g fgets w
          | LAccept tk so buffer => accept_step g tk so buffer w
          | LWorker j rx sr => worker_step g j rx sr w
          end = Some w') as Hl by (by destruct (main_at w)).
  clear Hstep. destruct l as [fg|tk so buffer|j rx sr].
  - destruct (main_step_worker_left g fg w w' i st Hl Hst). split; [by eexists|done].
  - destruct (accept_step_worker_left g tk so buffer w w' i st Hl Hst). split; [by eexists|done].
  - by eapply worker_step_worker_left.
Qed.

Lemma run_worker_left g ls i :
  forall w w' st,
    run g ls w = Some w' ->
    state_of i w = Some st -> st <> Handler.Reading ->
    (exists st', state_of i w' = Some st' /\ st' <> Handler.Reading)
    /\ forwards_of i (trace w') = forwards_of i (trace w).
Proof.
  induction ls as [|l ls IH]; intros w w' st; simpl.
  - intros [= <-] Hst Hne. eauto.
  - destruct (step g l w) as [w1|] eqn:Hstep; [|done]. simpl.
    intros Hrun Hst Hne.
    destruct (step_worker_left g l w w1 i st Hstep Hst Hne) as ((st1 & Hst1 & Hne1) & Hf1).
    destruct (IH w1 w' st1 Hrun Hst1 Hne1) as [Hex Hf]. split; [done|congruence].
Qed.

(** A worker that reads [running] as false leaves [Reading] at once,
    without a read. *)
Lemma worker_observes g i rx sr w :
  running w = false -> state_of i w = Some Handler.Reading ->
  (forall s, main_at w <> Exited s) ->
  exists w', step g (LWorker i rx sr) w = Some w'
    /\ state_of i w' = Some Handler.Closing /\ trace w' = trace w.
Proof.
  intros Hr Hst Hmain. apply state_of_lookup in Hst as (wk & Hwk & Hwst).
  unfold step, worker_step. rewrite Hwk. cbn [mbind option_bind]. rewrite Hwst, Hr.
  unfold Handler.iterate. simpl.
  destruct (main_at w) eqn:Hm; try (by destruct (Hmain status)).
  all: eexists; split; [done|]; unfold state_of; cbn [workers trace].
  all: rewrite list_lookup_insert_eq by (by eapply lookup_lt_Some).
  all: by rewrite app_nil_r.
Qed.

(** *** Shutdown *)

Lemma accept_step_observes g tk so buffer w :
  running w = false -> acceptor_at w = Acceptor.Accepting ->
  accept_step g tk so buffer w
  = Some {| running := false; main_at := main_at w; acceptor_at := Acceptor.Exited;
            workers := workers w; trace := trace w |}.
Proof.
  intros Hr Ha. unfold accept_step. rewrite Ha, Hr.
  unfold Acceptor.iterate. simpl. by rewrite !app_nil_r.
Qed.

Lemma step_accept_observes g tk so buffer w :
  running w = false -> acceptor_at w = Acceptor.Accepting ->
  (forall s, main_at w <> Exited s) ->
  step g (LAccept tk so buffer) w
  = Some {| running := false; main_at := main_at w; acceptor_at := Acceptor.Exited;
            workers := workers w; trace := trace w |}.
Proof.
  intros Hr Ha Hm. unfold step. rewrite accept_step_observes by done.
  destruct (main_at w) eqn:Hmain; try done. by destruct (Hm status).
Qed.

(** Once [running] is false, every step of [main] and of the accept thread
    brings the end of the process nearer. *)
Lemma shutdown_step_decreases g l w w' :
  invariant g w -> running w = false -> is_main_or_accept l = true ->
  step g l w = Some w' -> (remaining w' < remaining w)%nat.
Proof.
  intros (I1 & I2 & I3 & _) Hr Hl Hstep.
  assert (main_at w <> Waiting) as Hnw by (intros Hw; apply I1 in Hw; congruence).
  unfold step in Hstep. destruct l as [fg|tk so buffer|]; [| |done].
  - unfold main_step in Hstep. unfold remaining.
    destruct (main_at w) eqn:Hmain; try done.
    + destruct (acceptor_at w); try done.
      apply (inj Some) in Hstep as <-. simpl. lia.
    + apply (inj Some) in Hstep as <-. simpl. rewrite I3. lia.
    + apply (inj Some) in Hstep as <-. simpl. rewrite I3. lia.
  - destruct (acceptor_at w) eqn:Ha.
    + rewrite accept_step_observes in Hstep by done. unfold remaining. rewrite Ha.
      destruct (main_at w); try done; apply (inj Some) in Hstep as <-; simpl; lia.
    + unfold accept_step in Hstep. rewrite Ha in Hstep. by destruct (main_at w).
Qed.

(** ... and these steps do end it: the accept thread leaves its loop, and
    [main] joins it, closes both sockets and returns 0. *)
Lemma wind_down_exits g w :
  invariant g w -> running w = false ->
  exists w', run g (wind_down w) w = Some w'
    /\ main_at w' = Exited 0 /\ acceptor_at w' = Acceptor.Exited
    /\ workers w' = workers w.
Proof.
  intros (I1 & I2 & I3 & I4 & _) Hr.
  assert (main_at w <> Waiting) as Hnw by (intros Hw; apply I1 in Hw; congruence).
  destruct w as [r m a ws tr]. simpl in *. subst r.
  destruct m as [| | | |s]; [done| | | |].
  - destruct a.
    + unfold wind_down. cbn [acceptor_at main_at app repeat].
      change (run g (?l :: ?ls) ?w) with (step g l w ≫= run g ls).
      rewrite step_accept_observes by done.
      eexists. split; [reflexivity|]. done.
    + eexists. split; [reflexivity|]. done.
  - subst a. eexists. split; [reflexivity|]. done.
  - subst a. eexists. split; [reflexivity|]. done.
  - subst a. rewrite (I4 s eq_refl). eexists. split; [reflexivity|]. done.
Qed.

(** A step of a worker leaves the flag, [main] and the accept thread as
    they are. *)
Lemma worker_step_isolated g i rx sr w w' :
  step g (LWorker i rx sr) w = Some w' ->
  running w' = running w /\ main_at w' = main_at w /\ acceptor_at w' = acceptor_at w.
Proof.
  intros Hstep.
  assert (worker_step g i rx sr w = Some w') as Hw
    by (unfold step in Hstep; by destruct (main_at w)).
  clear Hstep. unfold worker_step in Hw.
  destruct (workers w !! i) as [wk|]; [|done]. cbn [mbind option_bind] in Hw.
  destruct (wk_state wk); [| |done].
  - destruct (Handler.iterate g (wk_fd wk) (wk_buffer wk) _) as [[st b] evs].
    by apply (inj Some) in Hw as <-.
  - by apply (inj Some) in Hw as <-.
Qed.

Lemma run_running_mono g ls :
  forall w w', run g ls w = Some w' -> running w = false -> running w' = false.
Proof.
  induction ls as [|l ls IH]; intros w w'; simpl.
  - by intros [= <-].
  - destruct (step g l w) as [w1|] eqn:Hstep; [|done]. simpl.
    intros Hrun Hr. eapply IH; [done|]. by eapply step_running_mono.
Qed.

End BridgeFacts.

(** ** Startup *)

Module StartupFacts.
Import Startup.

(** [sin_port == 0] tests the port modulo 2^16. *)
Lemma htons_zero x : htons x = 0 <-> x mod 2 ^ 16 = 0.
Proof.
  unfold htons.
  assert (0 <= x mod 2 ^ 16 < 2 ^ 16) as Hv by (apply Z.mod_pos_bound; lia).
  set (v := x mod 2 ^ 16) in *. split.
  - intros H. apply Z.lor_eq_0_iff in H as [Hlo Hhi].
    apply Z.shiftl_eq_0_iff in Hlo; [|lia].
    rewrite Z.shiftr_div_pow2 in Hhi by lia.
    change 255 with (Z.ones 8) in Hlo. rewrite Z.land_ones in Hlo by lia.
    pose proof (Z.div_mod v (2 ^ 8) ltac:(lia)). lia.
  - intros ->. reflexivity.
Qed.

(** [atoi] on the arguments the servers may meet. *)
Example atoi_dec_runs :
  atoi_dec "9999" = 9999
  /\ atoi_dec "  5140 udp" = 5140
  /\ atoi_dec "-1" = -1
  /\ atoi_dec "port" = 0
  /\ atoi_dec "65536" = 65536
  /\ atoi_dec "4294967296" = 0
  /\ atoi_dec "99999999999999999999" = -1.
Proof. repeat split; vm_compute; reflexivity. Qed.

(** A server that has started holds two descriptors. *)
Lemma tcp_main_started atoi argc argv a evs g :
  tcp_main atoi argc argv a = (evs, inr g) ->
  0 <= udp_socket g /\ 0 <= listen_fd g.
Proof.
  unfold tcp_main.
  destruct (argc =? 4); [|done].
  destruct (Z.ltb_spec (an_udp_socket a) 0); [done|].
  destruct (an_inet_pton a <=? 0); [done|].
  destruct (Z.ltb_spec (an_listen_socket a) 0); [done|].
  destruct (htons (atoi (arg argv 1)) =? 0); [done|].
  destruct (an_bind a <? 0); [done|].
  destruct (an_listen a <? 0); [done|].
  destruct (an_create a =? 0); [|done].
  intros [= _ <-]. done.
Qed.

End StartupFacts.

(** ** Shutdown and the acceptor: the claims *)

Module ShutdownClaims.
Import Bridge BridgeFacts.

(** The sample run ends with [main] returned, and this is all it did. *)
Example quit_schedule_run :
  run Samples.g0 Samples.quit_schedule initial = Some Samples.after_quit
  /\ main_at Samples.after_quit = Exited 0
  /\ running Samples.after_quit = false
  /\ state_of 0 Samples.after_quit = Some Handler.Closed
  /\ trace Samples.after_quit
     = [ (Accept, EvSetsockopt 4); (Accept, EvAccept 7); (Accept, EvSpawn 7);
         (Worker 0%nat, EvSetsockopt 7);
         (Worker 0%nat, EvRecv 7 3 Samples.hel);
         (Worker 0%nat, EvSendto 3 Samples.hel (udp_addr Samples.g0));
         (Main, EvFlagClear); (Main, EvPrintf "Shutting down TCP server...");
         (Main, EvJoin);
         (Worker 0%nat, EvClose 7);
         (Main, EvClose 4);
         (Main, EvClose 3); (Main, EvPrintf "TCP server stopped.") ].
Proof. repeat split; vm_compute; reflexivity. Qed.

(** The sample run of the event loop. *)
Example quit_turns_run :
  Epoll.serve Samples.g0 5 Samples.blank Samples.quit_turns
  = Some (Some 0, false,
      [ EvAccept 7; EvFcntl 7; EvFcntl 7; EvEpollAdd 7;
        EvPrintf "New client connected (fd: %d)";
        EvRecv 7 3 Samples.hel; EvSendto 3 Samples.hel (udp_addr Samples.g0);
        EvPerror "sendto (UDP forward)";
        EvRecv 7 2 Samples.lo; EvSendto 3 Samples.lo (udp_addr Samples.g0);
        EvRecv 7 (-1) [];
        EvFlagClear; EvPrintf "Shutting down epoll TCP server...";
        EvClose 4; EvClose 3; EvClose 5;
        EvPrintf "Epoll-based TCP server stopped." ]).
Proof. vm_compute. reflexivity. Qed.

(** C6.  In every world the threaded server can reach: [running] has been
    written at most once and only to false, and stays false in every
    continuation, whatever is typed; typing ["quit"] while [main] waits
    writes it; the accept thread has returned only after reading it as
    false, and returns at its next loop test once it is false, taking no
    connection; [main] returns only with status 0, and what it has done by
    then is: clear the flag, join the accept thread, close the listening
    socket (a descriptor that is not negative in a server that started),
    close the UDP socket; the steps left to [main] and the accept thread do
    get there, each bringing the end nearer; a worker that reads the flag
    as false leaves its loop without a read, and a worker that has left its
    loop forwards nothing in any continuation.  The event-loop server
    returns only 0 and writes the flag at most once; reading ["quit"],
    after any turns it came through, clears the flag, and after the write
    it only closes the listening socket, the UDP socket and the epoll
    descriptor, and returns 0. *)
Theorem graceful_shutdown (g : globals) (ls : list label) (w : world) :
  run g ls initial = Some w ->
  (flag_clears (trace w) = (if running w then 0 else 1)%nat
   /\ forall ls' w', run g ls' w = Some w' -> running w = false ->
        running w' = false /\ flag_clears (trace w') = 1%nat)
  /\ (forall input, main_at w = Waiting -> is_quit input = true ->
        exists w', step g (LMain (Some input)) w = Some w'
          /\ running w' = false /\ main_at w' = Joining)
  /\ ((acceptor_at w = Acceptor.Exited -> running w = false)
      /\ forall tk so buffer,
           running w = false -> acceptor_at w = Acceptor.Accepting ->
           (forall s, main_at w <> Exited s) ->
           exists w', step g (LAccept tk so buffer) w = Some w'
             /\ acceptor_at w' = Acceptor.Exited /\ workers w' = workers w)
  /\ ((forall s, main_at w = Exited s ->
         s = 0 /\ running w = false /\ acceptor_at w = Acceptor.Exited
         /\ main_events (trace w) = main_script g (Exited 0))
      /\ (0 <= listen_fd g ->
          main_script g (Exited 0)
          = [ EvFlagClear; EvPrintf "Shutting down TCP server..."; EvJoin;
              EvClose (listen_fd g); EvClose (udp_socket g);
              EvPrintf "TCP server stopped." ])
      /\ (forall atoi argc argv a evs,
            Startup.tcp_main atoi argc argv a = (evs, inr g) -> 0 <= listen_fd g)
      /\ (running w = false ->
          exists w', run g (wind_down w) w = Some w' /\ main_at w' = Exited 0)
      /\ (forall l w', running w = false -> is_main_or_accept l = true ->
            step g l w = Some w' -> (remaining w' < remaining w)%nat))
  /\ ((forall i rx sr,
         running w = false -> state_of i w = Some Handler.Reading ->
         (forall s, main_at w <> Exited s) ->
         exists w', step g (LWorker i rx sr) w = Some w'
           /\ state_of i w' = Some Handler.Closing /\ trace w' = trace w)
      /\ (forall i st ls' w',
            state_of i w = Some st -> st <> Handler.Reading ->
            run g ls' w = Some w' ->
            forwards_of i (trace w') = forwards_of i (trace w)))
  /\ (forall ep buffer script code r evs,
        Epoll.serve g ep buffer script = Some (code, r, evs) ->
        (forall s, code = Some s -> s = 0)
        /\ if r then no_flag_clear evs
           else code = Some 0
                /\ exists evs0,
                     evs = evs0
                           ++ [EvFlagClear; EvPrintf "Shutting down epoll TCP server...";
                               EvClose (listen_fd g); EvClose (udp_socket g); EvClose ep;
                               EvPrintf "Epoll-based TCP server stopped."]
                     /\ no_flag_clear evs0)
  /\ (forall ep buffer turns evs0 quit rest,
        Epoll.event_loop g buffer true turns = Some (Epoll.Looping, true, evs0) ->
        Epoll.console quit = true ->
        Epoll.serve g ep buffer (turns ++ quit :: rest)
        = Some (Some 0, false,
                evs0 ++ [EvFlagClear; EvPrintf "Shutting down epoll TCP server...";
                         EvClose (listen_fd g); EvClose (udp_socket g); EvClose ep;
                         EvPrintf "Epoll-based TCP server stopped."])).
Proof.
  intros Hrun.
  pose proof (run_invariant g ls initial w (initial_invariant g) Hrun) as Hinv.
  pose proof Hinv as (I1 & I2 & I3 & I4 & I5 & I6).
  split; [|split; [|split; [|split; [|split; [|split]]]]].
  - split; [done|]. intros ls' w' Hrun' Hr.
    pose proof (run_invariant g ls' w w' Hinv Hrun') as (_ & _ & _ & _ & _ & I6').
    assert (running w' = false) as Hr' by by eapply run_running_mono.
    by rewrite Hr' in I6'.
  - intros input Hm Hq. unfold step, main_step. rewrite Hm.
    assert (running w = true) as -> by by apply I1.
    unfold control. simpl. rewrite Hq. by eexists.
  - split; [done|]. intros tk so buffer Hr Ha Hm.
    rewrite step_accept_observes by done. by eexists.
  - split; [|split; [|split; [|split]]].
    + intros s Hs. pose proof (I4 s Hs) as ->. rewrite Hs in I3, I5.
      repeat split; try done. apply I2, I3.
    + intros Hl. unfold main_script. by destruct (Z.leb_spec 0 (listen_fd g)); [|lia].
    + intros atoi argc argv a evs Hs.
      by destruct (StartupFacts.tcp_main_started atoi argc argv a evs g Hs).
    + intros Hr. destruct (wind_down_exits g w Hinv Hr) as (w' & ? & ? & _). eauto.
    + intros l w' Hr Hl Hstep. by eapply shutdown_step_decreases.
  - split.
    + intros i rx sr Hr Hst Hm. by apply worker_observes.
    + intros i st ls' w' Hst Hne Hrun'.
      by destruct (run_worker_left g ls' i w w' st Hrun' Hst Hne).
  - intros ep buffer script code r evs Hs.
    destruct (EpollFacts.serve_shutdown g ep buffer script code r evs Hs) as (H1 & _ & H3).
    done.
  - intros ep buffer turns evs0 quit rest Hloop Hq. by apply LoopFacts.serve_quit.
Qed.

Lemma graceful_shutdown_witness :
  run Samples.g0 Samples.quit_schedule initial = Some Samples.after_quit
  /\ flag_clears (trace Samples.after_quit)
     = (if running Samples.after_quit then 0 else 1)%nat
  /\ (forall s, main_at Samples.after_quit = Exited s ->
       s = 0 /\ running Samples.after_quit = false
       /\ acceptor_at Samples.after_quit = Acceptor.Exited
       /\ main_events (trace Samples.after_quit) = main_script Samples.g0 (Exited 0))
  /\ Epoll.serve Samples.g0 5 Samples.blank
       ([Samples.wait_turn 1 0 [Samples.incoming 7]]
          ++ Samples.typed_turn ("quit" ++ Samples.newline)%string :: [])
     = Some (Some 0, false,
             [ EvAccept 7; EvFcntl 7; EvFcntl 7; EvEpollAdd 7;
               EvPrintf "New client connected (fd: %d)" ]
               ++ [ EvFlagClear; EvPrintf "Shutting down epoll TCP server...";
                    EvClose (listen_fd Samples.g0); EvClose (udp_socket Samples.g0);
                    EvClose 5; EvPrintf "Epoll-based TCP server stopped." ]).
Proof.
  assert (run Samples.g0 Samples.quit_schedule initial = Some Samples.after_quit) as Hrun
    by (vm_compute; reflexivity).
  split; [exact Hrun|].
  pose proof (graceful_shutdown Samples.g0 Samples.quit_schedule Samples.after_quit Hrun)
    as (Hflag & _ & _ & Hexit & _ & _ & Hquit).
  split; [exact (proj1 Hflag)|]. split; [exact (proj1 Hexit)|].
  apply Hquit; vm_compute; reflexivity.
Defined.

(** The accept thread goes through a timeout, an aborted connection, a
    failed [malloc] and a failed [pthread_create], and is still accepting:
    the last client is dispatched. *)
Example accept_script_run :
  Acceptor.accept_thread_func Samples.g0 Samples.accept_script
  = (Acceptor.Accepting,
     [ EvSetsockopt 4; EvAccept (-1);
       EvSetsockopt 4; EvAccept (-1); EvPerror "accept";
       EvSetsockopt 4; EvPerror "malloc";
       EvSetsockopt 4; EvAccept 7; EvClose 7; EvPrintf "Failed to create client thread";
       EvSetsockopt 4; EvAccept 8; EvSpawn 8 ],
     [8]).
Proof. vm_compute. reflexivity. Qed.

(** C7.  The accept thread of the threaded server has left its loop
    exactly when some turn read [running] as false; a turn that reads it
    as true stays in the loop whatever [accept], [malloc] or
    [pthread_create] answer, and dispatches a connection only when all
    three succeeded; a step of a client thread changes neither the flag nor
    where the accept thread stands.  The event loop of the other server,
    on any turns in which [epoll_wait] fails only by being interrupted (it
    is called with a valid descriptor, array and count, which leaves
    [EINTR]), is left exactly when ["quit"] is read, and exactly then the
    flag is false: no answer of [accept] and nothing in the handling of a
    connection leaves it, and the model follows it through every script of
    turns whose reads end.  For turns of any kind: the loop is left exactly
    on a turn where ["quit"] is read or [epoll_wait] fails otherwise, and
    in the latter case the flag is still true. *)
Theorem acceptor_survives_failures (g : globals) (buffer : list byte)
    (script : list Acceptor.tick) (turns : list Epoll.etick)
    (Hwait : Forall (fun tk => Epoll.et_nfds tk = -1 -> Epoll.et_errno tk = EINTR) turns) :
  ((Acceptor.accept_thread_func g script).1.1 = Acceptor.Exited
   <-> Exists (fun tk => Acceptor.tk_running tk = false) script)
  /\ (forall tk,
        Acceptor.tk_running tk = true ->
        (Acceptor.iterate g tk).1.1 = Acceptor.Accepting
        /\ forall c, (Acceptor.iterate g tk).2 = Some c ->
             Acceptor.tk_malloc tk = true /\ c = Acceptor.tk_accept tk /\ 0 <= c
             /\ Acceptor.tk_create tk = 0)
  /\ (forall st r evs,
        Epoll.event_loop g buffer true turns = Some (st, r, evs) ->
        (st = Epoll.Left <-> Exists (fun tk => Epoll.console tk = true) turns)
        /\ (st = Epoll.Left <-> r = false))
  /\ (Forall (fun tk => Forall (Epoll.ready_ok g) (Epoll.et_ready tk)) turns ->
      is_Some (Epoll.event_loop g buffer true turns))
  /\ (forall i rx sr w w',
        step g (LWorker i rx sr) w = Some w' ->
        running w' = running w /\ main_at w' = main_at w /\ acceptor_at w' = acceptor_at w)
  /\ (forall any st r evs,
        Epoll.event_loop g buffer true any = Some (st, r, evs) ->
        (st = Epoll.Left <-> Exists (fun tk => Epoll.leaves tk = true) any))
  /\ (forall pre evs0 tk rest,
        Epoll.event_loop g buffer true pre = Some (Epoll.Looping, true, evs0) ->
        Epoll.console tk = false -> Epoll.wait_failed tk = true ->
        Epoll.event_loop g buffer true (pre ++ tk :: rest)
        = Some (Epoll.Left, true, evs0 ++ [EvPerror "epoll_wait"])).
Proof.
  split; [|split; [|split; [|split; [|split; [|split]]]]];
    [| | | |apply worker_step_isolated| |].
  - apply AcceptorFacts.accept_thread_func_state.
  - intros tk Hr. rewrite AcceptorFacts.iterate_state, Hr. split; [done|].
    intros c Hc. apply AcceptorFacts.iterate_dispatch in Hc. tauto.
  - intros st r evs Hl.
    exact (EpollFacts.event_loop_quit_only g buffer turns Hwait st r evs Hl).
  - apply EpollFacts.event_loop_total.
  - intros any st r evs Hl.
    by destruct (EpollFacts.event_loop_state g buffer any st r evs Hl).
  - intros pre evs0 tk rest. apply EpollFacts.event_loop_wait_failed.
Qed.

(** The rough turns: the loop comes through the failed [accept], the
    interrupted wait and the reset connection, which it closes, and is
    left by "quit". *)
Lemma acceptor_survives_failures_witness :
  Forall (fun tk => Epoll.et_nfds tk = -1 -> Epoll.et_errno tk = EINTR) Rough.turns
  /\ Epoll.event_loop Samples.g0 Samples.blank true Rough.turns
     = Some (Epoll.Left, false,
         [ EvAccept (-1); EvPerror "accept";
           EvAccept 7; EvFcntl 7; EvFcntl 7; EvEpollAdd 7;
           EvPrintf "New client connected (fd: %d)";
           EvRecv 7 (-1) []; EvPerror "recv from client"; EvEpollDel 7; EvClose 7;
           EvFlagClear; EvPrintf "Shutting down epoll TCP server..." ])
  /\ Exists (fun tk => Epoll.console tk = true) Rough.turns.
Proof.
  assert (Forall (fun tk => Epoll.et_nfds tk = -1 -> Epoll.et_errno tk = EINTR) Rough.turns)
    as Hwait.
  { repeat (apply List.Forall_cons; [vm_compute; (reflexivity || discriminate)|]).
    apply List.Forall_nil. }
  split; [exact Hwait|].
  assert (Epoll.event_loop Samples.g0 Samples.blank true Rough.turns
          = Some (Epoll.Left, false,
              [ EvAccept (-1); EvPerror "accept";
                EvAccept 7; EvFcntl 7; EvFcntl 7; EvEpollAdd 7;
                EvPrintf "New client connected (fd: %d)";
                EvRecv 7 (-1) []; EvPerror "recv from client"; EvEpollDel 7; EvClose 7;
                EvFlagClear; EvPrintf "Shutting down epoll TCP server..." ])) as Hl
    by (vm_compute; reflexivity).
  split; [exact Hl|].
  destruct (acceptor_survives_failures Samples.g0 Samples.blank [] Rough.turns Hwait)
    as (_ & _ & Hloop & _).
  by apply (Hloop _ _ _ Hl).
Defined.

End ShutdownClaims.

(** ** The log sink *)

Module SinkFacts.
Import Sink.

Lemma c_string_app_nul l r : c_string (l ++ x00 :: r) = c_string l.
Proof.
  induction l as [|b l IH]; simpl; [done|].
  destruct (Byte.eqb b x00); [done|]. by rewrite IH.
Qed.

Lemma c_string_no_nul d : has_no_nul d -> c_string d = d.
Proof.
  induction 1 as [|b d Hb _ IH]; simpl; [done|].
  destruct (Byte.eqb b x00) eqn:Heq; [|by rewrite IH].
  apply Byte.byte_dec_bl in Heq. done.
Qed.

Lemma has_no_nul_take n d : has_no_nul d -> has_no_nul (take n d).
Proof. apply Forall_take. Qed.

(** The buffer after [recvfrom] and the terminating NUL. *)
Lemma terminated buffer d :
  length buffer = BUFFER_SIZE ->
  let got := take RECV_CAP d in
  <[Z.to_nat (Z.of_nat (length got)) := x00]> (got ++ drop (length got) buffer)
  = got ++ x00 :: drop (S (length got)) buffer.
Proof.
  intros Hb got. rewrite Nat2Z.id.
  assert (length got <= RECV_CAP)%nat as Hle by (unfold got; rewrite length_take; lia).
  rewrite insert_app_r_alt by lia. rewrite Nat.sub_diag. f_equal.
  destruct (drop (length got) buffer) as [|b rest] eqn:Hd.
  - apply (f_equal length) in Hd. rewrite length_drop in Hd. simpl in Hd.
    unfold RECV_CAP, BUFFER_SIZE in *. lia.
  - simpl. f_equal.
    replace (S (length got)) with (length got + 1)%nat by lia.
    rewrite <- drop_drop, Hd. done.
Qed.

(** What a turn of the plain server writes, for any datagram. *)
Lemma turn_datagram buffer file d :
  length buffer = BUFFER_SIZE ->
  let out := c_string (take RECV_CAP d) in
  exists buffer',
    turn buffer file (Datagram d) = (buffer', file ++ out, [EvFwrite out; EvFflush])
    /\ length buffer' = BUFFER_SIZE.
Proof.
  intros Hb out. unfold turn, recvfrom, write_out.
  rewrite terminated by done. rewrite c_string_app_nul.
  eexists. split; [done|].
  rewrite length_app. simpl. rewrite length_drop, length_take.
  unfold RECV_CAP, BUFFER_SIZE in *. lia.
Qed.

(** The same for a turn of the threaded server that reads [running] as
    true both times. *)
Lemma receive_turn_datagram buffer file d :
  length buffer = BUFFER_SIZE ->
  let out := c_string (take RECV_CAP d) in
  exists buffer',
    receive_turn buffer file
      {| tk_running := true; tk_arrival := Datagram d; tk_running_again := true |}
    = (Receiving, buffer', file ++ out, [EvFwrite out; EvFflush])
    /\ length buffer' = BUFFER_SIZE.
Proof.
  intros Hb out. unfold receive_turn, recvfrom, write_out. simpl.
  rewrite terminated by done. rewrite c_string_app_nul.
  eexists. split; [done|].
  rewrite length_app. simpl. rewrite length_drop, length_take.
  unfold RECV_CAP, BUFFER_SIZE in *. lia.
Qed.

(** The log after a whole script of arrivals. *)
Lemma udp_server_log script :
  Forall clean script ->
  forall buffer file,
    length buffer = BUFFER_SIZE ->
    (udp_server buffer file script).1 = file ++ concat (received <$> script).
Proof.
  induction 1 as [|a script Ha _ IH]; intros buffer file Hb; simpl.
  - by rewrite app_nil_r.
  - destruct a as [d|errno]; simpl in Ha.
    + destruct (turn_datagram buffer file d Hb) as (b1 & H1 & Hb1).
      cbv zeta in H1. rewrite H1.
      rewrite (c_string_no_nul _ (has_no_nul_take RECV_CAP d Ha)).
      specialize (IH b1 (file ++ take RECV_CAP d) Hb1).
      destruct (udp_server b1 (file ++ take RECV_CAP d) script) as [file' evs'].
      simpl in *. by rewrite IH, <- app_assoc.
    + specialize (IH buffer file Hb). cbn [turn].
      destruct (udp_server buffer file script) as [file' evs']. simpl in *. done.
Qed.

End SinkFacts.

Module SinkClaims.
Import Sink SinkFacts.

(** C8 (as amended).  For a datagram without a zero byte, a turn of the
    sink appends to the log file the datagram's first 4095 bytes, all of
    it when it is no longer than that, and flushes at once; in the threaded
    sink this is so on a turn that reads [running] as true before the
    read and again after it, and a turn that reads it as false after the
    read writes nothing.  Over a script of such arrivals the plain sink's
    file grows by exactly these bytes, in order. *)
Theorem sink_appends_datagram (buffer file d : list byte) (script : list arrival) :
  length buffer = BUFFER_SIZE ->
  has_no_nul d ->
  ((turn buffer file (Datagram d)).1.2 = file ++ take RECV_CAP d
   /\ (turn buffer file (Datagram d)).2 = [EvFwrite (take RECV_CAP d); EvFflush])
  /\ (let tk := {| tk_running := true; tk_arrival := Datagram d; tk_running_again := true |} in
      (receive_turn buffer file tk).1.2 = file ++ take RECV_CAP d
      /\ (receive_turn buffer file tk).2 = [EvFwrite (take RECV_CAP d); EvFflush]
      /\ (receive_turn buffer file tk).1.1.1 = Receiving)
  /\ (let tk := {| tk_running := true; tk_arrival := Datagram d; tk_running_again := false |} in
      (receive_turn buffer file tk).1.2 = file /\ (receive_turn buffer file tk).2 = [])
  /\ ((length d <= RECV_CAP)%nat -> take RECV_CAP d = d)
  /\ (Forall clean script ->
      (udp_server buffer file script).1 = file ++ concat (received <$> script)).
Proof.
  intros Hb Hd.
  pose proof (c_string_no_nul _ (has_no_nul_take RECV_CAP d Hd)) as Hout.
  destruct (turn_datagram buffer file d Hb) as (b1 & H1 & _).
  destruct (receive_turn_datagram buffer file d Hb) as (b2 & H2 & _).
  cbv zeta in *. rewrite Hout in H1, H2. rewrite H1, H2.
  repeat split; try done.
  - intros Hle. by apply take_ge.
  - intros Hs. by apply udp_server_log.
Qed.

Lemma sink_appends_datagram_witness :
  length Samples.blank = BUFFER_SIZE
  /\ has_no_nul (Samples.hel ++ Samples.lo)
  /\ (turn Samples.blank [x3e] (Datagram (Samples.hel ++ Samples.lo))).1.2
     = [x3e] ++ take RECV_CAP (Samples.hel ++ Samples.lo).
Proof.
  assert (length Samples.blank = BUFFER_SIZE) as Hb by (vm_compute; reflexivity).
  assert (has_no_nul (Samples.hel ++ Samples.lo)) as Hd by (by repeat constructor).
  split; [exact Hb|]. split; [exact Hd|].
  exact (proj1 (proj1
    (sink_appends_datagram Samples.blank [x3e] (Samples.hel ++ Samples.lo) [] Hb Hd))).
Defined.

(** C8, as stated, fails twice.  A zero byte ends what is written: of the
    datagram [A, NUL, B] only [A] reaches the file.  And a datagram longer
    than 4095 bytes is cut: of 4096 letters, 4095 are appended. *)
Lemma sink_cuts_datagram :
  (turn Samples.blank [] (Datagram [x41; x00; x42])).1.2 = [x41]
  /\ (turn Samples.blank [] (Datagram [x41; x00; x42])).2 = [EvFwrite [x41]; EvFflush]
  /\ (turn Samples.blank [] (Datagram (Samples.letters 4096))).1.2 = Samples.letters 4095.
Proof. repeat split; vm_compute; reflexivity. Qed.

End SinkClaims.

(** ** Startup: the claim *)

Module StartupClaims.
Import Startup StartupFacts.

(** The README's invocation starts; a listen port of 0 does not; a
    destination port of 0 does. *)
Example tcp_main_starts :
  tcp_main atoi_dec 4 ["tcp_server"; "9999"; "127.0.0.1"; "5140"]%string Samples.all_well
  = ([ EvSocket 3; EvSocket 4; EvSetsockopt 4; EvBind 4; EvListen 4;
       EvPrintf "TCP server listening on port %s, forwarding to UDP %s:%s";
       EvPrintf "Type 'quit' and press Enter to exit the server gracefully." ],
     inr Samples.g0).
Proof. vm_compute. reflexivity. Qed.

(** C9 (as amended).  With an argument count other than 4, both servers
    print the usage line and return 1, and that is all they do: no socket
    exists yet.  With four arguments and a listen port that is zero modulo
    2^16, they print the usage line and return 1 as well, provided the calls
    before the test succeeded, and by then the UDP socket and the listening
    socket (and the epoll descriptor) have been created; they are closed
    again, and nothing is bound.  The destination port is never tested:
    with a listen port that is not zero and every call succeeding, both
    servers start, without a usage line, whatever the destination port
    evaluates to, zero included, and that value is the port they send to. *)
Theorem usage_errors (atoi : string -> Z) (argc : Z) (argv : list string) (a : answers) :
  (argc <> 4 ->
   tcp_main atoi argc argv a = ([EvPrintf USAGE], inl 1)
   /\ epoll_main atoi argc argv a = ([EvPrintf USAGE], inl 1))
  /\ (argc = 4 -> atoi (arg argv 1) mod 2 ^ 16 = 0 ->
      0 <= an_udp_socket a -> 0 < an_inet_pton a -> 0 <= an_listen_socket a ->
      tcp_main atoi argc argv a
      = ([ EvSocket (an_udp_socket a); EvSocket (an_listen_socket a); EvPrintf USAGE;
           EvClose (an_udp_socket a); EvClose (an_listen_socket a) ],
         inl 1))
  /\ (argc = 4 -> atoi (arg argv 1) mod 2 ^ 16 = 0 ->
      0 <= an_udp_socket a -> 0 < an_inet_pton a -> an_epoll_create a <> -1 ->
      0 <= an_listen_socket a -> 0 <= an_setsockopt a ->
      epoll_main atoi argc argv a
      = ([ EvSocket (an_udp_socket a); EvEpollCreate (an_epoll_create a);
           EvSocket (an_listen_socket a); EvSetsockopt (an_listen_socket a);
           EvPrintf USAGE;
           EvClose (an_udp_socket a); EvClose (an_epoll_create a);
           EvClose (an_listen_socket a) ],
         inl 1))
  /\ (argc = 4 -> atoi (arg argv 1) mod 2 ^ 16 <> 0 ->
      0 <= an_udp_socket a -> 0 < an_inet_pton a -> 0 <= an_listen_socket a ->
      0 <= an_bind a -> 0 <= an_listen a -> an_create a = 0 ->
      tcp_main atoi argc argv a
      = ([ EvSocket (an_udp_socket a); EvSocket (an_listen_socket a);
           EvSetsockopt (an_listen_socket a); EvBind (an_listen_socket a);
           EvListen (an_listen_socket a);
           EvPrintf "TCP server listening on port %s, forwarding to UDP %s:%s";
           EvPrintf "Type 'quit' and press Enter to exit the server gracefully." ],
         inr {| udp_socket := an_udp_socket a;
                udp_addr := {| sin_addr := an_addr a;
                               sin_port := htons (atoi (arg argv 3)) |};
                listen_fd := an_listen_socket a |}))
  /\ (argc = 4 -> atoi (arg argv 1) mod 2 ^ 16 <> 0 ->
      0 <= an_udp_socket a -> 0 < an_inet_pton a -> an_epoll_create a <> -1 ->
      0 <= an_listen_socket a -> 0 <= an_setsockopt a ->
      0 <= an_bind a -> 0 <= an_listen a ->
      an_getfl a <> -1 -> an_setfl a <> -1 -> an_ctl a <> -1 ->
      epoll_main atoi argc argv a
      = ([ EvSocket (an_udp_socket a); EvEpollCreate (an_epoll_create a);
           EvSocket (an_listen_socket a); EvSetsockopt (an_listen_socket a);
           EvBind (an_listen_socket a); EvListen (an_listen_socket a);
           EvFcntl (an_listen_socket a); EvFcntl (an_listen_socket a);
           EvEpollAdd (an_listen_socket a);
           EvPrintf "Epoll-based TCP server listening on port %s, forwarding to UDP %s:%s";
           EvPrintf "Type 'quit' and press Enter to exit the server gracefully." ],
         inr ({| udp_socket := an_udp_socket a;
                 udp_addr := {| sin_addr := an_addr a;
                                sin_port := htons (atoi (arg argv 3)) |};
                 listen_fd := an_listen_socket a |},
              an_epoll_create a)))
  /\ (atoi (arg argv 3) mod 2 ^ 16 = 0 -> htons (atoi (arg argv 3)) = 0).
Proof.
  split; [|split; [|split; [|split; [|split]]]].
  - intros Hargc. unfold tcp_main, epoll_main.
    destruct (Z.eqb_spec argc 4); [done|]. done.
  - intros -> Hport Hu Hp Hl. apply htons_zero in Hport.
    unfold tcp_main. rewrite Hport.
    destruct (Z.ltb_spec (an_udp_socket a) 0); [lia|].
    destruct (Z.leb_spec (an_inet_pton a) 0); [lia|].
    destruct (Z.ltb_spec (an_listen_socket a) 0); [lia|].
    reflexivity.
  - intros -> Hport Hu Hp He Hl Hs. apply htons_zero in Hport.
    unfold epoll_main. rewrite Hport.
    destruct (Z.ltb_spec (an_udp_socket a) 0); [lia|].
    destruct (Z.leb_spec (an_inet_pton a) 0); [lia|].
    destruct (Z.eqb_spec (an_epoll_create a) (-1)); [lia|].
    destruct (Z.ltb_spec (an_listen_socket a) 0); [lia|].
    destruct (Z.ltb_spec (an_setsockopt a) 0); [lia|].
    reflexivity.
  - intros -> Hport Hu Hp Hl Hb Hli Hcr.
    assert (htons (atoi (arg argv 1)) <> 0) as Hnz by (by rewrite htons_zero).
    unfold tcp_main.
    destruct (Z.eqb_spec (htons (atoi (arg argv 1))) 0); [done|].
    destruct (Z.ltb_spec (an_udp_socket a) 0); [lia|].
    destruct (Z.leb_spec (an_inet_pton a) 0); [lia|].
    destruct (Z.ltb_spec (an_listen_socket a) 0); [lia|].
    destruct (Z.ltb_spec (an_bind a) 0); [lia|].
    destruct (Z.ltb_spec (an_listen a) 0); [lia|].
    rewrite Hcr. reflexivity.
  - intros -> Hport Hu Hp He Hl Hs Hb Hli Hg Hsf Hc.
    assert (htons (atoi (arg argv 1)) <> 0) as Hnz by (by rewrite htons_zero).
    unfold epoll_main, Epoll.set_nonblocking, Epoll.add_to_epoll.
    destruct (Z.eqb_spec (htons (atoi (arg argv 1))) 0); [done|].
    destruct (Z.ltb_spec (an_udp_socket a) 0); [lia|].
    destruct (Z.leb_spec (an_inet_pton a) 0); [lia|].
    destruct (Z.eqb_spec (an_epoll_create a) (-1)); [lia|].
    destruct (Z.ltb_spec (an_listen_socket a) 0); [lia|].
    destruct (Z.ltb_spec (an_setsockopt a) 0); [lia|].
    destruct (Z.ltb_spec (an_bind a) 0); [lia|].
    destruct (Z.ltb_spec (an_listen a) 0); [lia|].
    destruct (Z.eqb_spec (an_getfl a) (-1)); [done|].
    destruct (Z.eqb_spec (an_setfl a) (-1)); [done|].
    destruct (Z.eqb_spec (an_ctl a) (-1)); [done|].
    reflexivity.
  - apply htons_zero.
Qed.

(** C9, as stated, fails for a port of zero.  With a listen port of 0 the
    usage line comes after both sockets have been created; and a
    destination port of 0 is no error at all, the server starts. *)
Lemma usage_error_after_sockets :
  tcp_main atoi_dec 4 ["tcp_server"; "0"; "127.0.0.1"; "5140"]%string Samples.all_well
  = ([EvSocket 3; EvSocket 4; EvPrintf USAGE; EvClose 3; EvClose 4], inl 1)
  /\ epoll_main atoi_dec 4 ["epoll_server"; "0"; "127.0.0.1"; "5140"]%string Samples.all_well
    = ([ EvSocket 3; EvEpollCreate 5; EvSocket 4; EvSetsockopt 4; EvPrintf USAGE;
         EvClose 3; EvClose 5; EvClose 4 ], inl 1)
  /\ (tcp_main atoi_dec 4 ["tcp_server"; "9999"; "127.0.0.1"; "0"]%string Samples.all_well).2
    = inr {| udp_socket := 3;
             udp_addr := {| sin_addr := 2130706433; sin_port := 0 |};
             listen_fd := 4 |}.
Proof. repeat split; vm_compute; reflexivity. Qed.

End StartupClaims.

(** * More properties *)

(** ** What [send_all] delivers *)

Module DeliveryFacts.
Import SendAll Delivery SendAllFacts.

Lemma send_wire_contract policy :
  policy_contract policy -> send_contract (send_wire policy).
Proof. intros Hp t w size Hsize. simpl. by apply Hp. Qed.

Lemma take_add {A} (l : list A) n k :
  take (n + k) l = take n l ++ take k (drop n l).
Proof.
  revert l. induction n as [|n IH]; intros l; simpl; [done|].
  destruct l as [|x l]; simpl; [by rewrite take_nil|]. by rewrite IH.
Qed.

(** From [sent] bytes on, the loop hands the peer the bytes of the buffer in
    order and without a gap, up to an offset [m] that is [len] on success
    and short of [len] on failure. *)
Lemma send_loop_delivers policy buf len :
  policy_contract policy ->
  is_unsigned len ->
  forall fuel sent t o,
    0 <= sent <= len ->
    send_loop (send_wire policy) fuel buf len sent t = Some o ->
    exists m,
      sent <= m <= len
      /\ taken (after o) = taken t ++ take (Z.to_nat (m - sent)) (window buf sent)
      /\ (ret o = 0 -> m = len)
      /\ (ret o = 0 \/ (ret o = -1 /\ m < len))
      /\ calls (after o) = (calls t + count_sends (events o))%nat.
Proof.
  intros Hp Hlen fuel.
  pose proof (send_wire_contract policy Hp) as Hc.
  induction fuel as [|fuel IH]; intros sent t o Hsent Ho.
  - simpl in Ho. destruct (Z.ltb_spec sent len); [done|].
    injection Ho as <-. exists sent. simpl.
    rewrite Z.sub_diag, app_nil_r. unfold count_sends. simpl.
    repeat split; first [lia | by left | done].
  - destruct (Z.eq_dec sent len) as [->|Hne].
    { simpl in Ho. rewrite Z.ltb_irrefl in Ho. injection Ho as <-.
      exists len. simpl. rewrite Z.sub_diag, app_nil_r. unfold count_sends. simpl.
      repeat split; first [lia | by left | done]. }
    assert (sent < len) as Hlt by lia.
    destruct (send_wire policy t (window buf sent) (usub len sent)) as [n t'] eqn:Hs.
    destruct (Z_le_gt_dec n 0) as [Hn|Hn].
    + rewrite (send_loop_failed _ fuel buf len sent t n t') in Ho by done.
      injection Ho as <-. exists sent. simpl.
      injection Hs as Hn' <-. simpl.
      destruct (Z.ltb_spec 0 (policy (calls t) (usub len sent))); [lia|].
      rewrite Z.sub_diag. unfold count_sends. simpl.
      repeat split; first [lia | done | right; split; [done|lia]].
    + destruct (sent_advances _ len sent t (window buf sent) n t' Hc Hlen) as [Hadd Hrange];
        [lia | done | lia |].
      rewrite (send_loop_partial _ fuel buf len sent t n t') in Ho by (done || lia).
      rewrite Hadd in Ho.
      destruct (send_loop (send_wire policy) fuel buf len (sent + n) t') as [o'|] eqn:Ho';
        [|done].
      simpl in Ho. injection Ho as <-.
      destruct (IH (sent + n) t' o' ltac:(lia) Ho') as (m & Hm & Htaken & Hok & Hret & Hcalls).
      exists m. rewrite count_sends_emit_send. simpl.
      injection Hs as Hn' <-. simpl in *.
      rewrite Hn' in *.
      destruct (Z.ltb_spec 0 n); [|lia].
      repeat split; try lia; try done.
      rewrite Htaken, <- app_assoc. f_equal.
      replace (Z.to_nat (m - sent)) with (Z.to_nat n + Z.to_nat (m - (sent + n)))%nat by lia.
      rewrite take_add. f_equal. unfold window.
      rewrite drop_drop. do 2 f_equal. lia.
Qed.

(** X1.  What the peer has taken when [send_all] returns: after a return
    of 0, exactly the first [len] bytes of the buffer, in order, whatever
    the sizes of the partial writes; after a return of -1, a strictly
    shorter prefix of them.  The number of [send] calls is the number the
    peer saw. *)
Theorem send_all_delivers (policy : nat -> Z -> Z) (fuel : nat) (buf : list byte)
    (len : Z) (t : wire) (o : outcome wire) :
  policy_contract policy ->
  is_unsigned len ->
  send_all (send_wire policy) fuel (Some buf) len t = Some o ->
  (ret o = 0 -> taken (after o) = taken t ++ take (Z.to_nat len) buf)
  /\ (ret o <> 0 ->
      ret o = -1
      /\ exists m, 0 <= m < len /\ taken (after o) = taken t ++ take (Z.to_nat m) buf)
  /\ calls (after o) = (calls t + count_sends (events o))%nat.
Proof.
  intros Hp Hlen Ho. unfold send_all in Ho.
  destruct (Z.eqb_spec len 0) as [->|Hne].
  - injection Ho as <-. simpl. rewrite app_nil_r. unfold count_sends. simpl.
    repeat split; first [done | lia].
  - assert (0 <= len) as Hpos by (unfold is_unsigned in Hlen; lia).
    destruct (send_loop_delivers policy buf len Hp Hlen fuel 0 t o ltac:(lia) Ho)
      as (m & Hm & Htaken & Hok & Hret & Hcalls).
    unfold window in Htaken. rewrite Z.sub_0_r in Htaken. simpl in Htaken.
    split; [|split; [|done]].
    + intros H0. by rewrite Htaken, (Hok H0).
    + intros Hn. destruct Hret as [?|[? ?]]; [done|]. split; [done|].
      exists m. split; [lia|done].
Qed.

Lemma four_then_one_contract : policy_contract four_then_one.
Proof. intros k size Hsize. unfold four_then_one. lia. Qed.

Lemma send_all_delivers_witness :
  policy_contract four_then_one
  /\ is_unsigned 8
  /\ send_all (send_wire four_then_one) 8
       (Some [x41; x42; x43; x44; x45; x46; x47; x48; x49]) 8 fresh
     = Some (Outcome 0
         {| calls := 3; taken := [x41; x42; x43; x44; x45; x46; x47; x48] |}
         [EvSend 0 8; EvSend 4 4; EvSend 5 3])
  /\ taken {| calls := 3; taken := [x41; x42; x43; x44; x45; x46; x47; x48] |}
     = taken fresh ++ take (Z.to_nat 8) [x41; x42; x43; x44; x45; x46; x47; x48; x49].
Proof.
  assert (is_unsigned 8) as Hlen by (unfold is_unsigned, UINT_MOD, UINT_WIDTH; lia).
  assert (send_all (send_wire four_then_one) 8
            (Some [x41; x42; x43; x44; x45; x46; x47; x48; x49]) 8 fresh
          = Some (Outcome 0
              {| calls := 3; taken := [x41; x42; x43; x44; x45; x46; x47; x48] |}
              [EvSend 0 8; EvSend 4 4; EvSend 5 3])) as Hrun
    by (vm_compute; reflexivity).
  split; [apply four_then_one_contract|]. split; [exact Hlen|]. split; [exact Hrun|].
  exact (proj1 (send_all_delivers four_then_one 8 _ 8 fresh _
                  four_then_one_contract Hlen Hrun) eq_refl).
Defined.

(** A connection that is reset after three bytes: the call fails and the
    peer holds three bytes. *)
Example send_all_reset_run :
  send_all (send_wire three_then_reset) 8 (Some [x41; x42; x43; x44; x45]) 5 fresh
  = Some (Outcome (-1) {| calls := 2; taken := [x41; x42; x43] |}
      [EvSend 0 5; EvSend 3 2; EvPerror MSG_SEND_FAILED]).
Proof. vm_compute. reflexivity. Qed.

End DeliveryFacts.

(** ** The log sink: what reaches the file *)

Module SinkLogFacts.
Import Sink SinkFacts SinkLog.

Lemma c_string_has_no_nul bs : has_no_nul (c_string bs).
Proof.
  induction bs as [|b bs IH]; simpl; [constructor|].
  destruct (Byte.eqb b x00) eqn:Hb; [constructor|].
  constructor; [|done]. intros ->. vm_compute in Hb. done.
Qed.

Lemma c_string_prefix bs : exists rest, bs = c_string bs ++ rest.
Proof.
  induction bs as [|b bs [rest IH]]; simpl; [by exists []|].
  destruct (Byte.eqb b x00); [by eexists|].
  exists rest. simpl. by rewrite <- IH.
Qed.

Lemma c_string_length bs : (length (c_string bs) <= length bs)%nat.
Proof.
  induction bs as [|b bs IH]; simpl; [done|].
  destruct (Byte.eqb b x00); simpl; lia.
Qed.

(** One turn of the plain sink, for any arrival. *)
Lemma turn_any buffer file a :
  length buffer = BUFFER_SIZE ->
  exists buffer',
    turn buffer file a = (buffer', file ++ logged a, reported a)
    /\ length buffer' = BUFFER_SIZE.
Proof.
  intros Hb. destruct a as [d|errno].
  - destruct (turn_datagram buffer file d Hb) as (b1 & H1 & Hb1). by exists b1.
  - exists buffer. simpl. by rewrite app_nil_r.
Qed.

(** One turn of the receive thread, for any turn. *)
Lemma receive_turn_any buffer file tk :
  length buffer = BUFFER_SIZE ->
  exists buffer' evs,
    receive_turn buffer file tk
    = (if stops tk then Stopped else Receiving, buffer',
       file ++ (if stops tk then [] else logged (tk_arrival tk)), evs)
    /\ length buffer' = BUFFER_SIZE
    /\ Handler.calls evs = (if stops tk then [] else Handler.calls (reported (tk_arrival tk))).
Proof.
  intros Hb. destruct tk as [r a r2]. unfold receive_turn, stops. simpl.
  destruct r; simpl; [|exists buffer, []; by rewrite app_nil_r].
  destruct a as [d|errno].
  - destruct r2; simpl.
    + destruct (receive_turn_datagram buffer file d Hb) as (b1 & H1 & Hb1).
      unfold receive_turn in H1. simpl in H1. cbv zeta in H1.
      destruct (recvfrom buffer d) as [n b0].
      destruct (write_out b0 file n) as [[b2 f2] e2].
      injection H1 as <- <- <-. by eexists _, _.
    + unfold recvfrom. eexists _, []. rewrite app_nil_r. split; [done|]. split; [|done].
      rewrite length_app, length_drop, length_take.
      unfold RECV_CAP, BUFFER_SIZE in *. lia.
  - exists buffer. destruct (would_block errno); eexists; by rewrite app_nil_r.
Qed.

Lemma udp_server_any script :
  forall buffer file,
    length buffer = BUFFER_SIZE ->
    udp_server buffer file script
    = (file ++ concat (logged <$> script), concat (reported <$> script)).
Proof.
  induction script as [|a script IH]; intros buffer file Hb; simpl.
  - by rewrite app_nil_r.
  - destruct (turn_any buffer file a Hb) as (b1 & -> & Hb1).
    rewrite (IH b1 _ Hb1). by rewrite <- app_assoc.
Qed.

Lemma udp_receive_thread_any script :
  forall buffer file,
    length buffer = BUFFER_SIZE ->
    exists evs,
      udp_receive_thread buffer file script
      = (if existsb stops script then Stopped else Receiving,
         file ++ concat (logged <$> before_stop script), evs)
      /\ Handler.calls evs = Handler.calls (concat (reported <$> before_stop script)).
Proof.
  induction script as [|tk script IH]; intros buffer file Hb; simpl.
  - exists []. by rewrite app_nil_r.
  - destruct (receive_turn_any buffer file tk Hb) as (b1 & e1 & -> & Hb1 & He1).
    destruct (stops tk); simpl.
    + exists e1. by rewrite app_nil_r.
    + destruct (IH b1 (file ++ logged (tk_arrival tk)) Hb1) as (e2 & -> & He2).
      exists (e1 ++ e2). rewrite <- app_assoc. split; [done|].
      by rewrite !HandlerFacts.calls_app, He1, He2.
Qed.

Lemma before_stop_always_running script : before_stop (always_running script) = script.
Proof. induction script as [|a script IH]; simpl; [done|]. destruct a; by rewrite IH. Qed.

Lemma existsb_stops_always_running script : existsb stops (always_running script) = false.
Proof. induction script as [|a script IH]; simpl; [done|]. by destruct a. Qed.

(** X2.  The log file only grows.  After any arrivals, the plain sink's
    file is its old content followed, datagram by datagram, by the bytes
    that come before the first zero byte among the datagram's first 4095;
    each write is followed by a flush and a failed receive writes nothing.
    What is written for a datagram is a prefix of it, has no zero byte and
    at most 4095 bytes. *)
Theorem sink_log_grows (buffer file : list byte) (script : list arrival) :
  length buffer = BUFFER_SIZE ->
  udp_server buffer file script
  = (file ++ concat (logged <$> script), concat (reported <$> script))
  /\ forall d,
       has_no_nul (logged (Datagram d))
       /\ (length (logged (Datagram d)) <= RECV_CAP)%nat
       /\ exists rest, d = logged (Datagram d) ++ rest.
Proof.
  intros Hb. split; [by apply udp_server_any|].
  intros d. simpl. split; [apply c_string_has_no_nul|]. split.
  - etrans; [apply c_string_length|]. rewrite length_take. lia.
  - destruct (c_string_prefix (take RECV_CAP d)) as [rest Hrest].
    exists (rest ++ drop RECV_CAP d).
    rewrite app_assoc, <- Hrest. by rewrite take_drop.
Qed.

Lemma sink_log_grows_witness :
  length Samples.blank = BUFFER_SIZE
  /\ udp_server Samples.blank [x3e]
       [Datagram Samples.hel; Failure EAGAIN; Datagram [x41; x00; x42]; Datagram Samples.lo]
     = ([x3e] ++ concat (logged <$>
          [Datagram Samples.hel; Failure EAGAIN; Datagram [x41; x00; x42];
           Datagram Samples.lo]),
        concat (reported <$>
          [Datagram Samples.hel; Failure EAGAIN; Datagram [x41; x00; x42];
           Datagram Samples.lo])).
Proof.
  assert (length Samples.blank = BUFFER_SIZE) as Hb by (vm_compute; reflexivity).
  split; [exact Hb|].
  exact (proj1 (sink_log_grows Samples.blank [x3e] _ Hb)).
Defined.

(** X3.  The terminating zero is stored inside the buffer.  [recvfrom]
    answers at most 4095, so [buffer[n] = 0] writes below the buffer's 4096
    bytes, right behind the bytes received; the buffer keeps its size. *)
Theorem sink_terminator_in_bounds (buffer file d : list byte) :
  length buffer = BUFFER_SIZE ->
  let n := (recvfrom buffer d).1 in
  let buffer' := (turn buffer file (Datagram d)).1.1 in
  0 <= n <= Z.of_nat RECV_CAP
  /\ (Z.to_nat n < length (recvfrom buffer d).2)%nat
  /\ length buffer' = BUFFER_SIZE
  /\ buffer' !! Z.to_nat n = Some x00
  /\ take (Z.to_nat n) buffer' = take RECV_CAP d.
Proof.
  intros Hb n buffer'. subst n buffer'. unfold turn, recvfrom, write_out.
  cbn [fst snd]. rewrite terminated by done. rewrite Nat2Z.id.
  assert (length (take RECV_CAP d) <= RECV_CAP)%nat as Hle by (rewrite length_take; lia).
  split; [lia|]. split; [|split; [|split]].
  - rewrite length_app, length_drop. unfold RECV_CAP, BUFFER_SIZE in *. lia.
  - rewrite length_app. simpl. rewrite length_drop.
    unfold RECV_CAP, BUFFER_SIZE in *. lia.
  - rewrite lookup_app_r by done. by rewrite Nat.sub_diag.
  - by rewrite take_app_length.
Qed.

Lemma sink_terminator_in_bounds_witness :
  length Samples.blank = BUFFER_SIZE
  /\ (turn Samples.blank [] (Datagram (Samples.letters 5000))).1.1
     !! Z.to_nat (recvfrom Samples.blank (Samples.letters 5000)).1 = Some x00.
Proof.
  assert (length Samples.blank = BUFFER_SIZE) as Hb by (vm_compute; reflexivity).
  split; [exact Hb|].
  exact (proj1 (proj2 (proj2 (proj2
    (sink_terminator_in_bounds Samples.blank [] (Samples.letters 5000) Hb))))).
Defined.

(** X4.  While [running] is read as true, the threaded sink writes what the
    plain sink writes: the same file, the same writes and flushes in the
    same order; only its reports differ (it is silent on a receive
    timeout). *)
Theorem receive_thread_matches_plain (buffer file : list byte) (script : list arrival) :
  length buffer = BUFFER_SIZE ->
  (udp_receive_thread buffer file (always_running script)).1.1 = Receiving
  /\ (udp_receive_thread buffer file (always_running script)).1.2
     = (udp_server buffer file script).1
  /\ Handler.calls (udp_receive_thread buffer file (always_running script)).2
     = Handler.calls (udp_server buffer file script).2.
Proof.
  intros Hb.
  destruct (udp_receive_thread_any (always_running script) buffer file Hb) as (evs & -> & He).
  rewrite (udp_server_any script buffer file Hb).
  rewrite existsb_stops_always_running, before_stop_always_running in *. done.
Qed.

Lemma receive_thread_matches_plain_witness :
  length Samples.blank = BUFFER_SIZE
  /\ (udp_receive_thread Samples.blank []
        (always_running [Datagram Samples.hel; Failure EAGAIN; Datagram Samples.lo])).1.2
     = (udp_server Samples.blank []
        [Datagram Samples.hel; Failure EAGAIN; Datagram Samples.lo]).1.
Proof.
  assert (length Samples.blank = BUFFER_SIZE) as Hb by (vm_compute; reflexivity).
  split; [exact Hb|].
  exact (proj1 (proj2 (receive_thread_matches_plain Samples.blank [] _ Hb))).
Defined.

(** X5.  The receive thread has left its loop exactly when some turn read
    [running] as false, at the top of the loop or after a datagram came in;
    the file then holds what the turns before that one wrote and nothing
    else: the datagram received in the stopping turn is dropped. *)
Theorem receive_thread_stops (buffer file : list byte) (script : list tick) :
  length buffer = BUFFER_SIZE ->
  ((udp_receive_thread buffer file script).1.1 = Stopped
   <-> Exists (fun tk => stops tk = true) script)
  /\ (udp_receive_thread buffer file script).1.2
     = file ++ concat (logged <$> before_stop script).
Proof.
  intros Hb.
  destruct (udp_receive_thread_any script buffer file Hb) as (evs & -> & _).
  cbn [fst snd]. split; [|done].
  rewrite List.Exists_exists, <- List.existsb_exists.
  by destruct (existsb stops script).
Qed.

Lemma receive_thread_stops_witness :
  length Samples.blank = BUFFER_SIZE
  /\ (udp_receive_thread Samples.blank []
        [ {| tk_running := true; tk_arrival := Datagram Samples.hel; tk_running_again := true |};
          {| tk_running := true; tk_arrival := Datagram Samples.lo; tk_running_again := false |};
          {| tk_running := true; tk_arrival := Datagram Samples.hel; tk_running_again := true |}
        ]).1.2
     = [] ++ concat (logged <$> before_stop
        [ {| tk_running := true; tk_arrival := Datagram Samples.hel; tk_running_again := true |};
          {| tk_running := true; tk_arrival := Datagram Samples.lo; tk_running_again := false |};
          {| tk_running := true; tk_arrival := Datagram Samples.hel; tk_running_again := true |}
        ]).
Proof.
  assert (length Samples.blank = BUFFER_SIZE) as Hb by (vm_compute; reflexivity).
  split; [exact Hb|].
  exact (proj2 (receive_thread_stops Samples.blank [] _ Hb)).
Defined.

End SinkLogFacts.

(** ** The console command *)

Module QuitFacts.

Lemma ascii_diff c d :
  Z.of_nat (Ascii.nat_of_ascii c) - Z.of_nat (Ascii.nat_of_ascii d) = 0 -> c = d.
Proof.
  intros H. rewrite <- (Ascii.ascii_nat_embedding c), <- (Ascii.ascii_nat_embedding d).
  f_equal. lia.
Qed.

Lemma strncmp_0 a b : strncmp a b 0 = 0.
Proof. by destruct a. Qed.

Lemma strncmp_cons c a d b n :
  strncmp (String c a) (String d b) (S n) = 0 <-> c = d /\ strncmp a b n = 0.
Proof.
  simpl. destruct (Ascii.eqb_spec c d) as [->|Hne].
  - split; [done | by intros [_ ?]].
  - split; [by intros ?%ascii_diff | by intros [? _]].
Qed.

Lemma strncmp_short d b n :
  Ascii.nat_of_ascii d <> 0%nat -> strncmp EmptyString (String d b) (S n) <> 0.
Proof. simpl. lia. Qed.

(** X6.  A console line is taken for the quit command exactly when it
    begins with the four letters [quit]; what follows them, a newline or
    anything else, is not looked at. *)
Theorem is_quit_prefix (input : string) :
  is_quit input = true <-> exists rest, input = ("quit" ++ rest)%string.
Proof.
  unfold is_quit. rewrite Z.eqb_eq. split.
  - intros H.
    destruct input as [|c1 input]; [by apply strncmp_short in H|].
    apply strncmp_cons in H as [-> H].
    destruct input as [|c2 input]; [by apply strncmp_short in H|].
    apply strncmp_cons in H as [-> H].
    destruct input as [|c3 input]; [by apply strncmp_short in H|].
    apply strncmp_cons in H as [-> H].
    destruct input as [|c4 input]; [by apply strncmp_short in H|].
    apply strncmp_cons in H as [-> H].
    by exists input.
  - intros [rest ->]. simpl. apply strncmp_0.
Qed.

End QuitFacts.

(** ** The console: reading the operator's input *)

Module ConsoleFacts.
Import Console.

Local Open Scope string_scope.

Lemma read_line_spec k s :
  let '(l, r) := read_line k s in
  s = l ++ r
  /\ (String.length l <= k)%nat
  /\ ((0 < k)%nat -> s <> "" -> l <> "").
Proof.
  revert s. induction k as [|k IH]; intros s; simpl.
  - repeat split; [lia | lia].
  - destruct s as [|c s]; [repeat split; [simpl; lia | done]|].
    destruct (Ascii.eqb c newline_char).
    + repeat split; [simpl; lia | done].
    + specialize (IH s). destruct (read_line k s) as [l r].
      destruct IH as (-> & Hlen & _). repeat split; [simpl; lia | done].
Qed.

Lemma append_length a b : String.length (a ++ b) = (String.length a + String.length b)%nat.
Proof. induction a as [|c a IH]; simpl; [done|]. by rewrite IH. Qed.

Lemma fgets_spec stdin input rest :
  fgets INPUT_SIZE stdin = Some (input, rest) ->
  stdin = input ++ rest
  /\ (1 <= String.length input <= 9)%nat
  /\ (String.length rest < String.length stdin)%nat.
Proof.
  pose proof (read_line_spec 9 stdin) as Hspec.
  unfold fgets, INPUT_SIZE. change (10 - 1)%nat with 9%nat.
  destruct stdin as [|c s]; [done|].
  destruct (read_line 9 (String c s)) as [l r].
  intros H. apply (inj Some) in H. apply pair_equal_spec in H as [-> ->].
  destruct Hspec as (Heq & Hlen & Hne).
  assert (input <> "") as Hin by (apply Hne; [lia|done]).
  assert (1 <= String.length input)%nat by (destruct input; [done|simpl; lia]).
  split; [done|]. split; [lia|].
  rewrite Heq, append_length. lia.
Qed.

Lemma pieces_upto_join fuel :
  forall stdin, (String.length stdin <= fuel)%nat -> join (pieces_upto fuel stdin) = stdin.
Proof.
  induction fuel as [|fuel IH]; intros stdin Hlen; simpl.
  - destruct stdin; [done | simpl in Hlen; lia].
  - destruct (fgets INPUT_SIZE stdin) as [[input rest]|] eqn:Hf.
    + apply fgets_spec in Hf as (-> & _ & Hrest). simpl. rewrite IH; [done|lia].
    + by destruct stdin.
Qed.

Lemma pieces_upto_bounds fuel :
  forall stdin,
    Forall (fun l => (1 <= String.length l <= 9)%nat) (pieces_upto fuel stdin).
Proof.
  induction fuel as [|fuel IH]; intros stdin; simpl; [constructor|].
  destruct (fgets INPUT_SIZE stdin) as [[input rest]|] eqn:Hf; [|constructor].
  apply fgets_spec in Hf as (_ & Hlen & _). by constructor.
Qed.

Lemma console_loop_eof fuel : console_loop fuel "" = Waiting "".
Proof. induction fuel as [|fuel IH]; [done|]. exact IH. Qed.

Lemma loop_on_nil fuel : loop_on fuel [] = Waiting "".
Proof. induction fuel as [|fuel IH]; [done|]. exact IH. Qed.

Lemma console_loop_pieces fuel :
  forall stdin k, (String.length stdin <= k)%nat ->
    console_loop fuel stdin = loop_on fuel (pieces_upto k stdin).
Proof.
  induction fuel as [|fuel IH]; intros stdin k Hk.
  - simpl. by rewrite pieces_upto_join.
  - destruct k as [|k].
    + destruct stdin; [|simpl in Hk; lia].
      by rewrite console_loop_eof, loop_on_nil.
    + simpl. destruct (fgets INPUT_SIZE stdin) as [[input rest]|] eqn:Hf.
      * apply fgets_spec in Hf as (-> & _ & Hrest).
        rewrite append_length in Hk, Hrest.
        destruct (is_quit input).
        -- rewrite pieces_upto_join; [done|lia].
        -- apply IH. lia.
      * destruct stdin; [|done]. by rewrite console_loop_eof, loop_on_nil.
Qed.

Lemma loop_on_quit ls :
  forall pre post fuel,
    until_quit ls = Some (pre, post) -> (length pre < fuel)%nat ->
    loop_on fuel ls = Quit (join post).
Proof.
  induction ls as [|l ls IH]; intros pre post fuel Hq Hfuel; [done|].
  simpl in Hq. destruct fuel as [|fuel]; [lia|]. simpl.
  destruct (is_quit l).
  - apply (inj Some) in Hq. by apply pair_equal_spec in Hq as [_ ->].
  - destruct (until_quit ls) as [[pre' post']|]; [|done].
    apply (inj Some) in Hq. apply pair_equal_spec in Hq as [<- <-].
    apply (IH pre' post'); [done|]. simpl in Hfuel. lia.
Qed.

Lemma loop_on_waits ls :
  forall fuel, until_quit ls = None -> loop_on fuel ls = Waiting (join (drop fuel ls)).
Proof.
  induction ls as [|l ls IH]; intros fuel Hq.
  - rewrite loop_on_nil. by destruct fuel.
  - destruct fuel as [|fuel]; [done|]. simpl in *.
    destruct (is_quit l); [done|].
    destruct (until_quit ls) as [[pre post]|]; [done|]. by apply IH.
Qed.

Lemma read_line_short k :
  forall line rest,
    has_newline line = false -> (String.length line < k)%nat ->
    read_line k (line ++ String newline_char rest)
    = (line ++ String newline_char "", rest).
Proof.
  induction k as [|k IH]; intros line rest Hnl Hlen; [lia|].
  destruct line as [|c line].
  - done.
  - simpl in Hnl, Hlen. apply orb_false_iff in Hnl as [Hc Hnl].
    change (read_line (S k) (String c line ++ String newline_char rest))
      with (if Ascii.eqb c newline_char
            then (String c "", line ++ String newline_char rest)
            else let '(l, r) := read_line k (line ++ String newline_char rest)
                 in (String c l, r)).
    rewrite Hc, IH; [done|done|lia].
Qed.

Lemma read_line_long k :
  forall line rest,
    has_newline line = false -> String.length line = k ->
    read_line k (line ++ rest) = (line, rest).
Proof.
  induction k as [|k IH]; intros line rest Hnl Hlen.
  - destruct line; [|done]. by destruct rest.
  - destruct line as [|c line]; [done|].
    simpl in Hnl, Hlen. apply orb_false_iff in Hnl as [Hc Hnl].
    change (read_line (S k) (String c line ++ rest))
      with (if Ascii.eqb c newline_char
            then (String c "", line ++ rest)
            else let '(l, r) := read_line k (line ++ rest) in (String c l, r)).
    rewrite Hc, IH; [done|done|lia].
Qed.

(** X7.  Reading the console loses nothing and never overruns the input
    buffer: the pieces [fgets] hands to the loop, put end to end, are the
    input, and each holds between one and nine characters, so that with
    its terminator it fits the ten bytes of [input]. *)
Theorem fgets_pieces (stdin : string) :
  join (pieces stdin) = stdin
  /\ Forall (fun l => (1 <= String.length l < INPUT_SIZE)%nat) (pieces stdin).
Proof.
  split.
  - unfold pieces. by apply pieces_upto_join.
  - unfold pieces. eapply list.Forall_impl; [apply pieces_upto_bounds|].
    intros l Hl. unfold INPUT_SIZE. simpl in Hl. lia.
Qed.

(** X8.  A line of at most eight characters is read whole, newline
    included, by one call; of a line of nine characters or more the first
    nine are read and the rest is left for the next call. *)
Theorem fgets_lines (line rest : string) (Hnl : has_newline line = false) :
  ((String.length line <= 8)%nat ->
   fgets INPUT_SIZE (line ++ String newline_char rest)
   = Some (line ++ String newline_char "", rest))
  /\ (String.length line = 9%nat ->
      fgets INPUT_SIZE (line ++ rest) = Some (line, rest)).
Proof.
  split; intros Hlen.
  - unfold fgets, INPUT_SIZE. change (10 - 1)%nat with 9%nat.
    rewrite read_line_short; [|done|lia]. by destruct line.
  - unfold fgets, INPUT_SIZE. change (10 - 1)%nat with 9%nat.
    rewrite read_line_long; [|done|done]. by destruct line.
Qed.

Lemma fgets_lines_witness :
  has_newline "quit" = false
  /\ fgets INPUT_SIZE ("quit" ++ String newline_char "next")
     = Some ("quit" ++ String newline_char "", "next").
Proof.
  split; [reflexivity|].
  apply (fgets_lines "quit" "next"); [reflexivity | simpl; lia].
Defined.

(** X9.  The console loop leaves at the first piece of the input that
    begins with [quit], having read the pieces before it and nothing
    behind it. *)
Theorem console_loop_quits (stdin : string) (pre post : list string) (fuel : nat)
    (Hq : until_quit (pieces stdin) = Some (pre, post))
    (Hfuel : (length pre < fuel)%nat) :
  console_loop fuel stdin = Quit (join post).
Proof.
  rewrite (console_loop_pieces fuel stdin (String.length stdin)); [|done].
  by apply (loop_on_quit _ pre post).
Qed.

Lemma console_loop_quits_witness :
  console_loop 3 ("hi" ++ String newline_char ("quit" ++ String newline_char "more"))
  = Quit "more".
Proof.
  apply (console_loop_quits _ ["hi" ++ String newline_char ""] ["more"] 3);
    [reflexivity | simpl; lia].
Defined.

(** X10.  With no piece that begins with [quit] the loop is never left:
    once the input is used up [fgets] answers NULL at every turn and the
    loop goes on, whatever the number of turns. *)
Theorem console_loop_spins (stdin : string) (fuel : nat)
    (Hq : until_quit (pieces stdin) = None) :
  console_loop fuel stdin = Waiting (join (drop fuel (pieces stdin))).
Proof.
  rewrite (console_loop_pieces fuel stdin (String.length stdin)); [|done].
  by apply loop_on_waits.
Qed.

Lemma console_loop_spins_witness :
  console_loop 1000 ("exit" ++ String newline_char "") = Waiting "".
Proof.
  apply (console_loop_spins ("exit" ++ String newline_char "") 1000). reflexivity.
Defined.

(** A long line is cut, and a cut that falls before [quit] leaves the
    loop although no line begins with it. *)
Example console_loop_cut_line :
  console_loop 2 ("123456789quit" ++ String newline_char "") = Quit "".
Proof. reflexivity. Qed.

End ConsoleFacts.

(** ** Descriptors held while starting *)

Module DescriptorFacts.
Import Startup Descriptors.

Lemma set_nonblocking_quiet fd getfl setfl :
  opened (Epoll.set_nonblocking fd getfl setfl).2 = []
  /\ closed (Epoll.set_nonblocking fd getfl setfl).2 = [].
Proof.
  unfold Epoll.set_nonblocking.
  repeat match goal with |- context [if ?b then _ else _] => destruct b end; done.
Qed.

Lemma add_to_epoll_quiet fd ctl :
  opened (Epoll.add_to_epoll fd ctl).2 = [] /\ closed (Epoll.add_to_epoll fd ctl).2 = [].
Proof.
  unfold Epoll.add_to_epoll.
  repeat match goal with |- context [if ?b then _ else _] => destruct b end; done.
Qed.

(** X11.  The threaded bridge never leaves [main] at startup with a
    descriptor open: whenever it gives up, its status is 1 and it has
    closed the sockets it was given, each once, in the order it got them;
    when it goes on it has closed nothing and holds them in its globals. *)
Theorem tcp_main_descriptors (atoi : string -> Z) (argc : Z) (argv : list string)
    (a : answers) :
  match tcp_main atoi argc argv a with
  | (evs, inl status) => status = 1 /\ closed evs = opened evs
  | (evs, inr g) => closed evs = [] /\ opened evs = [udp_socket g; listen_fd g]
  end.
Proof.
  unfold tcp_main.
  destruct (argc =? 4); [|done].
  cbn. destruct (Z.ltb_spec (an_udp_socket a) 0) as [Hu|Hu]; cbn.
  { split; [done|]. unfold opened. cbn.
    destruct (Z.leb_spec 0 (an_udp_socket a)); [lia|done]. }
  assert ((0 <=? an_udp_socket a) = true) as Eu by lia.
  destruct (an_inet_pton a <=? 0); cbn.
  { unfold opened, closed. cbn. by rewrite Eu. }
  destruct (Z.ltb_spec (an_listen_socket a) 0) as [Hl|Hl]; cbn.
  { unfold opened, closed. cbn. rewrite Eu.
    destruct (Z.leb_spec 0 (an_listen_socket a)); [lia|done]. }
  assert ((0 <=? an_listen_socket a) = true) as El by lia.
  destruct (htons (atoi (arg argv 1)) =? 0); cbn.
  { unfold opened, closed. cbn. by rewrite Eu, El. }
  destruct (an_bind a <? 0); cbn.
  { unfold opened, closed. cbn. by rewrite Eu, El. }
  destruct (an_listen a <? 0); cbn.
  { unfold opened, closed. cbn. by rewrite Eu, El. }
  destruct (an_create a =? 0); cbn.
  - unfold opened, closed. cbn. by rewrite Eu, El.
  - unfold opened, closed. cbn. by rewrite Eu, El.
Qed.

(** X12.  The same holds of the event-loop server, which holds an epoll
    descriptor besides the two sockets, as long as [epoll_create1] answers
    [-1] or a descriptor. *)
Theorem epoll_main_descriptors (atoi : string -> Z) (argc : Z) (argv : list string)
    (a : answers)
    (Hep : an_epoll_create a = -1 \/ 0 <= an_epoll_create a) :
  match epoll_main atoi argc argv a with
  | (evs, inl status) => status = 1 /\ closed evs = opened evs
  | (evs, inr (g, ep)) =>
      closed evs = [] /\ opened evs = [udp_socket g; ep; listen_fd g]
  end.
Proof.
  unfold epoll_main.
  destruct (argc =? 4); [|done].
  cbn. destruct (Z.ltb_spec (an_udp_socket a) 0) as [Hu|Hu]; cbn.
  { split; [done|]. unfold opened. cbn.
    destruct (Z.leb_spec 0 (an_udp_socket a)); [lia|done]. }
  assert ((0 <=? an_udp_socket a) = true) as Eu by lia.
  destruct (an_inet_pton a <=? 0); cbn.
  { unfold opened, closed. cbn. by rewrite Eu. }
  destruct (Z.eqb_spec (an_epoll_create a) (-1)) as [He|He]; cbn.
  { unfold opened, closed. cbn. rewrite Eu, He. done. }
  assert ((0 <=? an_epoll_create a) = true) as Ee by lia.
  destruct (Z.ltb_spec (an_listen_socket a) 0) as [Hl|Hl]; cbn.
  { unfold opened, closed. cbn. rewrite Eu, Ee.
    destruct (Z.leb_spec 0 (an_listen_socket a)); [lia|done]. }
  assert ((0 <=? an_listen_socket a) = true) as El by lia.
  destruct (an_setsockopt a <? 0); cbn.
  { unfold opened, closed. cbn. by rewrite Eu, Ee, El. }
  destruct (htons (atoi (arg argv 1)) =? 0); cbn.
  { unfold opened, closed. cbn. by rewrite Eu, Ee, El. }
  destruct (an_bind a <? 0); cbn.
  { unfold opened, closed. cbn. by rewrite Eu, Ee, El. }
  destruct (an_listen a <? 0); cbn.
  { unfold opened, closed. cbn. by rewrite Eu, Ee, El. }
  pose proof (set_nonblocking_quiet (an_listen_socket a) (an_getfl a) (an_setfl a))
    as [Ho1 Hc1].
  destruct (Epoll.set_nonblocking (an_listen_socket a) (an_getfl a) (an_setfl a))
    as [r1 e1]. cbn [snd] in Ho1, Hc1.
  pose proof (add_to_epoll_quiet (an_listen_socket a) (an_ctl a)) as [Ho2 Hc2].
  destruct (Epoll.add_to_epoll (an_listen_socket a) (an_ctl a)) as [r2 e2].
  cbn [snd] in Ho2, Hc2.
  assert (forall X Y, opened (X ++ Y) = opened X ++ opened Y) as Hoa
    by (intros; apply omap_app).
  assert (forall X Y, closed (X ++ Y) = closed X ++ closed Y) as Hca
    by (intros; apply omap_app).
  cbn. destruct (r1 =? -1); cbn.
  { rewrite !Hoa, !Hca, Ho1, Hc1. unfold opened, closed. cbn.
    by rewrite Eu, Ee, El. }
  destruct (r2 =? -1); cbn.
  { rewrite !Hoa, !Hca, Ho1, Hc1, Ho2, Hc2. unfold opened, closed. cbn.
    by rewrite Eu, Ee, El. }
  rewrite !Hoa, !Hca, Ho1, Hc1, Ho2, Hc2. unfold opened, closed. cbn.
  by rewrite Eu, Ee, El.
Qed.

Lemma epoll_main_descriptors_witness :
  match epoll_main atoi_dec 4 ["epoll_server"; "9999"; "127.0.0.1"; "5140"]%string
          Samples.all_well with
  | (evs, inl status) => status = 1 /\ closed evs = opened evs
  | (evs, inr (g, ep)) =>
      closed evs = [] /\ opened evs = [udp_socket g; ep; listen_fd g]
  end.
Proof.
  apply (epoll_main_descriptors atoi_dec 4
           ["epoll_server"; "9999"; "127.0.0.1"; "5140"]%string Samples.all_well).
  right. simpl. lia.
Defined.

End DescriptorFacts.
(** ** Connections and who closes them *)

Module ConnectionFacts.
Import Connections.

Lemma accepted_app a b : accepted (a ++ b) = accepted a ++ accepted b.
Proof. apply omap_app. Qed.
Lemma spawned_app a b : spawned (a ++ b) = spawned a ++ spawned b.
Proof. apply omap_app. Qed.
Lemma settled_app a b : settled (a ++ b) = settled a ++ settled b.
Proof. apply omap_app. Qed.

(** One turn of the accept loop settles the connection it accepted. *)
Lemma iterate_settles g tk :
  let '(_, evs, c) := Acceptor.iterate g tk in
  accepted evs = settled evs /\ spawned evs = option_list c.
Proof.
  unfold Acceptor.iterate.
  destruct (negb (Acceptor.tk_running tk)); [done|].
  set (pre := EvSetsockopt (listen_fd g) :: _).
  assert (accepted pre = [] /\ settled pre = [] /\ spawned pre = []) as (Ha & Hs & Hp)
    by (subst pre; destruct (Acceptor.tk_setsockopt tk <? 0); done).
  destruct (negb (Acceptor.tk_malloc tk)).
  { cbv beta iota zeta. rewrite accepted_app, settled_app, spawned_app, Ha, Hs, Hp. done. }
  destruct (Z.ltb_spec (Acceptor.tk_accept tk) 0) as [Hc|Hc].
  - assert ((0 <=? Acceptor.tk_accept tk) = false) as E by lia.
    destruct (would_block (Acceptor.tk_errno tk)).
    + cbv beta iota zeta. rewrite accepted_app, settled_app, spawned_app, Ha, Hs, Hp.
      unfold accepted, settled, spawned. cbn. by rewrite E.
    + cbv beta iota zeta. rewrite accepted_app, settled_app, spawned_app, Ha, Hs, Hp.
      unfold accepted, settled, spawned. cbn. rewrite E.
      by destruct (Acceptor.tk_running_again tk).
  - assert ((0 <=? Acceptor.tk_accept tk) = true) as E by lia.
    destruct (negb (Acceptor.tk_create tk =? 0)).
    + cbv beta iota zeta. rewrite accepted_app, settled_app, spawned_app, Ha, Hs, Hp.
      unfold accepted, settled, spawned. cbn. by rewrite E.
    + cbv beta iota zeta. rewrite accepted_app, settled_app, spawned_app, Ha, Hs, Hp.
      unfold accepted, settled, spawned. cbn. by rewrite E.
Qed.

Lemma at_once_app q a b : at_once q a -> at_once None b -> at_once q (a ++ b).
Proof.
  revert q. induction a as [|e a IH]; intros q Ha Hb; simpl in *.
  - by subst q.
  - destruct q as [c|].
    + destruct e; try done; destruct Ha as [-> Ha]; eauto.
    + destruct e; try done; eauto.
Qed.

Lemma iterate_at_once g tk : at_once None (Acceptor.iterate g tk).1.2.
Proof.
  unfold Acceptor.iterate.
  destruct (negb (Acceptor.tk_running tk)); [done|].
  assert (forall tl, at_once None tl ->
            at_once None
              ((EvSetsockopt (listen_fd g)
                  :: (if Acceptor.tk_setsockopt tk <? 0
                      then [EvPerror "setsockopt failed in accept thread"] else [])) ++ tl))
    as Hpre by (intros tl Htl; by destruct (Acceptor.tk_setsockopt tk <? 0)).
  destruct (negb (Acceptor.tk_malloc tk)); [by apply Hpre|].
  destruct (Z.ltb_spec (Acceptor.tk_accept tk) 0) as [Hc|Hc].
  - assert ((0 <=? Acceptor.tk_accept tk) = false) as E by lia.
    destruct (would_block (Acceptor.tk_errno tk)); cbn [fst snd]; apply Hpre; cbn; rewrite E;
      [done|by destruct (Acceptor.tk_running_again tk)].
  - assert ((0 <=? Acceptor.tk_accept tk) = true) as E by lia.
    destruct (negb (Acceptor.tk_create tk =? 0)); cbn [fst snd]; apply Hpre; cbn; by rewrite E.
Qed.

(** X13.  The accept thread drops no connection: each one [accept] hands
    out is settled by the very next call, which gives it to a client
    thread or closes it, so before anything else is accepted; the accept
    thread starts no thread and closes nothing anywhere else; and the
    connections it dispatched are those it started threads for. *)
Theorem accept_thread_settles (g : globals) (script : list Acceptor.tick) :
  at_once None (Acceptor.accept_thread_func g script).1.2
  /\ accepted (Acceptor.accept_thread_func g script).1.2
     = settled (Acceptor.accept_thread_func g script).1.2
  /\ spawned (Acceptor.accept_thread_func g script).1.2
     = (Acceptor.accept_thread_func g script).2.
Proof.
  induction script as [|tk script IH]; [done|].
  cbn [Acceptor.accept_thread_func].
  pose proof (iterate_settles g tk) as H1.
  pose proof (iterate_at_once g tk) as H0.
  destruct (Acceptor.iterate g tk) as [[st evs] c]. cbn [fst snd] in H0.
  destruct H1 as [H1 H2]. destruct st.
  - destruct (Acceptor.accept_thread_func g script) as [[st' evs'] cs].
    cbn [fst snd] in *. destruct IH as (IH0 & IH1 & IH2).
    split; [by apply at_once_app|].
    by rewrite accepted_app, settled_app, spawned_app, H1, H2, IH1, IH2.
  - done.
Qed.

(** A trace in which the closes come late is not one of the accept
    thread's. *)
Example at_once_rejects_late_close :
  ~ at_once None [EvAccept 7; EvAccept 8; EvClose 7; EvSpawn 8]
  /\ at_once None [EvAccept 7; EvClose 7; EvAccept 8; EvSpawn 8].
Proof. split; [intros H|]; simpl in *; tauto. Qed.

Lemma events_of_app a tr1 tr2 : events_of a (tr1 ++ tr2) = events_of a tr1 ++ events_of a tr2.
Proof. apply omap_app. Qed.

Lemma actor_eqb_refl a : actor_eqb a a = true.
Proof. destruct a; simpl; [done|done|apply Nat.eqb_refl]. Qed.

Lemma events_of_tag a b evs :
  events_of a (Bridge.tag b evs) = if actor_eqb b a then evs else [].
Proof.
  unfold events_of, Bridge.tag. destruct (actor_eqb b a) eqn:E.
  - induction evs as [|e evs IH]; [done|]. cbn. rewrite E. cbn. f_equal. exact IH.
  - induction evs as [|e evs IH]; [done|]. cbn. rewrite E. exact IH.
Qed.

Lemma closed_app a b : Descriptors.closed (a ++ b) = Descriptors.closed a ++ Descriptors.closed b.
Proof. apply omap_app. Qed.

Lemma handler_iterate_closes_nothing g fd buffer tk :
  let '(st, _, evs) := Handler.iterate g fd buffer tk in
  Descriptors.closed evs = [] /\ st <> Handler.Closed.
Proof.
  unfold Handler.iterate, forward.
  repeat match goal with |- context [if ?b then _ else _] => destruct b end; done.
Qed.

Lemma prologue_closes_nothing fd so : Descriptors.closed (Handler.prologue fd so) = [].
Proof. unfold Handler.prologue. by destruct (so <? 0). Qed.

Lemma main_step_accounted g fgets w w' :
  Bridge.main_step g fgets w = Some w' -> accounted w -> accounted w'.
Proof.
  intros Hstep (Ha & Hb & Hc).
  assert (Bridge.workers w' = Bridge.workers w
          /\ exists evs, Bridge.trace w' = Bridge.trace w ++ Bridge.tag Bridge.Main evs)
    as (Hw & evs & Ht).
  { unfold Bridge.main_step in Hstep. destruct (Bridge.main_at w).
    - destruct (Bridge.control (Bridge.running w) fgets) as [[m r] evs].
      apply (inj Some) in Hstep as <-. split; [done|]. by eexists.
    - destruct (Bridge.acceptor_at w); [done|].
      apply (inj Some) in Hstep as <-. split; [done|]. by eexists.
    - apply (inj Some) in Hstep as <-. split; [done|]. by eexists.
    - apply (inj Some) in Hstep as <-. split; [done|]. by eexists.
    - done. }
  unfold accounted, closed_by. rewrite Hw, Ht.
  rewrite !events_of_app, !events_of_tag. cbn [actor_eqb]. rewrite !app_nil_r.
  split; [done|]. split; [done|].
  intros i. rewrite events_of_app, events_of_tag. cbn [actor_eqb]. rewrite app_nil_r.
  apply Hc.
Qed.

Lemma accept_step_accounted g tk so buffer w w' :
  Bridge.accept_step g tk so buffer w = Some w' -> accounted w -> accounted w'.
Proof.
  intros Hstep (Ha & Hb & Hc).
  unfold Bridge.accept_step in Hstep.
  destruct (Bridge.acceptor_at w); [|done].
  pose proof (iterate_settles g (Acceptor.seen (Bridge.running w) tk)) as Hit.
  destruct (Acceptor.iterate g (Acceptor.seen (Bridge.running w) tk)) as [[a evs] c].
  destruct Hit as [H1 H2].
  apply (inj Some) in Hstep as <-.
  assert (forall b, events_of b (Bridge.started_events c (length (Bridge.workers w)) so)
                    = match c with
                      | Some fd =>
                          if actor_eqb (Bridge.Worker (length (Bridge.workers w))) b
                          then Handler.prologue fd so else []
                      | None => []
                      end) as Hst.
  { intros b. unfold Bridge.started_events. destruct c; [apply events_of_tag|done]. }
  unfold accounted, closed_by.
  cbn [Bridge.workers Bridge.trace].
  rewrite !events_of_app, !events_of_tag, !Hst. cbn [actor_eqb].
  assert (match c with Some _ => [] | None => [] end = @nil event) as -> by by destruct c.
  rewrite app_nil_r.
  split; [|split].
  - rewrite fmap_app, spawned_app, Ha, H2. by destruct c.
  - by rewrite accepted_app, settled_app, Hb, H1.
  - intros i. rewrite !events_of_app, events_of_tag, Hst. cbn [actor_eqb app].
    rewrite closed_app, Hc. unfold closed_by.
    destruct (decide (i < length (Bridge.workers w))%nat) as [Hlt|Hge].
    + rewrite lookup_app_l by done.
      destruct c as [fd|]; [|by rewrite app_nil_r].
      assert (Nat.eqb (length (Bridge.workers w)) i = false) as ->
        by (apply Nat.eqb_neq; lia).
      by rewrite app_nil_r.
    + rewrite (lookup_ge_None_2 (Bridge.workers w)) by lia.
      rewrite lookup_app_r by lia.
      destruct c as [fd|]; cbn.
      * destruct (Nat.eqb_spec (length (Bridge.workers w)) i) as [<-|Hne].
        -- rewrite Nat.sub_diag. cbn. by destruct (so <? 0).
        -- cbn. destruct (i - length (Bridge.workers w))%nat eqn:E; [lia|done].
      * by rewrite lookup_nil.
Qed.

Lemma worker_step_accounted g i rx sr w w' :
  Bridge.worker_step g i rx sr w = Some w' -> accounted w -> accounted w'.
Proof.
  intros Hstep (Ha & Hb & Hc).
  unfold Bridge.worker_step in Hstep.
  destruct (Bridge.workers w !! i) as [wk|] eqn:Hwk; [|done]. cbn in Hstep.
  assert (exists st buffer' evs,
             w' = {| Bridge.running := Bridge.running w; Bridge.main_at := Bridge.main_at w;
                     Bridge.acceptor_at := Bridge.acceptor_at w;
                     Bridge.workers :=
                       <[i := {| Bridge.wk_fd := Bridge.wk_fd wk; Bridge.wk_state := st;
                                 Bridge.wk_buffer := buffer' |}]> (Bridge.workers w);
                     Bridge.trace := Bridge.trace w ++ Bridge.tag (Bridge.Worker i) evs |}
             /\ Descriptors.closed evs
                = match st with Handler.Closed => [Bridge.wk_fd wk] | _ => [] end
             /\ Bridge.wk_state wk <> Handler.Closed)
    as (st & buffer' & evs & -> & Hcl & Hold).
  { destruct (Bridge.wk_state wk) eqn:Hs.
    - pose proof (handler_iterate_closes_nothing g (Bridge.wk_fd wk) (Bridge.wk_buffer wk)
                    {| Handler.tk_running := Bridge.running w; Handler.tk_recv := rx;
                       Handler.tk_sendto := sr |}) as Hit.
      destruct (Handler.iterate _ _ _ _) as [[st buffer'] evs]. destruct Hit as [H1 H2].
      apply (inj Some) in Hstep as <-. exists st, buffer', evs.
      split; [done|]. split; [by destruct st|done].
    - apply (inj Some) in Hstep as <-.
      exists Handler.Closed, (Bridge.wk_buffer wk), (Handler.epilogue (Bridge.wk_fd wk)).
      done.
    - done. }
  unfold accounted, closed_by. cbn [Bridge.workers Bridge.trace].
  rewrite !events_of_app, !events_of_tag. cbn [actor_eqb]. rewrite !app_nil_r.
  split; [|split; [done|]].
  - rewrite list_fmap_insert. cbn. rewrite list_insert_id; [done|].
    by rewrite list_lookup_fmap, Hwk.
  - intros j. rewrite events_of_app, events_of_tag, closed_app, Hc. cbn [actor_eqb].
    unfold closed_by.
    destruct (Nat.eqb_spec i j) as [<-|Hne].
    + rewrite list_lookup_insert_eq by (by eapply lookup_lt_Some).
      rewrite Hwk, Hcl. cbn. by destruct (Bridge.wk_state wk).
    + rewrite list_lookup_insert_ne by done. by rewrite app_nil_r.
Qed.

Lemma step_accounted g l w w' :
  Bridge.step g l w = Some w' -> accounted w -> accounted w'.
Proof.
  unfold Bridge.step. intros Hstep.
  destruct l.
  - apply (main_step_accounted g fgets). by destruct (Bridge.main_at w).
  - apply (accept_step_accounted g tk so buffer). by destruct (Bridge.main_at w).
  - apply (worker_step_accounted g i rx sr). by destruct (Bridge.main_at w).
Qed.

Lemma run_accounted g ls :
  forall w w', Bridge.run g ls w = Some w' -> accounted w -> accounted w'.
Proof.
  induction ls as [|l ls IH]; intros w w' Hrun Hw.
  - apply (inj Some) in Hrun as <-. done.
  - simpl in Hrun. destruct (Bridge.step g l w) as [w1|] eqn:Hs; [|done].
    eapply IH; [exact Hrun|]. by eapply step_accounted.
Qed.

(** X14.  In every run of the threaded bridge, whatever the interleaving:
    the client threads are those the accept thread started, one for each
    connection it did not close itself; and each client thread closes its
    own connection, once, when it returns, and closes nothing before and
    nothing else. *)
Theorem connections_closed_once (g : globals) (ls : list Bridge.label) (w : Bridge.world)
    (Hrun : Bridge.run g ls Bridge.initial = Some w) :
  Bridge.wk_fd <$> Bridge.workers w = spawned (events_of Bridge.Accept (Bridge.trace w))
  /\ accepted (events_of Bridge.Accept (Bridge.trace w))
     = settled (events_of Bridge.Accept (Bridge.trace w))
  /\ forall i, Descriptors.closed (events_of (Bridge.Worker i) (Bridge.trace w)) = closed_by i w.
Proof.
  apply (run_accounted g ls Bridge.initial w Hrun).
  repeat split.
Qed.

Lemma connections_closed_once_witness :
  Bridge.run Samples.g0 Samples.quit_schedule Bridge.initial = Some Samples.after_quit
  /\ Descriptors.closed (events_of (Bridge.Worker 0) (Bridge.trace Samples.after_quit)) = [7].
Proof.
  assert (Bridge.run Samples.g0 Samples.quit_schedule Bridge.initial
          = Some Samples.after_quit) as Hrun by (vm_compute; reflexivity).
  split; [exact Hrun|].
  pose proof (connections_closed_once Samples.g0 Samples.quit_schedule Samples.after_quit Hrun)
    as (_ & _ & Hc).
  rewrite (Hc 0%nat). reflexivity.
Defined.

End ConnectionFacts.

(** ** The test client *)

Module ClientFacts.
Import SendAll Delivery Client.

Lemma take_c_string bs : take (length (Sink.c_string bs)) bs = Sink.c_string bs.
Proof.
  destruct (SinkLogFacts.c_string_prefix bs) as [rest H].
  pose proof (take_app_length (Sink.c_string bs) rest) as Ht.
  by rewrite <- H in Ht.
Qed.

Lemma strlen_bound line : 0 <= strlen (snprintf line) < Z.of_nat BUF_SIZE.
Proof.
  unfold strlen, snprintf.
  pose proof (SinkLogFacts.c_string_length (take (BUF_SIZE - 1) line)) as H.
  rewrite length_take in H. unfold BUF_SIZE in *. lia.
Qed.

Lemma strlen_unsigned line : to_unsigned (strlen (snprintf line)) = strlen (snprintf line).
Proof.
  pose proof (strlen_bound line) as H. apply to_unsigned_small.
  unfold is_unsigned, UINT_MOD, UINT_WIDTH, BUF_SIZE in *. lia.
Qed.

Lemma sys_app a b : sys (a ++ b) = sys a ++ sys b.
Proof. apply omap_app. Qed.

Lemma sys_map evs : sys (map Sys evs) = evs.
Proof. induction evs as [|e evs IH]; [done|]. cbn. f_equal. exact IH. Qed.

Lemma send_loop_quiet {T} (send : T -> list byte -> Z -> Z * T) buf len fuel :
  forall sent t o,
    send_loop send fuel buf len sent t = Some o ->
    Descriptors.opened (events o) = [] /\ Descriptors.closed (events o) = []
    /\ datagrams (events o) = [].
Proof.
  induction fuel as [|fuel IH]; intros sent t o Ho; simpl in Ho.
  - destruct (sent <? len); [done|]. by apply (inj Some) in Ho as <-.
  - destruct (sent <? len); [|by apply (inj Some) in Ho as <-].
    destruct (send t (window buf sent) (usub len sent)) as [n t'].
    destruct (n <=? 0); [by apply (inj Some) in Ho as <-|].
    destruct (send_loop send fuel buf len _ t') as [o'|] eqn:Ho'; [|done].
    apply (inj Some) in Ho as <-. exact (IH _ _ _ Ho').
Qed.

Lemma send_all_quiet {T} (send : T -> list byte -> Z -> Z * T) buf len fuel t o :
  send_all send fuel buf len t = Some o ->
  Descriptors.opened (events o) = [] /\ Descriptors.closed (events o) = []
  /\ datagrams (events o) = [].
Proof.
  unfold send_all. destruct buf as [b|], (len =? 0).
  - by intros <-%(inj Some).
  - apply send_loop_quiet.
  - by intros <-%(inj Some).
  - by intros <-%(inj Some).
Qed.

Lemma send_all_wire policy fuel buf len t :
  policy_contract policy -> is_unsigned len -> (Z.to_nat len <= fuel)%nat ->
  exists o,
    send_all (send_wire policy) fuel (Some buf) len t = Some o
    /\ (ret o = 0 \/ ret o = -1)
    /\ (ret o = 0 -> taken (after o) = taken t ++ take (Z.to_nat len) buf).
Proof.
  intros Hp Hlen Hfuel. unfold send_all.
  destruct (Z.eqb_spec len 0) as [->|Hne].
  - eexists. split; [done|]. split; [by left|]. intros _. cbn. by rewrite app_nil_r.
  - assert (0 <= len) as Hpos by (unfold is_unsigned in Hlen; lia).
    destruct (SendAllFacts.send_loop_run (send_wire policy) buf len
                (DeliveryFacts.send_wire_contract policy Hp) Hlen fuel 0 t)
      as (o & Ho & _ & _ & Hret); [lia | lia |].
    exists o. split; [done|]. split; [done|].
    destruct (DeliveryFacts.send_loop_delivers policy buf len Hp Hlen fuel 0 t o
                ltac:(lia) Ho) as (m & Hm & Htaken & Hok & _).
    intros H0. rewrite Htaken, (Hok H0). unfold window. by rewrite Z.sub_0_r.
Qed.

(** X15.  The client returns, with status 0 or 1, and status 0 means the
    message went out whole by the transport that was asked for: in [tcp]
    mode the peer has taken exactly the message, however the stream cut
    it, and no datagram was sent; in [udp] mode one datagram was sent and
    it holds the message. *)
Theorem client_delivers (atoi : string -> Z) (policy : nat -> Z -> Z) (fuel : nat)
    (argc : Z) (argv : list string) (line : list byte) (a : answers) (t : wire)
    (Hp : policy_contract policy) (Hfuel : (BUF_SIZE <= fuel)%nat) :
  exists status cs t',
    main atoi policy fuel argc argv line a t = Some (status, cs, t')
    /\ (status = 0 \/ status = 1)
    /\ (status = 0 ->
        (Startup.arg argv 1 = "tcp"%string
         /\ taken t' = taken t ++ Sink.c_string (snprintf line)
         /\ datagrams (sys cs) = [])
        \/ (Startup.arg argv 1 = "udp"%string
            /\ datagrams (sys cs) = [Sink.c_string (snprintf line)]
            /\ t' = t)).
Proof.
  unfold main.
  destruct (argc <? 5); [by eexists _, _, _; split; [done|]; split; [right|]|].
  cbv zeta. cbn [sin_port].
  destruct (Startup.htons _ =? 0); [by eexists _, _, _; split; [done|]; split; [right|]|].
  destruct (an_inet_pton a <=? 0); [by eexists _, _, _; split; [done|]; split; [right|]|].
  destruct (String.eqb_spec (Startup.arg argv 1) "tcp") as [Hmode|_].
  { destruct (an_socket a <? 0); [by eexists _, _, _; split; [done|]; split; [right|]|].
    destruct (an_connect a <? 0); [by eexists _, _, _; split; [done|]; split; [right|]|].
    rewrite strlen_unsigned.
    pose proof (strlen_bound line) as Hb.
    destruct (send_all_wire policy fuel (snprintf line) (strlen (snprintf line)) t Hp)
      as (o & Ho & Hret & Htaken).
    { unfold is_unsigned, UINT_MOD, UINT_WIDTH, BUF_SIZE in *. lia. }
    { unfold BUF_SIZE in *. lia. }
    destruct (send_all_quiet _ _ _ _ _ _ Ho) as (_ & _ & Hd).
    rewrite Ho. cbn. destruct (Z.eqb_spec (ret o) 0) as [H0|_]; cbn.
    - eexists _, _, _. split; [done|]. split; [by left|]. intros _. left.
      split; [done|]. split.
      + rewrite (Htaken H0). unfold strlen. by rewrite Nat2Z.id, take_c_string.
      + change (Sys (EvSocket (an_socket a)) :: Connect (an_socket a) ?x :: ?l)
          with ([Sys (EvSocket (an_socket a)); Connect (an_socket a) x] ++ l).
        rewrite !sys_app, sys_map. cbn. unfold datagrams. rewrite omap_app.
        fold (datagrams (events o)). by rewrite Hd.
    - by eexists _, _, _; split; [done|]; split; [right|]. }
  destruct (String.eqb_spec (Startup.arg argv 1) "udp") as [Hmode|_].
  { destruct (an_socket a <? 0); [by eexists _, _, _; split; [done|]; split; [right|]|].
    destruct (an_sendto a <? 0); [by eexists _, _, _; split; [done|]; split; [right|]|].
    eexists _, _, _. split; [done|]. split; [by left|]. intros _. right.
    split; [done|]. split; [|done]. cbn. unfold strlen.
    by rewrite Nat2Z.id, take_c_string. }
  by eexists _, _, _; split; [done|]; split; [right|].
Qed.

Lemma client_delivers_witness :
  exists status cs t',
    main Startup.atoi_dec four_then_one BUF_SIZE
      5 ["test_client"; "tcp"; "127.0.0.1"; "9999"; "hi"]%string
      sample_line sample_answers fresh = Some (status, cs, t')
    /\ (status = 0 \/ status = 1)
    /\ (status = 0 ->
        (Startup.arg ["test_client"; "tcp"; "127.0.0.1"; "9999"; "hi"]%string 1
         = "tcp"%string
         /\ taken t' = taken fresh ++ Sink.c_string (snprintf sample_line)
         /\ datagrams (sys cs) = [])
        \/ (Startup.arg ["test_client"; "tcp"; "127.0.0.1"; "9999"; "hi"]%string 1
            = "udp"%string
            /\ datagrams (sys cs) = [Sink.c_string (snprintf sample_line)]
            /\ t' = fresh)).
Proof.
  apply (client_delivers Startup.atoi_dec four_then_one BUF_SIZE 5
           ["test_client"; "tcp"; "127.0.0.1"; "9999"; "hi"]%string
           sample_line sample_answers fresh).
  - intros k size Hsize. unfold four_then_one. lia.
  - apply Nat.le_refl.
Defined.

(** The sample run: the eleven bytes of the line go out in four writes. *)
Example client_sample_run :
  main Startup.atoi_dec four_then_one 100
    5 ["test_client"; "tcp"; "127.0.0.1"; "9999"; "hi"]%string
    sample_line sample_answers fresh
  = Some (0,
          [Sys (EvSocket 3);
           Connect 3 {| sin_addr := 2130706433; sin_port := Startup.htons 9999 |};
           Sys (EvSend 0 11); Sys (EvSend 4 7); Sys (EvSend 5 6); Sys (EvSend 9 2);
           Sys (EvSend 10 1);
           Sys (EvClose 3); Sys (EvPrintf "TCP message sent to %s:%d")],
          {| calls := 5; taken := sample_line |}).
Proof. vm_compute. reflexivity. Qed.

(** X16.  The client never leaves with its socket open: on every return
    it has closed the one socket it was given, if it was given one. *)
Theorem client_descriptors (atoi : string -> Z) (policy : nat -> Z -> Z) (fuel : nat)
    (argc : Z) (argv : list string) (line : list byte) (a : answers) (t : wire) :
  match main atoi policy fuel argc argv line a t with
  | Some (_, cs, _) =>
      Descriptors.closed (sys cs) = Descriptors.opened (sys cs)
      /\ (length (Descriptors.opened (sys cs)) <= 1)%nat
  | None => True
  end.
Proof.
  unfold main.
  destruct (argc <? 5); [by cbn; split; [|lia]|].
  cbv zeta. cbn [sin_port].
  destruct (Startup.htons _ =? 0); [by cbn; split; [|lia]|].
  destruct (an_inet_pton a <=? 0); [by cbn; split; [|lia]|].
  assert (forall X Y, Descriptors.opened (X ++ Y) = Descriptors.opened X ++ Descriptors.opened Y)
    as Hoa by (intros; apply omap_app).
  assert (forall X Y, Descriptors.closed (X ++ Y) = Descriptors.closed X ++ Descriptors.closed Y)
    as Hca by (intros; apply omap_app).
  destruct (String.eqb (Startup.arg argv 1) "tcp").
  { destruct (Z.ltb_spec (an_socket a) 0) as [Hs|Hs].
    { cbn. unfold Descriptors.opened. cbn.
      destruct (Z.leb_spec 0 (an_socket a)); [lia|]. split; [done|cbn; lia]. }
    assert ((0 <=? an_socket a) = true) as Es by lia.
    destruct (an_connect a <? 0).
    { cbn. unfold Descriptors.opened. cbn. rewrite Es. split; [done|cbn; lia]. }
    destruct (send_all _ _ _ _ _) as [o|] eqn:Ho; [|done].
    destruct (send_all_quiet _ _ _ _ _ _ Ho) as (Hso & Hsc & _).
    cbn. destruct (ret o =? 0); cbn.
    - change (Sys (EvSocket (an_socket a)) :: Connect (an_socket a) ?x :: ?l)
        with ([Sys (EvSocket (an_socket a)); Connect (an_socket a) x] ++ l).
      rewrite !sys_app, sys_map, !Hoa, !Hca, Hso, Hsc.
      cbn. unfold Descriptors.opened. cbn. rewrite Es. split; [done|cbn; lia].
    - change (Sys (EvSocket (an_socket a)) :: Connect (an_socket a) ?x :: ?l)
        with ([Sys (EvSocket (an_socket a)); Connect (an_socket a) x] ++ l).
      rewrite !sys_app, sys_map, !Hoa, !Hca, Hso, Hsc.
      cbn. unfold Descriptors.opened. cbn. rewrite Es. split; [done|cbn; lia]. }
  destruct (String.eqb (Startup.arg argv 1) "udp"); [|by cbn; split; [|lia]].
  destruct (Z.ltb_spec (an_socket a) 0) as [Hs|Hs].
  { cbn. unfold Descriptors.opened. cbn.
    destruct (Z.leb_spec 0 (an_socket a)); [lia|]. split; [done|cbn; lia]. }
  assert ((0 <=? an_socket a) = true) as Es by lia.
  destruct (an_sendto a <? 0).
  - cbn. unfold Descriptors.opened. cbn. rewrite Es. split; [done|cbn; lia].
  - cbn. unfold Descriptors.opened. cbn. rewrite Es. split; [done|cbn; lia].
Qed.

End ClientFacts.

(** ** The log sink: startup and shutdown *)

Module SinkMainFacts.
Import SinkMain.

Ltac socket_cases a :=
  unfold Descriptors.opened, Descriptors.closed, streams_opened, blocks_allocated, count;
  cbn;
  repeat match goal with
         | H : (?x <? 0) = _ |- context [0 <=? ?x] =>
             let E := fresh in
             assert ((0 <=? x) = negb (x <? 0)) as E by lia; rewrite E, H; clear E; cbn
         end.

(** X17.  The threaded sink never leaves [main] at startup with something
    open: whenever it gives up, its status is 1 and it has closed its
    socket if it had one, closed the log stream if it had opened it, and
    freed the thread's argument if it had allocated it.  When it goes on
    it holds the socket and the stream, and the argument is the thread's. *)
Theorem threaded_main_balanced (atoi : string -> Z) (argc : Z) (argv : list string)
    (a : answers) :
  match threaded_main atoi argc argv a with
  | (cs, Some status) =>
      status = 1
      /\ Descriptors.closed (sys cs) = Descriptors.opened (sys cs)
      /\ count is_fclose cs = streams_opened a cs
      /\ count is_free cs = blocks_allocated a cs
  | (cs, None) =>
      Descriptors.opened (sys cs) = [an_socket a] /\ Descriptors.closed (sys cs) = []
      /\ count is_fopen cs = 1%nat /\ count is_fclose cs = 0%nat
      /\ count is_malloc cs = 1%nat /\ count is_free cs = 0%nat
  end.
Proof.
  unfold threaded_main.
  destruct (argc =? 3); cbn; [|socket_cases a; by destruct (an_fopen a), (an_malloc a)].
  destruct (an_socket a <? 0) eqn:Hs;
    [socket_cases a; by destruct (an_fopen a), (an_malloc a)|].
  destruct (Startup.htons _ =? 0);
    [socket_cases a; by destruct (an_fopen a), (an_malloc a)|].
  destruct (an_bind a <? 0);
    [socket_cases a; by destruct (an_fopen a), (an_malloc a)|].
  destruct (an_fopen a) eqn:Hf; cbn;
    [|socket_cases a; rewrite Hf; by destruct (an_malloc a)].
  destruct (an_malloc a) eqn:Hm; cbn; [|socket_cases a; by rewrite Hf, Hm].
  destruct (an_create a =? 0); cbn; [by socket_cases a|].
  socket_cases a. by rewrite Hf, Hm.
Qed.

(** X18.  The plain sink closes its socket on every way out of startup
    but one: when the port is zero it returns with the socket open. *)
Theorem plain_main_leak (atoi : string -> Z) (argc : Z) (argv : list string)
    (a : answers) :
  match plain_main atoi argc argv a with
  | (cs, Some status) =>
      status = 1
      /\ count is_fclose cs = streams_opened a cs
      /\ (Descriptors.closed (sys cs) = Descriptors.opened (sys cs)
          \/ (Descriptors.closed (sys cs) = [] /\ Descriptors.opened (sys cs) = [an_socket a]))
      /\ (Descriptors.closed (sys cs) <> Descriptors.opened (sys cs)
          <-> argc = 3 /\ 0 <= an_socket a
              /\ atoi (Startup.arg argv 1) mod 2 ^ 16 = 0)
  | (cs, None) =>
      Descriptors.opened (sys cs) = [an_socket a] /\ Descriptors.closed (sys cs) = []
      /\ count is_fopen cs = 1%nat /\ count is_fclose cs = 0%nat
  end.
Proof.
  unfold plain_main.
  destruct (Z.eqb_spec argc 3) as [Hargc|Hargc]; cbn.
  2: { socket_cases a. split; [done|]. split; [by destruct (an_fopen a)|].
       split; [by left|]. split; [done|]. by intros (? & _). }
  destruct (an_socket a <? 0) eqn:Hs.
  { socket_cases a. split; [done|]. split; [by destruct (an_fopen a)|].
    split; [by left|]. split; [done|]. intros (_ & ? & _). lia. }
  pose proof (StartupFacts.htons_zero (atoi (Startup.arg argv 1))) as Hz.
  destruct (Z.eqb_spec (Startup.htons (atoi (Startup.arg argv 1))) 0) as [Hp|Hp].
  { socket_cases a. split; [done|]. split; [by destruct (an_fopen a)|].
    split; [by right|]. split; [|done].
    intros _. split; [done|]. split; [lia|]. by apply Hz. }
  destruct (an_bind a <? 0).
  { socket_cases a. split; [done|]. split; [by destruct (an_fopen a)|].
    split; [by left|]. split; [done|]. intros (_ & _ & ?). tauto. }
  destruct (an_fopen a) eqn:Hf; cbn.
  - by socket_cases a.
  - socket_cases a. rewrite Hf. split; [done|]. split; [done|].
    split; [by left|]. split; [done|]. intros (_ & _ & ?). tauto.
Qed.

End SinkMainFacts.
(** ** The threaded sink as a process of two threads *)

Module SinkWorldFacts.
Import SinkMain SinkWorld.

Lemma main_calls_app a b : main_calls (a ++ b) = main_calls a ++ main_calls b.
Proof. apply omap_app. Qed.

Lemma main_calls_main cs : main_calls (tag Main cs) = cs.
Proof. induction cs as [|c cs IH]; [done|]. cbn. f_equal. exact IH. Qed.

Lemma main_calls_receiver cs : main_calls (tag Receiver cs) = [].
Proof. induction cs as [|c cs IH]; [done|]. exact IH. Qed.

Lemma snd_tag a cs : snd <$> tag a cs = cs.
Proof. induction cs as [|c cs IH]; [done|]. cbn. f_equal. exact IH. Qed.

Lemma written_app a b : written (a ++ b) = written a ++ written b.
Proof. unfold written. by rewrite omap_app, concat_app. Qed.

Lemma use_after_close_app cs1 :
  forall closed cs2,
    use_after_close closed (cs1 ++ cs2)
    = use_after_close closed cs1
      || use_after_close (closed || existsb is_fclose cs1) cs2.
Proof.
  induction cs1 as [|c cs1 IH]; intros closed cs2.
  - cbn. by rewrite orb_false_r.
  - destruct c as [e| | | | |]; cbn; rewrite ?IH; try done.
    + destruct e; cbn; rewrite ?IH; try done; by rewrite orb_assoc.
    + by rewrite !orb_true_r.
Qed.

Lemma use_after_close_open cs :
  existsb is_fclose cs = false -> use_after_close false cs = false.
Proof.
  induction cs as [|c cs IH]; [done|].
  destruct c as [e| | | | |]; cbn; try done. by destruct e.
Qed.

Lemma written_main cs :
  Forall (fun c => match c with Sys (EvFwrite _) => False | _ => True end) cs ->
  forall a, written (tag a cs) = [].
Proof.
  intros H a. induction H as [|c cs Hc _ IH]; [done|].
  unfold written in *.
  destruct c as [e| | | | |]; [destruct e| | | | |]; cbn in Hc |- *; done.
Qed.

Lemma written_write a out : written (tag a (map Sys [EvFwrite out; EvFflush])) = out.
Proof. unfold written. cbn. by rewrite app_nil_r. Qed.

(** The trace of [w] extended by calls [cs] of thread [a] that neither
    close the stream nor write to it. *)
Lemma extend_quiet (tr : list (actor * call)) a cs :
  Forall (fun c => match c with
                   | Sys (EvFwrite _) | Sys EvFflush | Fclose => False
                   | _ => True
                   end) cs ->
  existsb is_fclose (snd <$> (tr ++ tag a cs)) = existsb is_fclose (snd <$> tr)
  /\ use_after_close false (snd <$> (tr ++ tag a cs)) = use_after_close false (snd <$> tr)
  /\ written (tr ++ tag a cs) = written tr.
Proof.
  intros H.
  assert (existsb is_fclose cs = false) as Hf.
  { induction H as [|c cs Hc _ IH]; [done|]. cbn. rewrite IH.
    destruct c as [e| | | | |]; [destruct e| | | | |]; cbn in Hc |- *; done. }
  assert (forall b, use_after_close b cs = false) as Hu.
  { clear Hf. intros b. induction H as [|c cs Hc _ IH]; [done|].
    destruct c as [e| | | | |]; [destruct e| | | | |]; cbn in Hc |- *; done. }
  rewrite fmap_app, snd_tag, List.existsb_app, Hf, orb_false_r.
  rewrite use_after_close_app, Hu, orb_false_r, written_app.
  split; [done|]. split; [done|].
  rewrite written_main; [by rewrite app_nil_r|].
  eapply list.Forall_impl; [exact H|]. intros c Hc.
  destruct c as [e| | | | |]; [destruct e| | | | |]; cbn in Hc |- *; done.
Qed.

Ltac quiet_calls :=
  repeat first [apply List.Forall_cons; [exact I|] | apply List.Forall_nil].

Lemma sink_main_step_invariant fd file0 fgets w w' :
  main_step fd fgets w = Some w' -> invariant fd file0 w -> invariant fd file0 w'.
Proof.
  unfold main_step. intros Hstep (I1 & I2 & I3 & I4 & I5 & I6 & I7).
  destruct (main_at w) eqn:Hm.
  - assert (running w = true) as Hr by (by apply I1).
    unfold control in Hstep. rewrite Hr in Hstep. cbn in Hstep.
    destruct fgets as [input|]; [destruct (is_quit input)|].
    + apply (inj Some) in Hstep as <-. unfold invariant. cbn [running main_at thread_at file trace].
      destruct (extend_quiet (trace w) Main
                  [Sys EvFlagClear; Sys (EvPrintf "Shutting down UDP server...")])
        as (E1 & E2 & E3); [quiet_calls|].
      rewrite E1, E2, E3, main_calls_app, main_calls_main, I4.
      repeat split; try done.
    + apply (inj Some) in Hstep as <-. unfold invariant. cbn [running main_at thread_at file trace].
      cbn [tag map]. rewrite app_nil_r. repeat split; try done.
    + apply (inj Some) in Hstep as <-. unfold invariant. cbn [running main_at thread_at file trace].
      cbn [tag map]. rewrite app_nil_r. repeat split; try done.
  - destruct (thread_at w) eqn:Ht; try done.
    apply (inj Some) in Hstep as <-. unfold invariant. cbn [running main_at thread_at file trace].
    destruct (extend_quiet (trace w) Main [Sys EvJoin]) as (E1 & E2 & E3); [quiet_calls|].
    rewrite E1, E2, E3, main_calls_app, main_calls_main, I4.
    repeat split; try done.
    + intros Hr. apply I1 in Hr. done.
  - apply (inj Some) in Hstep as <-. unfold invariant. cbn [running main_at thread_at file trace].
    rewrite fmap_app, snd_tag, List.existsb_app, use_after_close_app, I5, I6,
      main_calls_app, main_calls_main, I4, written_app.
    cbn. rewrite app_nil_r.
    repeat split; try done.
    + intros Hr. apply I1 in Hr. done.
  - apply (inj Some) in Hstep as <-. unfold invariant. cbn [running main_at thread_at file trace].
    destruct (extend_quiet (trace w) Main
                [Sys (EvClose fd); Sys (EvPrintf "UDP server stopped.")])
      as (E1 & E2 & E3); [quiet_calls|].
    rewrite E1, E2, E3, main_calls_app, main_calls_main, I4.
    repeat split; try done.
    + intros Hr. apply I1 in Hr. done.
    + by intros s [= <-].
  - done.
Qed.

Lemma receiver_step_invariant fd file0 so a w w' :
  receiver_step fd so a w = Some w' -> invariant fd file0 w -> invariant fd file0 w'.
Proof.
  unfold receiver_step. intros Hstep (I1 & I2 & I3 & I4 & I5 & I6 & I7).
  assert (thread_at w <> Returned -> stream_closed (main_at w) = false) as Hopen.
  { intros Hne. destruct (main_at w); try done; by rewrite I2 in Hne. }
  destruct (thread_at w) eqn:Ht.
  - apply (inj Some) in Hstep as <-. unfold invariant. cbn [running main_at thread_at file trace].
    destruct (extend_quiet (trace w) Receiver
                ([Free; Sys (EvSetsockopt fd)]
                   ++ if so <? 0 then [Sys (EvPerror "setsockopt failed")] else []))
      as (E1 & E2 & E3); [destruct (so <? 0); quiet_calls|].
    rewrite E1, E2, E3, main_calls_app, main_calls_receiver, app_nil_r.
    repeat split; try done; try apply I1; try (by destruct (main_at w)).
  - destruct (negb (running w)).
    + apply (inj Some) in Hstep as <-. repeat split; try done; try apply I1; try (cbn; by destruct (main_at w)).
    + destruct a as [d|errno].
      * destruct (Sink.recvfrom (buffer w) d) as [n buffer'].
        apply (inj Some) in Hstep as <-. repeat split; try done; try apply I1; try (cbn; by destruct (main_at w)).
      * apply (inj Some) in Hstep as <-.
        unfold invariant. cbn [running main_at thread_at file trace].
        destruct (extend_quiet (trace w) Receiver
                    (if would_block errno then [] else [Sys (EvPerror "recvfrom")]))
          as (E1 & E2 & E3); [destruct (would_block errno); quiet_calls|].
        rewrite E1, E2, E3, main_calls_app, main_calls_receiver, app_nil_r.
        repeat split; try done; try apply I1; try (by destruct (main_at w)).
  - apply (inj Some) in Hstep as <-.
    repeat split; try done; try apply I1;
      try (cbn; destruct (main_at w); by destruct (negb (running w))).
  - unfold Sink.write_out in Hstep. apply (inj Some) in Hstep as <-.
    unfold invariant. cbn [running main_at thread_at file trace].
    rewrite fmap_app, snd_tag, List.existsb_app, use_after_close_app, I5, I6,
      main_calls_app, main_calls_receiver, app_nil_r, written_app, written_write.
    rewrite Hopen by done. cbn.
    repeat split; try done; try apply I1; try (by destruct (main_at w)).
    by rewrite I7, app_assoc.
  - done.
Qed.

Lemma sink_step_invariant fd file0 l w w' :
  step fd l w = Some w' -> invariant fd file0 w -> invariant fd file0 w'.
Proof.
  unfold step. intros Hstep. destruct l.
  - apply (sink_main_step_invariant fd file0 fgets). by destruct (main_at w).
  - apply (receiver_step_invariant fd file0 so a). by destruct (main_at w).
Qed.

Lemma sink_run_invariant fd file0 ls :
  forall w w', run fd ls w = Some w' -> invariant fd file0 w -> invariant fd file0 w'.
Proof.
  induction ls as [|l ls IH]; intros w w' Hrun Hw.
  - by apply (inj Some) in Hrun as <-.
  - simpl in Hrun. destruct (step fd l w) as [w1|] eqn:Hs; [|done].
    eapply IH; [exact Hrun|]. by eapply sink_step_invariant.
Qed.

Lemma sink_initial_invariant fd buffer0 file0 : invariant fd file0 (initial buffer0 file0).
Proof. unfold invariant, initial. cbn. rewrite app_nil_r. repeat split; done. Qed.

(** Once [running] is false it stays false, and a step either leaves the
    file and what the thread is about to write as they are, or writes
    just that; a thread that has returned stays returned. *)
Lemma step_settled fd l w w' :
  step fd l w = Some w' ->
  (running w = false ->
   running w' = false
   /\ ((file w' = file w /\ pending w' = pending w)
       \/ (file w' = file w ++ pending w /\ pending w' = [])))
  /\ (thread_at w = Returned -> thread_at w' = Returned /\ file w' = file w).
Proof.
  unfold step. intros Hstep.
  assert (match l with
          | LMain fgets => main_step fd fgets w
          | LReceiver so a => receiver_step fd so a w
          end = Some w') as H by (by destruct (main_at w)).
  clear Hstep. destruct l as [fgets|so a].
  - unfold main_step in H. destruct (main_at w).
    + unfold control in H. destruct (running w) eqn:Hr; cbn in H.
      * destruct fgets as [input|]; [destruct (is_quit input)|];
          apply (inj Some) in H as <-; by split.
      * apply (inj Some) in H as <-. split; [|done]. intros _. split; [done|by left].
    + destruct (thread_at w) eqn:Ht; try done. apply (inj Some) in H as <-.
      split; [|done]. intros Hr. split; [done|]. left. unfold pending. cbn. by rewrite Ht.
    + apply (inj Some) in H as <-. split; [|done]. intros Hr. split; [done|by left].
    + apply (inj Some) in H as <-. split; [|done]. intros Hr. split; [done|by left].
    + done.
  - unfold receiver_step in H. unfold pending. destruct (thread_at w) eqn:Ht.
    + apply (inj Some) in H as <-. split; [|done]. intros Hr. split; [done|]. left. cbn.
      by destruct (so <? 0).
    + destruct (running w) eqn:Hr; cbn in H.
      * destruct a as [d|errno]; [destruct (Sink.recvfrom (buffer w) d)|];
          apply (inj Some) in H as <-; by split.
      * apply (inj Some) in H as <-. split; [|done]. intros _. split; [done|by left].
    + apply (inj Some) in H as <-. split; [|done]. intros Hr. split; [done|]. left. cbn.
      by rewrite Hr.
    + unfold Sink.write_out in H. apply (inj Some) in H as <-. split; [|done].
      intros Hr. split; [done|]. by right.
    + done.
Qed.

Lemma run_settled fd ls :
  forall w w',
    run fd ls w = Some w' ->
    (running w = false ->
     running w' = false
     /\ ((file w' = file w /\ pending w' = pending w)
         \/ (file w' = file w ++ pending w /\ pending w' = [])))
    /\ (thread_at w = Returned -> thread_at w' = Returned /\ file w' = file w).
Proof.
  induction ls as [|l ls IH]; intros w w' Hrun.
  - apply (inj Some) in Hrun as <-. split; [|done]. intros Hr. split; [done|by left].
  - simpl in Hrun. destruct (step fd l w) as [w1|] eqn:Hs; [|done]. cbn in Hrun.
    destruct (step_settled _ _ _ _ Hs) as [H1 H2].
    destruct (IH _ _ Hrun) as [H3 H4].
    split; intros H.
    + destruct (H1 H) as [Ha Hb]. destruct (H3 Ha) as [Hc Hd]. split; [done|].
      destruct Hb as [[Hf Hp]|[Hf Hp]], Hd as [[Hf' Hp']|[Hf' Hp']].
      * left. split; congruence.
      * right. split; [|done]. by rewrite Hf', Hf, Hp.
      * right. split; [|congruence]. by rewrite Hf', Hf.
      * right. split; [|done]. by rewrite Hf', Hp, app_nil_r, Hf.
    + destruct (H2 H) as [Ha Hb]. destruct (H4 Ha) as [Hc Hd]. split; [done|congruence].
Qed.

(** A turn of the receive thread that [main] does not interrupt is a turn
    of [udp_receive_thread] in which both tests read the same value. *)
Lemma receiver_turn fd a w :
  thread_at w = Testing -> (forall s, main_at w <> Exited s) ->
  run fd (match a with
          | Sink.Datagram _ =>
              if running w then [LReceiver 0 a; LReceiver 0 a; LReceiver 0 a]
              else [LReceiver 0 a]
          | Sink.Failure _ => [LReceiver 0 a]
          end) w
  = let '(st, buffer', file', evs) :=
      Sink.receive_turn (buffer w) (file w)
        {| Sink.tk_running := running w; Sink.tk_arrival := a;
           Sink.tk_running_again := running w |} in
    Some {| running := running w; main_at := main_at w;
            thread_at := match st with Sink.Receiving => Testing | Sink.Stopped => Returned end;
            buffer := buffer'; file := file';
            trace := trace w ++ tag Receiver (map Sys evs) |}.
Proof.
  destruct w as [r m t b f tr]. cbn. intros -> Hm.
  unfold Sink.receive_turn. cbn.
  destruct r; cbn.
  - destruct a as [d|errno]; cbn.
    + unfold step. destruct m as [| | | |s]; try (by destruct (Hm s)); cbn;
        destruct (Sink.recvfrom b d) as [n b']; cbn; reflexivity.
    + unfold step. destruct m as [| | | |s]; try (by destruct (Hm s)); cbn;
        by destruct (would_block errno).
  - destruct a as [d|errno]; unfold step;
      destruct m as [| | | |s]; try (by destruct (Hm s)); cbn; by rewrite app_nil_r.
Qed.

(** A turn in which [main] clears the flag between the second test and
    the write: the datagram is logged with [running] false. *)
Lemma receiver_turn_interrupted fd d w :
  thread_at w = Testing -> main_at w = Waiting -> running w = true ->
  exists w',
    run fd [LReceiver 0 (Sink.Datagram d); LReceiver 0 (Sink.Datagram d);
            LMain (Some "quit"%string); LReceiver 0 (Sink.Datagram d)] w = Some w'
    /\ running w' = false
    /\ file w' = (Sink.turn (buffer w) (file w) (Sink.Datagram d)).1.2.
Proof.
  destruct w as [r m t b f tr]. cbn. intros -> -> ->.
  unfold step, Sink.turn. cbn.
  destruct (Sink.recvfrom b d) as [n b']. cbn. by eexists.
Qed.

(** X19.  In every run of the threaded sink, whatever the interleaving:
    the log stream is never written to or flushed after [main] has closed
    it; the file is what it was at the start followed by what the receive
    thread wrote; [main] does its steps in order; and when it has returned,
    its status is 0, [running] is false and the receive thread has
    returned before it. *)
Theorem sink_shutdown_order (fd : Z) (buffer0 file0 : list byte) (ls : list label)
    (w : world) (Hrun : run fd ls (initial buffer0 file0) = Some w) :
  use_after_close false (snd <$> trace w) = false
  /\ file w = file0 ++ written (trace w)
  /\ main_calls (trace w) = main_script fd (main_at w)
  /\ (running w = true <-> main_at w = Waiting)
  /\ forall s, main_at w = Exited s ->
       s = 0 /\ running w = false /\ thread_at w = Returned.
Proof.
  destruct (sink_run_invariant fd file0 ls _ _ Hrun (sink_initial_invariant fd buffer0 file0))
    as (I1 & I2 & I3 & I4 & I5 & I6 & I7).
  repeat split; try done; try apply I1.
  - by apply (I3 s).
  - destruct (running w) eqn:Hr; [|done].
    assert (main_at w = Waiting) by (by apply I1). congruence.
  - by rewrite H in I2.
Qed.

Lemma sink_shutdown_order_witness :
  run 3 quit_schedule (initial Samples.blank []) = Some after_quit
  /\ main_at after_quit = Exited 0
  /\ file after_quit = Samples.hel
  /\ use_after_close false (snd <$> trace after_quit) = false.
Proof.
  assert (run 3 quit_schedule (initial Samples.blank []) = Some after_quit) as Hrun
    by (vm_compute; reflexivity).
  split; [exact Hrun|]. split; [reflexivity|]. split; [reflexivity|].
  exact (proj1 (sink_shutdown_order 3 Samples.blank [] quit_schedule after_quit Hrun)).
Defined.

(** X20.  Once [running] is false it stays false and at most one more
    datagram is logged: the one the receive thread holds if it is past its
    second test of the flag and before the write, and then only that.  A
    datagram it holds before that test is dropped.  Once the receive
    thread has returned, nothing is logged. *)
Theorem sink_log_frozen (fd : Z) (ls : list label) (w w' : world)
    (Hstop : running w = false \/ thread_at w = Returned)
    (Hrun : run fd ls w = Some w') :
  (file w' = file w \/ (file w' = file w ++ pending w /\ pending w' = []))
  /\ ((forall n, thread_at w <> Writing n) -> file w' = file w)
  /\ (running w = false -> running w' = false)
  /\ (thread_at w = Returned -> thread_at w' = Returned).
Proof.
  destruct (run_settled fd ls w w' Hrun) as [H1 H2].
  split; [|split; [|split]].
  - destruct Hstop as [H|H].
    + destruct (H1 H) as [_ [[Hf _]|Hb]]; [by left|by right].
    + left. by destruct (H2 H).
  - intros Hnw. destruct Hstop as [H|H]; [|by destruct (H2 H)].
    assert (pending w = []) as Hp.
    { unfold pending. destruct (thread_at w) eqn:Ht; try done. by destruct (Hnw n). }
    destruct (H1 H) as [_ [[Hf _]|[Hf _]]]; [done|]. by rewrite Hf, Hp, app_nil_r.
  - intros H. by destruct (H1 H).
  - intros H. by destruct (H2 H).
Qed.

Lemma sink_log_frozen_witness :
  running at_late_quit = false
  /\ thread_at at_late_quit = Writing 3
  /\ file at_late_quit = []
  /\ run 3 (drop 4 late_quit_schedule) at_late_quit = Some after_late_quit
  /\ file after_late_quit = Samples.hel
  /\ (file after_late_quit = file at_late_quit
      \/ (file after_late_quit = file at_late_quit ++ pending at_late_quit
          /\ pending after_late_quit = [])).
Proof.
  assert (run 3 (drop 4 late_quit_schedule) at_late_quit = Some after_late_quit) as Hrun
    by (vm_compute; reflexivity).
  split; [reflexivity|]. split; [reflexivity|]. split; [reflexivity|].
  split; [exact Hrun|]. split; [reflexivity|].
  exact (proj1 (sink_log_frozen 3 (drop 4 late_quit_schedule) at_late_quit after_late_quit
                  (or_introl eq_refl) Hrun)).
Defined.

(** X21.  Once [running] is false the sink comes to its end: the receive
    thread finishes the write it had decided on, if any, and returns at
    its next test, [main] joins it, closes the stream and the socket and
    returns 0, in at most six steps; the log has gained that one write
    and nothing else. *)
Theorem sink_shutdown_completes (fd : Z) (w : world)
    (Hr : running w = false) (Hm : forall s, main_at w <> Exited s) :
  exists w',
    run fd (wind_down w) w = Some w'
    /\ main_at w' = Exited 0
    /\ thread_at w' = Returned
    /\ file w' = file w ++ pending w
    /\ (length (wind_down w) <= 6)%nat.
Proof.
  destruct w as [r m t b f tr]. cbn in Hr, Hm. subst r.
  destruct m as [| | | |s]; [| | | |by destruct (Hm s)];
    destruct t as [| |n|n|];
    (eexists; split; [reflexivity|]; unfold pending; cbn; rewrite ?app_nil_r;
     repeat split; lia).
Qed.

Lemma sink_shutdown_completes_witness :
  exists w',
    run 3 (wind_down at_late_quit) at_late_quit = Some w'
    /\ main_at w' = Exited 0
    /\ thread_at w' = Returned
    /\ file w' = file at_late_quit ++ pending at_late_quit
    /\ (length (wind_down at_late_quit) <= 6)%nat.
Proof.
  apply (sink_shutdown_completes 3 at_late_quit); [reflexivity|]. intros s. discriminate.
Defined.




End SinkWorldFacts.

(** ** The first tcp_server.c: no flag, no timeouts *)

Module LegacyFacts.
Import Legacy.

Lemma read_loop_legacy g fd script :
  Forall plain_turn script ->
  forall buffer,
    Handler.read_loop g fd buffer script = read_loop g fd buffer (of_handler <$> script).
Proof.
  induction 1 as [|tk script [Hr Hb] _ IH]; intros buffer; [done|].
  cbn. unfold Handler.iterate. rewrite Hr. cbn.
  destruct (Z.ltb_spec (rv_n (Handler.tk_recv tk)) 0) as [Hn|Hn].
  - rewrite (Hb Hn). destruct (Z.leb_spec (rv_n (Handler.tk_recv tk)) 0); [done|lia].
  - destruct (Z.eqb_spec (rv_n (Handler.tk_recv tk)) 0) as [H0|H0].
    + destruct (Z.leb_spec (rv_n (Handler.tk_recv tk)) 0); [done|lia].
    + destruct (Z.leb_spec (rv_n (Handler.tk_recv tk)) 0); [lia|].
      by rewrite IH.
Qed.

(** X23.  As long as [running] is read as true and no read times out, the
    handler of the threaded bridge does what the first [client_thread]
    did, after the [setsockopt] it begins with: the same reads, the same
    forwards, the same close. *)
Theorem client_thread_extends_legacy (g : globals) (fd so : Z) (buffer : list byte)
    (script : list Handler.tick) (Hplain : Forall plain_turn script) :
  Handler.client_thread g fd so buffer script
  = ((client_thread g fd buffer (of_handler <$> script)).1,
     Handler.prologue fd so ++ (client_thread g fd buffer (of_handler <$> script)).2).
Proof.
  unfold Handler.client_thread, client_thread.
  rewrite (read_loop_legacy g fd script Hplain buffer).
  destruct (read_loop g fd buffer (of_handler <$> script)) as [st evs].
  by destruct st.
Qed.

Lemma client_thread_extends_legacy_witness :
  Forall plain_turn hello_script
  /\ Handler.client_thread Samples.g0 7 0 Samples.blank hello_script
     = ((client_thread Samples.g0 7 Samples.blank (of_handler <$> hello_script)).1,
        Handler.prologue 7 0
          ++ (client_thread Samples.g0 7 Samples.blank (of_handler <$> hello_script)).2).
Proof.
  assert (Forall plain_turn hello_script) as H.
  { repeat (apply List.Forall_cons; [split; [reflexivity|cbn; lia]|]). apply List.Forall_nil. }
  split; [exact H|].
  exact (client_thread_extends_legacy Samples.g0 7 0 Samples.blank hello_script H).
Defined.

Lemma core_app a b : core (a ++ b) = core a ++ core b.
Proof. apply List.filter_app. Qed.

Lemma iterate_legacy g tk :
  Acceptor.tk_running tk = true ->
  (Acceptor.iterate g tk).1.1 = Acceptor.Accepting
  /\ core (Acceptor.iterate g tk).1.2 = core (iterate (of_acceptor tk)).1
  /\ (Acceptor.iterate g tk).2 = (iterate (of_acceptor tk)).2
  /\ Connections.accepted (iterate (of_acceptor tk)).1
     = Connections.settled (iterate (of_acceptor tk)).1.
Proof.
  intros Hr. unfold Acceptor.iterate, iterate, of_acceptor. rewrite Hr. cbn.
  destruct (Acceptor.tk_malloc tk); cbn.
  2: { by destruct (Acceptor.tk_setsockopt tk <? 0). }
  destruct (Z.ltb_spec (Acceptor.tk_accept tk) 0) as [Hc|Hc]; cbn.
  - assert ((0 <=? Acceptor.tk_accept tk) = false) as E by lia.
    unfold Connections.accepted, Connections.settled. cbn. rewrite E.
    destruct (would_block (Acceptor.tk_errno tk)), (Acceptor.tk_setsockopt tk <? 0),
      (Acceptor.tk_running_again tk); done.
  - assert ((0 <=? Acceptor.tk_accept tk) = true) as E by lia.
    unfold Connections.accepted, Connections.settled.
    destruct (Acceptor.tk_create tk =? 0); cbn; rewrite E;
      by destruct (Acceptor.tk_setsockopt tk <? 0).
Qed.

(** X24.  As long as [running] is read as true, the accept thread of the
    threaded bridge dispatches what the accept loop of the first [main]
    dispatched, with the same calls apart from the timeout it sets and
    the reports; and the first loop too closes each connection it cannot
    start a thread for. *)
Theorem accept_thread_extends_legacy (g : globals) (script : list Acceptor.tick)
    (Hrun : Forall (fun tk => Acceptor.tk_running tk = true) script) :
  (Acceptor.accept_thread_func g script).1.1 = Acceptor.Accepting
  /\ (Acceptor.accept_thread_func g script).2 = (accept_loop (of_acceptor <$> script)).2
  /\ core (Acceptor.accept_thread_func g script).1.2
     = core (accept_loop (of_acceptor <$> script)).1
  /\ Connections.accepted (accept_loop (of_acceptor <$> script)).1
     = Connections.settled (accept_loop (of_acceptor <$> script)).1.
Proof.
  induction Hrun as [|tk script Hr _ IH]; [done|].
  cbn [fmap list_fmap Acceptor.accept_thread_func accept_loop].
  change (list_fmap _ _ of_acceptor script) with (of_acceptor <$> script).
  destruct (iterate_legacy g tk Hr) as (H1 & H2 & H3 & H4).
  destruct (Acceptor.iterate g tk) as [[st evs] c].
  destruct (iterate (of_acceptor tk)) as [evs0 c0].
  cbn [fst snd] in *. subst st c0.
  destruct (Acceptor.accept_thread_func g script) as [[st' evs'] cs].
  destruct (accept_loop (of_acceptor <$> script)) as [evs0' cs0].
  cbn [fst snd] in *. destruct IH as (-> & -> & I3 & I4).
  rewrite !core_app, H2, I3, ConnectionFacts.accepted_app, ConnectionFacts.settled_app, H4, I4.
  done.
Qed.

Lemma accept_thread_extends_legacy_witness :
  Forall (fun tk => Acceptor.tk_running tk = true) Samples.accept_script
  /\ (Acceptor.accept_thread_func Samples.g0 Samples.accept_script).2
     = (accept_loop (of_acceptor <$> Samples.accept_script)).2.
Proof.
  assert (Forall (fun tk => Acceptor.tk_running tk = true) Samples.accept_script) as H.
  { repeat (apply List.Forall_cons; [reflexivity|]). apply List.Forall_nil. }
  split; [exact H|].
  exact (proj1 (proj2 (accept_thread_extends_legacy Samples.g0 Samples.accept_script H))).
Defined.

End LegacyFacts.
